(** * Smart parking server: slot history log and dashboard analytics

    A shallow embedding of the Express service of [src/server.js] and of
    its variants with WIB time stamps ([src/unnamed/part_000] and
    following).  The two module-level stores of the service, the
    [parkingData] map and the [slotHistory] array, together with the wall
    clock read by [new Date()] and [Date.now()], form the state threaded
    through the handlers by a small state monad.

    The variants share [logSlotChange] and the handler of the reports up
    to two parameters: the retention bound of the history ([cap]: 10000 or
    5000) and the recording of WIB time stamps ([wib]).  The dashboard is
    the one of [server.js]; of the WIB variant the hourly pattern is
    embedded as well.  Of the variants, the peak hours, the summary, the
    recent activities, the two reductions of the hourly analytics, the
    accounts and the check of the token are embedded after the notions of
    the service.

    Conventions of the embedding:
    - a [Date] is its number of milliseconds since the epoch, in [Z];
    - JavaScript numbers are integers of [Z] (reports carry integer slot
      values and identifiers); the quotients of the occupancy rates are
      doubles: a double is the rational it denotes, in [Q], and the
      division and the multiplication round to the nearest double
      ([round64]); [Math.round] of a duration (the averages, the
      minutes) is taken of the exact quotient;
    - a request body is typed: [deviceId] is a string, [slots] an array of
      numbers, of [null] and of objects whose [id] and [lastUpdate] are
      integers and whose [occupied] is a boolean; each of these may be
      missing, which an [option] says, and [None] for a slot flag is
      [undefined];
    - a handler that throws is answered by the error handling middleware:
      the [TypeError] of a report is found before the handler touches the
      state ([typeError]);
    - every reading of the clock is a reading of its own: [clk n] is the
      [n]-th one, and the state counts the readings.

    The file has three parts: the embedding of the service, the notions
    that the statements use, with the further views of the variants, and
    the properties. *)

From Stdlib Require Import ZArith String Bool Lia QArith Qround Qpower Lqa.
From Stdlib Require Import Sorted List.
From Stdlib Require SpecFloat.
Import ListNotations.

Local Open Scope string_scope.
Local Open Scope list_scope.
Local Open Scope Z_scope.

Set Implicit Arguments.

(** ** Data model *)

Definition Time := Z.

(** One normalized slot of a device snapshot ([slotData] in the handler). *)
Record Slot := mkSlot {
  id : Z;
  occupied : option bool;
  lastUpdate : Z
}.

(** The value stored under a device id by [parkingData.set]. *)
Record Snapshot := mkSnapshot {
  d_deviceId : string;
  d_timestamp : option Z;
  d_wifiStatus : option string;
  slots : list Slot;
  availableSlots : Z;
  totalSlots : Z;
  d_lastUpdate : Time;
  d_lastUpdateWIB : option Time
}.

(** One entry of [slotHistory] ([log] in [logSlotChange]).  [duration] is
    [None] while it is [null]; [timestampWIB] exists in the WIB variants
    only. *)
Record LogEntry := mkLog {
  deviceId : string;
  slotId : Z;
  previousState : option bool;
  newState : option bool;
  timestamp : Time;
  timestampWIB : option Time;
  ipAddress : option string;
  duration : option Z
}.

(** An element of the [slots] array of a report: an object with optional
    [id], [occupied] and [lastUpdate] properties, a bare number, or
    [null].  A number other than 0 and 1 stands as well for a string or
    a boolean, which have none of the three properties and are neither
    [0] nor [1]; reading a property of [null] throws a [TypeError]. *)
Record SlotObj := mkSlotObj {
  in_id : option Z;
  in_occupied : option bool;
  in_lastUpdate : option Z
}.

Inductive SlotIn :=
| InObj (o : SlotObj)
| InNum (n : Z)
| InNull.

(** [req.body] of [POST /api/parking-status]; [b_slots] is [None] when the
    field is missing or is not an array. *)
Record Body := mkBody {
  b_deviceId : option string;
  b_timestamp : option Z;
  b_wifiStatus : option string;
  b_slots : option (list SlotIn)
}.

Record Request := mkRequest {
  body : Body;
  clientIP : option string
}.

(** ** JavaScript [Map], in insertion order *)

Module JsMap.

Definition t (V : Type) := list (string * V).

Definition empty {V} : t V := [].

Fixpoint get {V} (m : t V) (k : string) : option V :=
  match m with
  | [] => None
  | (k', v) :: m' => if String.eqb k k' then Some v else get m' k
  end.

(** [set] keeps the position of a key that is already present. *)
Fixpoint set {V} (m : t V) (k : string) (v : V) : t V :=
  match m with
  | [] => [(k, v)]
  | (k', v') :: m' =>
      if String.eqb k k' then (k', v) :: m' else (k', v') :: set m' k v
  end.

Definition values {V} (m : t V) : list V := map snd m.

Definition size {V} (m : t V) : Z := Z.of_nat (length m).

End JsMap.

(** ** JavaScript objects keyed by integers

    [Object.values] enumerates array-index keys in ascending order,
    whatever the order of the assignments, and an assignment to a key that
    exists keeps its place. *)

Module IntObj.

Definition t (V : Type) := list (Z * V).

Fixpoint get {V} (o : t V) (k : Z) : option V :=
  match o with
  | [] => None
  | (k', v) :: o' => if k =? k' then Some v else get o' k
  end.

Fixpoint replace {V} (o : t V) (k : Z) (v : V) : t V :=
  match o with
  | [] => []
  | (k', v') :: o' =>
      if k =? k' then (k', v) :: o' else (k', v') :: replace o' k v
  end.

Fixpoint insert {V} (o : t V) (k : Z) (v : V) : t V :=
  match o with
  | [] => [(k, v)]
  | (k', v') :: o' =>
      if k <? k' then (k, v) :: (k', v') :: o' else (k', v') :: insert o' k v
  end.

Definition set {V} (o : t V) (k : Z) (v : V) : t V :=
  match get o k with
  | Some _ => replace o k v
  | None => insert o k v
  end.

Definition values {V} (o : t V) : list V := map snd o.

Definition keys {V} (o : t V) : list Z := map fst o.

End IntObj.

(** ** The state of the service and the monad of its handlers *)

Record World := mkWorld {
  parkingData : JsMap.t Snapshot;
  slotHistory : list LogEntry;
  ticks : nat
}.

Definition M (A : Type) : Type := World -> A * World.

Definition ret {A} (a : A) : M A := fun w => (a, w).

Definition bind {A B} (m : M A) (k : A -> M B) : M B :=
  fun w => let (a, w') := m w in k a w'.

Declare Scope monad_scope.
Delimit Scope monad_scope with monad.
Notation "x <- m ;; k" := (bind m (fun x => k))
  (at level 61, m at next level, right associativity) : monad_scope.
Notation "m ;; k" := (bind m (fun _ => k))
  (at level 61, right associativity) : monad_scope.
Local Open Scope monad_scope.

Definition get_history : M (list LogEntry) := fun w => (slotHistory w, w).

Definition put_history (h : list LogEntry) : M unit :=
  fun w => (tt, mkWorld (parkingData w) h (ticks w)).

Definition get_parkingData : M (JsMap.t Snapshot) :=
  fun w => (parkingData w, w).

Definition put_parkingData (m : JsMap.t Snapshot) : M unit :=
  fun w => (tt, mkWorld m (slotHistory w) (ticks w)).

(** [slots.map(callback)]: the callback receives the element and its index
    and may change the state. *)
Fixpoint mapM_index {A B} (f : A -> nat -> M B) (l : list A) (i : nat)
  : M (list B) :=
  match l with
  | [] => ret []
  | x :: l' =>
      y <- f x i ;;
      ys <- mapM_index f l' (S i) ;;
      ret (y :: ys)
  end.

(** JavaScript truthiness and strict equality on the values of the model. *)
Definition truthy_num (v : option Z) : bool :=
  match v with Some n => negb (n =? 0) | None => false end.

Definition truthy_flag (v : option bool) : bool :=
  match v with Some b => b | None => false end.

Definition flag_eq (a b : option bool) : bool :=
  match a, b with
  | Some x, Some y => Bool.eqb x y
  | None, None => true
  | _, _ => false
  end.

(** [a || b] on numbers. *)
Definition or_num (a : option Z) (b : Z) : Z :=
  match a with Some n => if n =? 0 then b else n | None => b end.

(** ** Responses

    [res.status(c).json(obj)]: the status code and the top-level properties
    of [obj] in the order of the object literal.  Nested objects stay typed
    ([FData]); a [Date] or an ISO string is kept as its instant.
    [FByEnv a b] is the string of
    [process.env.NODE_ENV === "development" ? a : b]: [a] where the
    process runs in development, [b] elsewhere. *)
Inductive Field (D : Type) :=
| FBool (b : bool)
| FNum (n : Z)
| FStr (s : string)
| FDate (t : Time)
| FData (d : D)
| FByEnv (development other : string).

Arguments FBool {D} b.
Arguments FNum {D} n.
Arguments FStr {D} s.
Arguments FDate {D} t.
Arguments FData {D} d.
Arguments FByEnv {D} development other.

Record Response (D : Type) := mkResponse {
  status : Z;
  json : list (string * Field D)
}.

(** [obj[key]] on the top level of a response body. *)
Fixpoint field {D} (o : list (string * Field D)) (key : string)
  : option (Field D) :=
  match o with
  | [] => None
  | (k, v) :: o' => if String.eqb key k then Some v else field o' key
  end.

Definition hourMs : Z := 60 * 60 * 1000.

Definition convertToWIB (date : Time) : Time := date + 7 * hourMs.

(** [getUTCHours()] of an instant. *)
Definition getUTCHours (t : Time) : Z := (t / hourMs) mod 24.

(** The result of [formatWIBDate]: its [hour] and [timestamp] properties
    (the locale-formatted strings are left out). *)
Record WIBDate := mkWIBDate {
  wf_hour : Z;
  wf_timestamp : Time
}.

Definition formatWIBDate (date : Time) : WIBDate :=
  let wibDate := convertToWIB date in
  mkWIBDate (getUTCHours wibDate) wibDate.

(** [data] of the answer to a report. *)
Record UpdateData := mkUpdateData {
  u_deviceId : string;
  u_availableSlots : Z;
  u_totalSlots : Z;
  u_timestamp : Time;
  u_timestampWIB : option WIBDate
}.

(** Properties read off an element of [slots]; a number has none.  Of
    [null] no property is read: the handler has thrown where it would
    ([typeError]). *)
Definition prop_id (s : SlotIn) : option Z :=
  match s with InObj o => in_id o | _ => None end.

Definition prop_occupied (s : SlotIn) : option bool :=
  match s with InObj o => in_occupied o | _ => None end.

Definition prop_lastUpdate (s : SlotIn) : option Z :=
  match s with InObj o => in_lastUpdate o | _ => None end.

(** [typeof s === "object" && s.hasOwnProperty("occupied")], where [s] is
    not [null]. *)
Definition isSlotObject (s : SlotIn) : bool :=
  match s with
  | InObj o => match in_occupied o with Some _ => true | None => false end
  | _ => false
  end.

(** [s === n] for an element of [slots] and a number. *)
Definition num_eq (s : SlotIn) (n : Z) : bool :=
  match s with InNum m => m =? n | _ => false end.

Definition isNull (s : SlotIn) : bool :=
  match s with InNull => true | _ => false end.

(** The [TypeError] that the handler of the reports throws on the [slots]
    of a body, with its message: the test of the format reads
    [slots[0].hasOwnProperty], and [typeof null] is ["object"]; and in the
    format of slot objects the [filter] that counts the available slots
    reads [slot.occupied] of every element.  Both come before the first
    call of [logSlotChange], the first reading of the clock and
    [parkingData.set].  The simple format reads no property of its
    elements. *)
Definition typeError (reported : option (list SlotIn)) : option string :=
  match reported with
  | Some (first :: rest) =>
      if isNull first
      then Some "Cannot read properties of null (reading 'hasOwnProperty')"
      else if isSlotObject first && existsb isNull rest
      then Some "Cannot read properties of null (reading 'occupied')"
      else None
  | _ => None
  end.

(** ** Aggregation for the dashboard ([app.get("/api/admin/dashboard")]) *)

Definition dayMs : Z := 24 * 60 * 60 * 1000.

(** [Math.round]: the nearest integer, halves upwards. *)
Definition Math_round (x : Q) : Z := Qfloor (x + (1 # 2)).

(** *** Doubles

    The quotient and the product of an occupancy rate are operations on
    doubles (IEEE 754 binary64): the exact result is rounded to the nearest
    double, a tie to the one with the even significand.  A finite double is
    the rational it denotes.  [binade x] is the exponent [e] with
    [2 ^ e <= x < 2 ^ (e + 1)]; the doubles from [2 ^ e] to [2 ^ (e + 1)]
    are the multiples of [2 ^ (e - 52)].  Subnormal numbers and overflow
    are left out: the operands are counts of slots and 100. *)
Definition binade (x : Q) : Z :=
  let e := Z.log2 (Qnum x) - Z.log2 (Zpos (Qden x)) in
  if Qle_bool (2 ^ e) x then e else e - 1.

Definition nearestEven (y : Q) : Z :=
  let f := Qfloor y in
  match (y - inject_Z f ?= 1 # 2)%Q with
  | Lt => f
  | Gt => f + 1
  | Eq => if Z.even f then f else f + 1
  end.

Definition roundPos (x : Q) : Q :=
  let e := binade x in
  (inject_Z (nearestEven (x * 2 ^ (52 - e))) * 2 ^ (e - 52))%Q.

Definition round64 (x : Q) : Q :=
  match Qnum x with
  | Z0 => 0
  | Zpos _ => roundPos x
  | Zneg _ => - roundPos (- x)
  end%Q.

(** [x / y] and [x * y] on doubles. *)
Definition js_div (x y : Q) : Q := round64 (x / y).
Definition js_mul (x y : Q) : Q := round64 (x * y).

(** Half the distance, relative to [1], between [1] and the next double. *)
Definition epsilon64 : Q := 1 # (2 ^ 53).

(** The same operations in the formalization of binary64 of the Standard
    Library, to compare [round64] with. *)
Definition double_of_Z (z : Z) : SpecFloat.spec_float :=
  SpecFloat.binary_normalize 53 1024 z 0 false.

Definition double_value (f : SpecFloat.spec_float) : Q :=
  match f with
  | SpecFloat.S754_finite s m e =>
      ((if s then -1 else 1) * inject_Z (Zpos m) * 2 ^ e)%Q
  | _ => 0%Q
  end.

Definition share64 (part total : Z) : Q :=
  double_value
    (SpecFloat.SFmul 53 1024
       (SpecFloat.SFdiv 53 1024 (double_of_Z part) (double_of_Z total))
       (double_of_Z 100)).

(** [x.toFixed(1)], as the number of tenths it prints: the tenth nearest
    to the value of the double [x], halves away from zero. *)
Definition toFixed1 (x : Q) : Z :=
  if Qle_bool 0 x then Qfloor (x * 10 + (1 # 2))
  else - Qfloor (- x * 10 + (1 # 2)).

(** [(part / total) * 100], the number that the rates print. *)
Definition share (part total : Z) : Q :=
  js_mul (js_div (inject_Z part) (inject_Z total)) 100.

(** An occupancy rate is the string of [toFixed(1)] or the number [0]. *)
Inductive Rate :=
| RateFixed (tenths : Z)
| RateNum (n : Z).

Definition rate_value (r : Rate) : Q :=
  match r with
  | RateFixed tenths => tenths # 10
  | RateNum n => inject_Z n
  end.

Definition percentage (part total : Z) : Rate :=
  if 0 <? total
  then RateFixed
         (toFixed1 (js_mul (js_div (inject_Z part) (inject_Z total)) 100))
  else RateNum 0.

(** An element of [currentStatus]. *)
Record DeviceStatus := mkDeviceStatus {
  cs_deviceId : string;
  cs_totalSlots : Z;
  cs_availableSlots : Z;
  cs_occupiedSlots : Z;
  cs_occupancyRate : Rate;
  cs_lastUpdate : Time;
  cs_wifiStatus : option string;
  cs_slots : list Slot
}.

Definition deviceStatus (data : Snapshot) : DeviceStatus :=
  mkDeviceStatus (d_deviceId data) (totalSlots data) (availableSlots data)
    (totalSlots data - availableSlots data)
    (percentage (totalSlots data - availableSlots data) (totalSlots data))
    (d_lastUpdate data) (d_wifiStatus data)
    (map (fun slot => mkSlot (id slot) (occupied slot) (lastUpdate slot))
         (slots data)).

Definition currentStatus (store : JsMap.t Snapshot) : list DeviceStatus :=
  map deviceStatus (JsMap.values store).

(** A value of [slotUsageStats[deviceId][slotId]]. *)
Record SlotStats := mkSlotStats {
  st_slotId : Z;
  totalOccupations : Z;
  totalDuration : Z;
  averageDuration : Z;
  currentlyOccupied : option bool;
  last24hOccupations : Z;
  last7dOccupations : Z
}.

Definition UsageStats := JsMap.t (IntObj.t SlotStats).

(** [slotUsageStats] is a plain object, read here by its own keys: the
    order in which [Object.keys] lists them is not part of the model.
    Reading it at a name that [Object.prototype] defines finds the
    inherited value when the object has no key of this name. *)
Definition inheritedName (key : string) : bool :=
  existsb (String.eqb key)
    ["constructor"; "__proto__"; "hasOwnProperty"; "isPrototypeOf";
     "propertyIsEnumerable"; "toLocaleString"; "toString"; "valueOf";
     "__defineGetter__"; "__defineSetter__"; "__lookupGetter__";
     "__lookupSetter__"].

(** "Initialize slot stats for each device" *)
Definition initSlot (dev : string) (stats : UsageStats) (slot : Slot)
  : UsageStats :=
  match JsMap.get stats dev with
  | Some devStats =>
      match IntObj.get devStats (id slot) with
      | Some _ => stats
      | None =>
          JsMap.set stats dev
            (IntObj.set devStats (id slot)
               (mkSlotStats (id slot) 0 0 0 (occupied slot) 0 0))
      end
  | None => stats
  end.

(** For a device whose id is an inherited name, [slotUsageStats[id]] is
    the inherited value, so that no key is made for the device and the
    statistics of its slots are written to that value and not to
    [slotUsageStats].  (For the id [__proto__] that value is
    [Object.prototype] itself, and what is written there is seen through
    every object of the process afterwards: a store with such a device is
    outside the embedding.) *)
Definition initDevice (stats : UsageStats) (device : DeviceStatus)
  : UsageStats :=
  if inheritedName (cs_deviceId device) then stats
  else
    let stats' :=
      match JsMap.get stats (cs_deviceId device) with
      | Some _ => stats
      | None => JsMap.set stats (cs_deviceId device) []
      end in
    fold_left (initSlot (cs_deviceId device)) (cs_slots device) stats'.

Definition initStats (status : list DeviceStatus) : UsageStats :=
  fold_left initDevice status [].

(** "Analyze historical data": the callback of [slotHistory.forEach]. *)
Definition countOccupation (last24Hours last7Days : Time) (log : LogEntry)
    (st : SlotStats) : SlotStats :=
  if flag_eq (newState log) (Some true) then
    mkSlotStats (st_slotId st) (totalOccupations st + 1) (totalDuration st)
      (averageDuration st) (currentlyOccupied st)
      (if last24Hours <=? timestamp log
       then last24hOccupations st + 1 else last24hOccupations st)
      (if last7Days <=? timestamp log
       then last7dOccupations st + 1 else last7dOccupations st)
  else st.

Definition addDuration (log : LogEntry) (st : SlotStats) : SlotStats :=
  if flag_eq (newState log) (Some false) && truthy_num (duration log) then
    mkSlotStats (st_slotId st) (totalOccupations st)
      (totalDuration st + or_num (duration log) 0)
      (averageDuration st) (currentlyOccupied st)
      (last24hOccupations st) (last7dOccupations st)
  else st.

Definition analyzeLog (last24Hours last7Days : Time) (stats : UsageStats)
    (log : LogEntry) : UsageStats :=
  match JsMap.get stats (deviceId log) with
  | None => stats
  | Some devStats =>
      match IntObj.get devStats (slotId log) with
      | None => stats
      | Some slotStats =>
          JsMap.set stats (deviceId log)
            (IntObj.set devStats (slotId log)
               (addDuration log
                  (countOccupation last24Hours last7Days log slotStats)))
      end
  end.

(** "Calculate average durations" *)
Definition withAverage (st : SlotStats) : SlotStats :=
  if 0 <? totalOccupations st then
    mkSlotStats (st_slotId st) (totalOccupations st) (totalDuration st)
      (Math_round (inject_Z (totalDuration st)
                   / inject_Z (totalOccupations st)))
      (currentlyOccupied st) (last24hOccupations st) (last7dOccupations st)
  else st.

Definition slotUsageStats (now : Time) (store : JsMap.t Snapshot)
    (history : list LogEntry) : UsageStats :=
  let last24Hours := now - dayMs in
  let last7Days := now - 7 * dayMs in
  let analyzed :=
    fold_left (analyzeLog last24Hours last7Days) history
      (initStats (currentStatus store)) in
  map (fun dv => (fst dv, map (fun kv => (fst kv, withAverage (snd kv)))
                              (snd dv)))
      analyzed.

(** An element of [recentChanges]; [c_duration] is in minutes, [None] is
    [null]. *)
Record Change := mkChange {
  c_deviceId : string;
  c_slotId : Z;
  c_change : string;
  c_previousState : string;
  c_timestamp : Time;
  c_duration : option Z
}.

Definition stateName (v : option bool) : string :=
  if truthy_flag v then "occupied" else "available".

Definition changeOfLog (log : LogEntry) : Change :=
  mkChange (deviceId log) (slotId log) (stateName (newState log))
    (stateName (previousState log)) (timestamp log)
    (if truthy_num (duration log)
     then Some (Math_round (inject_Z (or_num (duration log) 0) / 1000 / 60))
     else None).

(** [array.slice(-n)] *)
Definition slice_last {A} (n : nat) (l : list A) : list A :=
  skipn (length l - n) l.

Definition recentChanges (history : list LogEntry) : list Change :=
  map changeOfLog (rev (slice_last 50 history)).

(** [array.sort(cmp)]: the sort is stable; an insertion sort stands for
    it. *)
Fixpoint insertBy {A} (cmp : A -> A -> Z) (x : A) (l : list A) : list A :=
  match l with
  | [] => [x]
  | y :: l' => if cmp x y <=? 0 then x :: y :: l' else y :: insertBy cmp x l'
  end.

Definition sortBy {A} (cmp : A -> A -> Z) (l : list A) : list A :=
  fold_right (insertBy cmp) [] l.

(** [history.filter((log) => log.timestamp >= threshold)] *)
Definition since (threshold : Time) (history : list LogEntry)
  : list LogEntry :=
  filter (fun log => threshold <=? timestamp log) history.

(** The counters [0 .. n-1] of a [for] loop. *)
Definition upto (n : nat) : list Z := map Z.of_nat (seq 0 n).

(** A value of [hourlyPattern[hour]] in [server.js]. *)
Record HourBucket := mkHourBucket {
  hour : Z;
  occupations : Z;
  releases : Z
}.

(** A value of [hourlyPattern[wibHour]] in the WIB variant (the formatted
    hour and date strings are left out). *)
Record HourBucketWIB := mkHourBucketWIB {
  w_hour : Z;
  w_occupations : Z;
  w_releases : Z;
  w_netChange : Z
}.

(** "System statistics" *)
Record SystemStats := mkSystemStats {
  totalDevices : Z;
  sys_totalSlots : Z;
  totalOccupied : Z;
  totalAvailable : Z;
  overallOccupancyRate : Rate;
  totalHistoryRecords : Z;
  last24hChanges : Z;
  last7dChanges : Z
}.

Definition systemStats (now : Time) (store : JsMap.t Snapshot)
    (history : list LogEntry) : SystemStats :=
  let status := currentStatus store in
  let total := fold_left (fun sum device => sum + cs_totalSlots device)
                 status 0 in
  let occ := fold_left (fun sum device => sum + cs_occupiedSlots device)
               status 0 in
  let avail := fold_left (fun sum device => sum + cs_availableSlots device)
                 status 0 in
  mkSystemStats (JsMap.size store) total occ avail
    (if 0 <? total
     then RateFixed
            (toFixed1 (js_mul (js_div (inject_Z occ) (inject_Z total)) 100))
     else RateNum 0)
    (Z.of_nat (length history))
    (Z.of_nat (length (since (now - dayMs) history)))
    (Z.of_nat (length (since (now - 7 * dayMs) history))).

Record DashboardData := mkDashboardData {
  dd_systemStats : SystemStats;
  dd_currentStatus : list DeviceStatus;
  dd_slotUsageStats : UsageStats;
  dd_recentChanges : list Change;
  dd_hourlyPattern : list HourBucket;
  dd_lastUpdated : Time
}.

Section Aggregation.

(** [getHours()] reads the hour in the zone of the process: [tzOffset t]
    is the offset from UTC, in milliseconds, that the zone has at the
    instant [t]; it changes with the instant where the zone has a summer
    time. *)
Variable tzOffset : Time -> Z.

Definition getHours (t : Time) : Z := getUTCHours (t + tzOffset t).

(** "Hourly occupancy pattern (last 24 hours)" of [server.js].  The
    buckets of the 24 latest hours are created first. *)
Definition seedHours (now : Time) : IntObj.t HourBucket :=
  fold_left
    (fun pattern i =>
       let h := getHours (now - i * hourMs) in
       IntObj.set pattern h (mkHourBucket h 0 0))
    (upto 24) [].

(** The callback of [forEach]; reading a property of a bucket that does
    not exist throws ([None]). *)
Definition countHour (pattern : option (IntObj.t HourBucket))
    (log : LogEntry) : option (IntObj.t HourBucket) :=
  match pattern with
  | None => None
  | Some pattern =>
      let h := getHours (timestamp log) in
      match IntObj.get pattern h with
      | None => None
      | Some b =>
          Some (IntObj.set pattern h
                  (if flag_eq (newState log) (Some true)
                   then mkHourBucket (hour b) (occupations b + 1)
                          (releases b)
                   else mkHourBucket (hour b) (occupations b)
                          (releases b + 1)))
      end
  end.

Definition hourlyPattern (now : Time) (history : list LogEntry)
  : option (list HourBucket) :=
  match fold_left countHour (since (now - dayMs) history)
          (Some (seedHours now)) with
  | None => None
  | Some pattern =>
      Some (sortBy (fun a b => hour a - hour b)
              (IntObj.values pattern))
  end.

Definition dashboardData (now : Time) (store : JsMap.t Snapshot)
    (history : list LogEntry) : option DashboardData :=
  let status := currentStatus store in
  let usage := slotUsageStats now store history in
  let recent := recentChanges history in
  match hourlyPattern now history with
  | None => None
  | Some pattern =>
      Some (mkDashboardData (systemStats now store history) status usage
              recent pattern now)
  end.

End Aggregation.

(** "Enhanced Hourly occupancy pattern (last 24 hours) in WIB" of the WIB
    variant: the hours are those of the instant shifted by seven hours, and
    the scan skips a bucket that does not exist. *)
Definition seedHoursWIB (nowWIB : Time) : IntObj.t HourBucketWIB :=
  fold_left
    (fun pattern i =>
       let hourTime := nowWIB - i * hourMs in
       let wibHour := getUTCHours hourTime in
       IntObj.set pattern wibHour (mkHourBucketWIB wibHour 0 0 0))
    (upto 24) [].

Definition countHourWIB (pattern : IntObj.t HourBucketWIB) (log : LogEntry)
  : IntObj.t HourBucketWIB :=
  let logWIB := convertToWIB (timestamp log) in
  let wibHour := getUTCHours logWIB in
  match IntObj.get pattern wibHour with
  | None => pattern
  | Some b =>
      IntObj.set pattern wibHour
        (if flag_eq (newState log) (Some true)
         then mkHourBucketWIB (w_hour b) (w_occupations b + 1) (w_releases b)
                (w_netChange b + 1)
         else mkHourBucketWIB (w_hour b) (w_occupations b) (w_releases b + 1)
                (w_netChange b - 1))
  end.

Definition hourlyPatternWIB (now nowWIB : Time) (history : list LogEntry)
  : list HourBucketWIB :=
  sortBy (fun a b => w_hour a - w_hour b)
    (IntObj.values
       (fold_left countHourWIB (since (now - dayMs) history)
          (seedHoursWIB nowWIB))).

(** [data] of the answer of [GET /api/parking-status]. *)
Inductive StatusData :=
| OneDevice (deviceData : Snapshot)
| AllDevices (allStatus : list Snapshot).

Section Service.

(** The wall clock: [clk n] is the value of the [n]-th reading. *)
Variable clk : nat -> Time.

(** The offset of the zone of the process, for [getHours]. *)
Variable tzOffset : Time -> Z.

(** The retention bound of [slotHistory], and whether the variant records
    WIB time stamps. *)
Variable cap : Z.
Variable wib : bool.

Definition new_Date : M Time :=
  fun w => (clk (ticks w),
            mkWorld (parkingData w) (slotHistory w) (S (ticks w))).

Definition getCurrentWIBTime : M Time :=
  t <- new_Date ;; ret (convertToWIB t).

(** [getCurrentWIBTime()] where the variant has it. *)
Definition wibTimeNow : M (option Time) :=
  if wib then (t <- getCurrentWIBTime ;; ret (Some t)) else ret None.

Definition isLastOccupied (dev : string) (sid : Z) (h : LogEntry) : bool :=
  String.eqb (deviceId h) dev && (slotId h =? sid)
  && flag_eq (newState h) (Some true).

(** [slotHistory.slice().reverse().find(...)]: the latest entry that
    records the slot becoming occupied. *)
Definition findLastOccupied (dev : string) (sid : Z) (h : list LogEntry)
  : option LogEntry :=
  find (isLastOccupied dev sid) (rev h).

Definition logSlotChange (dev : string) (sid : Z)
    (previous new : option bool) (ip : option string) : M unit :=
  currentTime <- wibTimeNow ;;
  ts <- new_Date ;;
  dur <- (if flag_eq previous (Some true) && flag_eq new (Some false)
          then
            h <- get_history ;;
            match findLastOccupied dev sid h with
            | Some lastOccupied =>
                t <- new_Date ;; ret (Some (t - timestamp lastOccupied))
            | None => ret None
            end
          else ret None) ;;
  h <- get_history ;;
  put_history (h ++ [mkLog dev sid previous new ts currentTime ip dur]) ;;
  h' <- get_history ;;
  if cap <? Z.of_nat (length h') then put_history (tl h') else ret tt.

(** The block "Check if slot state changed", written out in both
    branches of the handler. *)
Definition checkSlotChange (dev : string) (ip : option string)
    (previousSlots : list Slot) (slotData : Slot) : M unit :=
  match find (fun p => id p =? id slotData) previousSlots with
  | Some previousSlot =>
      if negb (flag_eq (occupied previousSlot) (occupied slotData))
      then logSlotChange dev (id slotData) (occupied previousSlot)
             (occupied slotData) ip
      else ret tt
  | None => ret tt
  end.

(** The callback of [slots.map] for objects [{id, occupied, lastUpdate}]. *)
Definition processObjectSlot (dev : string) (ip : option string)
    (previousSlots : list Slot) (slot : SlotIn) (index : nat) : M Slot :=
  lu <- match prop_lastUpdate slot with
        | Some n => if n =? 0 then new_Date else ret n
        | None => new_Date
        end ;;
  let slotData :=
    mkSlot (or_num (prop_id slot) (Z.of_nat index + 1))
           (prop_occupied slot) lu in
  checkSlotChange dev ip previousSlots slotData ;;
  ret slotData.

(** The callback of [slots.map] for the simple array format. *)
Definition processSimpleSlot (dev : string) (ip : option string)
    (previousSlots : list Slot) (slot : SlotIn) (index : nat) : M Slot :=
  lu <- new_Date ;;
  let slotData :=
    mkSlot (Z.of_nat index + 1) (Some (num_eq slot 1)) lu in
  checkSlotChange dev ip previousSlots slotData ;;
  ret slotData.

(** The part of the handler that fills [availableSlots], [totalSlots]
    and [processedSlots]. *)
Definition processSlots (dev : string) (ip : option string)
    (reported : option (list SlotIn)) : M (Z * Z * list Slot) :=
  match reported with
  | None => ret (0, 0, [])
  | Some arr =>
      let totalSlots := Z.of_nat (length arr) in
      store <- get_parkingData ;;
      let previousSlots :=
        match JsMap.get store dev with
        | Some previousData => slots previousData
        | None => []
        end in
      match arr with
      | [] => ret (0, totalSlots, [])
      | first :: _ =>
          if isSlotObject first then
            let availableSlots :=
              Z.of_nat (length (filter
                (fun slot => negb (truthy_flag (prop_occupied slot)))
                arr)) in
            processedSlots <-
              mapM_index (processObjectSlot dev ip previousSlots) arr 0 ;;
            ret (availableSlots, totalSlots, processedSlots)
          else
            let availableSlots :=
              Z.of_nat (length (filter (fun slot => num_eq slot 0) arr)) in
            processedSlots <-
              mapM_index (processSimpleSlot dev ip previousSlots) arr 0 ;;
            ret (availableSlots, totalSlots, processedSlots)
      end
  end.

(** The answer of the error handling middleware to an error thrown by a
    handler. *)
Definition thrown {D} (message : string) : Response D :=
  mkResponse 500
    [("success", FBool false);
     ("error", FStr "Internal server error");
     ("message", FByEnv message "Something went wrong")].

(** [app.post("/api/parking-status")].  The handler has no [try]: where
    it throws, the state is the one before the request and the error
    handling middleware answers. *)
Definition post_parking_status (req : Request) : M (Response UpdateData) :=
  match b_deviceId (body req) with
  | None =>
      ret (mkResponse 400 [("error", FStr "Device ID is required")])
  | Some dev =>
      if String.eqb dev "" then
        ret (mkResponse 400 [("error", FStr "Device ID is required")])
      else
      match typeError (b_slots (body req)) with
      | Some message => ret (thrown message)
      | None =>
        r <- processSlots dev (clientIP req) (b_slots (body req)) ;;
        let '(availableSlots, totalSlots, processedSlots) := r in
        currentTime <- wibTimeNow ;;
        now <- new_Date ;;
        store <- get_parkingData ;;
        put_parkingData
          (JsMap.set store dev
             (mkSnapshot dev (b_timestamp (body req))
                (b_wifiStatus (body req)) processedSlots availableSlots
                totalSlots now currentTime)) ;;
        wibTime <- (if wib
                    then (t <- new_Date ;; ret (Some (formatWIBDate t)))
                    else ret None) ;;
        ts <- new_Date ;;
        ret (mkResponse 200
               [("success", FBool true);
                ("message", FStr "Parking status updated successfully");
                ("data", FData (mkUpdateData dev availableSlots totalSlots
                                  ts wibTime))])
      end
  end.

(** [app.get("/api/parking-status")] *)
Definition get_parking_status (query_deviceId : option string)
  : M (Response StatusData) :=
  store <- get_parkingData ;;
  let all :=
    ts <- new_Date ;;
    ret (mkResponse 200
           [("success", FBool true);
            ("data", FData (AllDevices (JsMap.values store)));
            ("totalDevices", FNum (Z.of_nat (length (JsMap.values store))));
            ("timestamp", FDate ts)]) in
  match query_deviceId with
  | None => all
  | Some dev =>
      if String.eqb dev "" then all
      else
        match JsMap.get store dev with
        | Some deviceData =>
            ts <- new_Date ;;
            ret (mkResponse 200
                   [("success", FBool true);
                    ("data", FData (OneDevice deviceData));
                    ("timestamp", FDate ts)])
        | None =>
            ret (mkResponse 404
                   [("success", FBool false);
                    ("error", FStr "Device not found");
                    ("deviceId", FStr dev)])
        end
  end.

(** [app.get("/api/health")] *)
Definition get_health : M (Response Empty_set) :=
  ts <- new_Date ;;
  store <- get_parkingData ;;
  h <- get_history ;;
  ret (mkResponse 200
         [("status", FStr "OK");
          ("timestamp", FDate ts);
          ("connectedDevices", FNum (JsMap.size store));
          ("totalHistoryLogs", FNum (Z.of_nat (length h)))]).

(** [app.get("/api/admin/dashboard")]; the [catch] answers 500. *)
Definition get_admin_dashboard : M (Response DashboardData) :=
  now <- new_Date ;;
  store <- get_parkingData ;;
  h <- get_history ;;
  match dashboardData tzOffset now store h with
  | Some data =>
      ret (mkResponse 200
             [("success", FBool true);
              ("data", FData data);
              ("timestamp", FDate now)])
  | None =>
      ret (mkResponse 500
             [("success", FBool false);
              ("error", FStr "Failed to fetch dashboard data");
              ("details", FStr "Cannot read properties of undefined")])
  end.

(** The error handling middleware, with the environment read, and the
    404 handler. *)
Definition error_handler (message : string) (development : bool)
  : Response Empty_set :=
  mkResponse 500
    [("success", FBool false);
     ("error", FStr "Internal server error");
     ("message", FStr (if development then message
                       else "Something went wrong"))].

(** A field as the client receives it in the given environment. *)
Definition inEnv {D} (development : bool) (f : Field D) : Field D :=
  match f with
  | FByEnv a b => FStr (if development then a else b)
  | _ => f
  end.

Definition not_found_handler : Response Empty_set :=
  mkResponse 404
    [("success", FBool false);
     ("error", FStr "Not found");
     ("message", FStr "The requested endpoint does not exist")].

End Service.

(** * Notions used in the statements

    ** Runs of the service *)

(** The requests that the service answers: the reports, the three
    queries of [server.js], and any other request.  Every other route of
    [server.js] and of its variants (the health check and the status
    query with WIB time stamps, the dashboards and analytics, the
    accounts, the 404 handler) leaves [parkingData] and [slotHistory] as
    they are and reads the clock some number of times: [OtherRequest n]
    is such a request with [n] readings. *)
Inductive Call :=
| PostStatus (req : Request)
| GetStatus (query_deviceId : option string)
| GetHealth
| GetDashboard
| OtherRequest (readings : nat).

Definition empty_world : World := mkWorld JsMap.empty [] 0.

(** The retention bounds written in the deployments: "Keep only last
    10000 logs" in [server.js], 5000 in the variant with authentication. *)
Definition cap_server_js : Z := 10000.
Definition cap_auth : Z := 5000.

(** A clock that advances by one second between two readings, and
    reports in the simple array format and in the format of slot objects
    with identifiers, for the examples. *)
Definition clock_1s (n : nat) : Time := 1000 * Z.of_nat n.

(** The zone of UTC, and a zone whose offset is the same at the 24
    instants, one hour apart, for which the dashboard of [server.js]
    creates its buckets. *)
Definition utc : Time -> Z := fun _ => 0.

Definition steadyZone (tzOffset : Time -> Z) (now : Time) : Prop :=
  forall i, In i (upto 24) -> tzOffset (now - i * hourMs) = tzOffset now.

(** A zone that is one hour ahead of UTC until the instant of 36 hours
    and sets its clocks back to UTC then, as at the end of a summer time;
    and a clock that reads half past the first hour of the second day
    seven times and the same time of the third day from then on. *)
Definition setBackZone (t : Time) : Z :=
  if t <? 36 * hourMs then hourMs else 0.

Definition setBackClock (n : nat) : Time :=
  if (n <? 7)%nat then 24 * hourMs + 1800000 else 48 * hourMs + 1800000.

Definition simpleReport (dev : string) (values : list Z) : Request :=
  mkRequest (mkBody (Some dev) None None (Some (map InNum values))) None.

Definition objectReport (dev : string) (flags : list (Z * bool)) : Request :=
  mkRequest
    (mkBody (Some dev) None None
       (Some (map (fun s => InObj (mkSlotObj (Some (fst s)) (Some (snd s))
                                     None)) flags)))
    None.

(** ** Weakest preconditions *)

(** The postcondition [Q] holds of the result and final state of [m] run
    in [w]; [same_stores] relates two states that differ by readings of
    the clock only. *)
Definition wp {A} (m : M A) (Q : A -> World -> Prop) (w : World) : Prop :=
  Q (fst (m w)) (snd (m w)).

Definition same_stores (w w' : World) : Prop :=
  parkingData w' = parkingData w /\ slotHistory w' = slotHistory w.

(** ** Structured responses *)

(** [obj[key]] is defined. *)
Definition has_field {D} (o : list (string * Field D)) (key : string) : bool :=
  match field o key with Some _ => true | None => false end.

(** A response is structured when its body has a boolean [success]
    together with a [data] or an [error] property. *)
Definition structured {D} (r : Response D) : bool :=
  match field (json r) "success" with
  | Some (FBool _) => has_field (json r) "data" || has_field (json r) "error"
  | _ => false
  end.

(** ** What a report says of the slots *)

(** [previousData ? previousData.slots : []] *)
Definition previousSlotsOf (store : JsMap.t Snapshot) (dev : string)
  : list Slot :=
  match JsMap.get store dev with
  | Some previousData => slots previousData
  | None => []
  end.

(** The identifiers and flags that the two callbacks give to the elements
    of a report, as functions of the report alone: [objectForm] tells
    which branch the first element selects. *)
Definition objectForm (arr : list SlotIn) : bool :=
  match arr with
  | first :: _ => isSlotObject first
  | [] => false
  end.

Definition slotKey (form : bool) (slot : SlotIn) (index : nat) : Z :=
  if form then or_num (prop_id slot) (Z.of_nat index + 1)
  else Z.of_nat index + 1.

Definition slotFlag (form : bool) (slot : SlotIn) : option bool :=
  if form then prop_occupied slot else Some (num_eq slot 1).

Definition normalizedFrom (form : bool) (arr : list SlotIn) (i : nat)
  : list (Z * option bool) :=
  map (fun xi => (slotKey form (fst xi) (snd xi), slotFlag form (fst xi)))
      (combine arr (seq i (length arr))).

Definition normalized (reported : option (list SlotIn))
  : list (Z * option bool) :=
  match reported with
  | Some arr => normalizedFrom (objectForm arr) arr 0
  | None => []
  end.

Definition slotState (s : Slot) : Z * option bool := (id s, occupied s).

(** The two ways in which the handler counts the available slots. *)
Definition availableOf (arr : list SlotIn) : Z :=
  if objectForm arr
  then Z.of_nat (length (filter
         (fun slot => negb (truthy_flag (prop_occupied slot))) arr))
  else Z.of_nat (length (filter (fun slot => num_eq slot 0) arr)).

(** A report brings no change when it is rejected, or each of its slots
    finds, in the previous snapshot of the device, no slot of its
    identifier or a slot with the same flag. *)
Definition unchanged (previousSlots : list Slot)
    (states : list (Z * option bool)) : bool :=
  forallb
    (fun st =>
       match find (fun p => id p =? fst st) previousSlots with
       | Some p => flag_eq (occupied p) (snd st)
       | None => true
       end)
    states.

Definition quietReport (w : World) (req : Request) : bool :=
  match b_deviceId (body req) with
  | Some dev =>
      String.eqb dev ""
      || unchanged (previousSlotsOf (parkingData w) dev)
           (normalized (b_slots (body req)))
  | None => true
  end.

(** ** The history of one slot

    [eventsOf dev sid h] is the history filtered to one device and slot;
    [alternating] says that no two consecutive entries of a list record
    the same new state. *)
Definition isEventOf (dev : string) (sid : Z) (e : LogEntry) : bool :=
  String.eqb (deviceId e) dev && (slotId e =? sid).

Definition eventsOf (dev : string) (sid : Z) (h : list LogEntry)
  : list LogEntry :=
  filter (isEventOf dev sid) h.

Fixpoint alternating (l : list LogEntry) : bool :=
  match l with
  | a :: (b :: _) as rest =>
      negb (flag_eq (newState a) (newState b)) && alternating rest
  | _ => true
  end.

Fixpoint lastOf {A} (l : list A) : option A :=
  match l with
  | [] => None
  | [x] => Some x
  | _ :: l' => lastOf l'
  end.








(** ** Views of the dashboard *)

(** The entry with a recorded duration of 0 replaced by no duration
    ([null]), to compare the views with. *)
Definition forgetZeroDuration (log : LogEntry) : LogEntry :=
  match duration log with
  | Some 0 =>
      mkLog (deviceId log) (slotId log) (previousState log) (newState log)
        (timestamp log) (timestampWIB log) (ipAddress log) None
  | _ => log
  end.

Definition sumZ (l : list Z) : Z := fold_right Z.add 0 l.

(** ** Notions that depend on the deployment *)

Section Notions.

Variable clk : nat -> Time.
Variable tzOffset : Time -> Z.
Variable cap : Z.
Variable wib : bool.

(** What [logSlotChange] does, read off its text: [stampTick w] is the
    clock reading that becomes [timestamp], the next reading is the one
    subtracted from for [duration], [loggedEntry] is the entry pushed and
    [trim] the bound applied after the push. *)
Definition stampTick (w : World) : nat :=
  if wib then S (ticks w) else ticks w.

Definition loggedEntry (w : World) (dev : string) (sid : Z)
    (previous new : option bool) (ip : option string) : LogEntry :=
  mkLog dev sid previous new (clk (stampTick w))
    (if wib then Some (convertToWIB (clk (ticks w))) else None) ip
    (if flag_eq previous (Some true) && flag_eq new (Some false)
     then match findLastOccupied dev sid (slotHistory w) with
          | Some lastOccupied =>
              Some (clk (S (stampTick w)) - timestamp lastOccupied)
          | None => None
          end
     else None).

Definition trim (h : list LogEntry) : list LogEntry :=
  if cap <? Z.of_nat (length h) then tl h else h.

(** The callback that the first element of the report selects. *)
Definition callback (form : bool)
  : string -> option string -> list Slot -> SlotIn -> nat -> M Slot :=
  if form then processObjectSlot clk cap wib
  else processSimpleSlot clk cap wib.

(** The state after a report, after any request, and after a sequence of
    requests served from the start of the process.  [GetStatus],
    [GetHealth] and [GetDashboard] are served by the handlers of
    [server.js]; the same routes of a variant, which read the clock once
    more for the WIB time stamp, are requests [OtherRequest n]. *)
Definition report (w : World) (req : Request) : World :=
  snd (post_parking_status clk cap wib req w).

Definition step (w : World) (c : Call) : World :=
  match c with
  | PostStatus req => report w req
  | GetStatus q => snd (get_parking_status clk q w)
  | GetHealth => snd (get_health clk w)
  | GetDashboard => snd (get_admin_dashboard clk tzOffset w)
  | OtherRequest readings =>
      mkWorld (parkingData w) (slotHistory w) (readings + ticks w)
  end.

Definition run (calls : list Call) : World :=
  fold_left step calls empty_world.


End Notions.

(** * Further notions

    ** The devices of a run *)

(** The device id under which a report is accepted: the report has a
    device id and the handler does not throw on its slots. *)
Definition acceptedId (req : Request) : option string :=
  match b_deviceId (body req) with
  | Some dev =>
      if String.eqb dev "" then None
      else match typeError (b_slots (body req)) with
           | Some _ => None
           | None => Some dev
           end
  | None => None
  end.

Definition reportsDevice (dev : string) (c : Call) : bool :=
  match c with
  | PostStatus req =>
      match acceptedId req with
      | Some d => String.eqb d dev
      | None => false
      end
  | _ => false
  end.

Definition reportedIn (dev : string) (calls : list Call) : bool :=
  existsb (reportsDevice dev) calls.

(** The devices of the accepted reports, in the order of their first
    report. *)
Definition noteDevice (seen : list string) (c : Call) : list string :=
  match c with
  | PostStatus req =>
      match acceptedId req with
      | Some d => if existsb (String.eqb d) seen then seen else seen ++ [d]
      | None => seen
      end
  | _ => seen
  end.

Definition deviceOrder (calls : list Call) : list string :=
  fold_left noteDevice calls [].

(** [Array.from(map.keys())] *)
Definition mapKeys {V} (m : JsMap.t V) : list string := map fst m.

(** ** The flips that a report brings

    One triple of slot identifier, previous flag and new flag for each
    reported slot whose flag differs from the one that the previous
    snapshot holds for its identifier, in the order of the report. *)
Definition entryKey (e : LogEntry) : Z * option bool * option bool :=
  (slotId e, previousState e, newState e).

Definition changes (previousSlots : list Slot)
    (states : list (Z * option bool)) : list (Z * option bool * option bool) :=
  flat_map
    (fun st =>
       match find (fun p => id p =? fst st) previousSlots with
       | Some p =>
           if flag_eq (occupied p) (snd st) then []
           else [(fst st, occupied p, snd st)]
       | None => []
       end)
    states.

(** The last [cap] elements of a list. *)
Definition lastN {A} (cap : Z) (l : list A) : list A :=
  skipn (length l - Z.to_nat cap) l.

(** [w'] comes after [w] by readings of the clock only. *)
Definition later (w w' : World) : Prop :=
  same_stores w w' /\ (ticks w <= ticks w')%nat.

(** ** Counts by hour *)

(** The number of the entries of [logs] that fall in the hour [h], as
    [hourOf] reads it, and that record ([up]) or do not record a slot
    becoming occupied. *)
Definition tally (hourOf : Time -> Z) (logs : list LogEntry) (h : Z)
    (up : bool) : Z :=
  Z.of_nat (length (filter
    (fun log => (hourOf (timestamp log) =? h)
                && Bool.eqb (flag_eq (newState log) (Some true)) up)
    logs)).

(** The hour of an instant on the clock of the WIB zone. *)
Definition wibHourOf (t : Time) : Z := getUTCHours (convertToWIB t).

(** A table with one row for each hour of the day. *)
Definition table {V} (F : Z -> V) : IntObj.t V :=
  map (fun h => (h, F h)) (upto 24).

(** * Further views of the dashboards

    ** "Peak hours analysis" of the WIB variant

    [hour] stands for [hourFormatted], the hour printed on two digits. *)
Record PeakHour := mkPeakHour {
  p_hour : Z;
  totalActivity : Z;
  p_occupations : Z;
  p_releases : Z
}.

Definition peakHoursWIB (now nowWIB : Time) (history : list LogEntry)
  : list PeakHour :=
  map (fun hour => mkPeakHour (w_hour hour)
                     (w_occupations hour + w_releases hour)
                     (w_occupations hour) (w_releases hour))
    (firstn 5
       (sortBy (fun a b => w_occupations b + w_releases b
                           - (w_occupations a + w_releases a))
          (IntObj.values
             (fold_left countHourWIB (since (now - dayMs) history)
                (seedHoursWIB nowWIB))))).

(** ** The variant with authentication

    "Peak hours analysis (simplified)": a value of [hourlyActivity[i]]
    (the formatted hour is left out), the loop that creates the 24
    values, the scan of the last 24 hours and the three busiest hours. *)
Record HourActivity := mkHourActivity {
  a_hour : Z;
  activities : Z
}.

Definition seedActivity : IntObj.t HourActivity :=
  fold_left (fun o i => IntObj.set o i (mkHourActivity i 0)) (upto 24) [].

Definition countActivity (o : IntObj.t HourActivity) (log : LogEntry)
  : IntObj.t HourActivity :=
  let logWIB := convertToWIB (timestamp log) in
  let hour := getUTCHours logWIB in
  match IntObj.get o hour with
  | Some b => IntObj.set o hour (mkHourActivity (a_hour b) (activities b + 1))
  | None => o
  end.

Definition hourlyActivity (now : Time) (history : list LogEntry)
  : IntObj.t HourActivity :=
  fold_left countActivity (since (now - dayMs) history) seedActivity.

Definition peakHours (now : Time) (history : list LogEntry)
  : list HourActivity :=
  firstn 3
    (sortBy (fun a b => activities b - activities a)
       (IntObj.values (hourlyActivity now history))).

(** "Recent activities (last 20)" *)
Record Activity := mkActivity {
  act_deviceId : string;
  act_slotId : Z;
  act_action : string;
  act_timestamp : WIBDate;
  act_duration : option Z
}.

Definition activityOfLog (log : LogEntry) : Activity :=
  mkActivity (deviceId log) (slotId log) (stateName (newState log))
    (formatWIBDate (timestamp log))
    (if truthy_num (duration log)
     then Some (Math_round (inject_Z (or_num (duration log) 0) / 1000 / 60))
     else None).

Definition recentActivities (history : list LogEntry) : list Activity :=
  map activityOfLog (rev (slice_last 20 history)).

(** "System summary" *)
Record Summary := mkSummary {
  sm_totalDevices : Z;
  sm_totalSlots : Z;
  sm_totalOccupied : Z;
  sm_totalAvailable : Z;
  sm_overallOccupancyRate : Rate;
  totalActivities : Z;
  last24hActivities : Z
}.

Definition summary (now : Time) (store : JsMap.t Snapshot)
    (history : list LogEntry) : Summary :=
  let status := currentStatus store in
  let total := fold_left (fun sum device => sum + cs_totalSlots device)
                 status 0 in
  let occ := fold_left (fun sum device => sum + cs_occupiedSlots device)
               status 0 in
  let avail := fold_left (fun sum device => sum + cs_availableSlots device)
                 status 0 in
  mkSummary (JsMap.size store) total occ avail
    (if 0 <? total
     then RateFixed
            (toFixed1 (js_mul (js_div (inject_Z occ) (inject_Z total)) 100))
     else RateNum 0)
    (Z.of_nat (length history))
    (Z.of_nat (length (since (now - dayMs) history))).

(** ** Orders *)

(** [a] comes before [b] in a ranking by [key]: it has the greater key,
    or the same key and the earlier hour. *)
Definition busier {A} (key hr : A -> Z) (a b : A) : Prop :=
  key b < key a \/ (key b = key a /\ hr a < hr b).

Definition ranked {A} (key hr : A -> Z) (l : list A) : Prop :=
  StronglySorted (busier key hr) l.

(** ** Statistics of one slot *)

(** [stats[dev][sid]] *)
Definition statsOf (stats : UsageStats) (dev : string) (sid : Z)
  : option SlotStats :=
  match JsMap.get stats dev with
  | Some devStats => IntObj.get devStats sid
  | None => None
  end.

(** The entries of [logs] that record a slot becoming occupied, all of
    them or those not older than [threshold]; and the durations recorded
    by the entries of [logs] that record a slot becoming available. *)
Definition occupationsSince (threshold : option Time) (logs : list LogEntry)
  : Z :=
  Z.of_nat (length (filter
    (fun log => flag_eq (newState log) (Some true)
                && match threshold with
                   | Some t => t <=? timestamp log
                   | None => true
                   end)
    logs)).

Definition occupiedTime (logs : list LogEntry) : Z :=
  sumZ (map (fun log => if flag_eq (newState log) (Some false)
                        then or_num (duration log) 0 else 0)
          logs).

(** * Accounts of the variant with authentication

    [adminUsers] maps an email to a user; a string stands for the sequence
    of its code units, so that [String.length] is [length].  The
    functions of [bcryptjs] and [jsonwebtoken] are parameters of the
    handlers: [None] stands for a rejected promise or a thrown error. *)
Record User := mkUser {
  usr_email : string;
  usr_password : string;
  usr_name : string;
  usr_role : string;
  usr_createdAt : Time
}.

(** The [user] object of the answers and the payload of the tokens. *)
Record PublicUser := mkPublicUser {
  pu_email : string;
  pu_name : string;
  pu_role : string
}.

Inductive AuthData :=
| Registered (user : PublicUser)
| LoggedIn (token : string) (user : PublicUser).

(** [req.body] of the two routes. *)
Record Credentials := mkCredentials {
  cr_email : option string;
  cr_password : option string;
  cr_name : option string
}.

Definition truthy_str (s : option string) : bool :=
  match s with Some s => negb (String.eqb s "") | None => false end.

Definition failure (code : Z) (message : string) : Response AuthData :=
  mkResponse code [("success", FBool false); ("error", FStr message)].

(** [app.post("/api/auth/register")] up to [await bcrypt.hash]: the
    checks, which end the request or leave the email, password and name
    to go on with. *)
Definition register_begin (adminUsers : JsMap.t User) (b : Credentials)
  : Response AuthData + (string * string * string) :=
  match cr_email b, cr_password b, cr_name b with
  | Some email, Some password, Some name =>
      if negb (truthy_str (cr_email b)) || negb (truthy_str (cr_password b))
         || negb (truthy_str (cr_name b))
      then inl (failure 400 "Email, password, and name are required")
      else
        match JsMap.get adminUsers email with
        | Some _ => inl (failure 400 "User already exists")
        | None =>
            if Z.of_nat (String.length password) <? 6
            then inl (failure 400 "Password must be at least 6 characters")
            else inr (email, password, name)
        end
  | _, _, _ => inl (failure 400 "Email, password, and name are required")
  end.

(** The rest of the handler, run when the promise of [bcrypt.hash] is
    settled, on the users as they are by then. *)
Definition register_finish (adminUsers : JsMap.t User)
    (pending : string * string * string) (hashedPassword : option string)
    (now : Time) : Response AuthData * JsMap.t User :=
  let '(email, _, name) := pending in
  match hashedPassword with
  | Some hashed =>
      let newUser := mkUser email hashed name "admin" now in
      (mkResponse 200
         [("success", FBool true);
          ("message", FStr "Registration successful");
          ("data", FData (Registered
                            (mkPublicUser (usr_email newUser)
                               (usr_name newUser) (usr_role newUser))))],
       JsMap.set adminUsers email newUser)
  | None => (failure 500 "Registration failed", adminUsers)
  end.

(** A registration that no other request overlaps. *)
Definition register (hash : string -> option string)
    (adminUsers : JsMap.t User) (b : Credentials) (now : Time)
  : Response AuthData * JsMap.t User :=
  match register_begin adminUsers b with
  | inl response => (response, adminUsers)
  | inr (email, password, name) =>
      register_finish adminUsers (email, password, name) (hash password) now
  end.

(** [app.post("/api/auth/login")]: the user is read before
    [await bcrypt.compare]. *)
Definition login (compare : string -> string -> option bool)
    (sign : PublicUser -> option string)
    (adminUsers : JsMap.t User) (b : Credentials) : Response AuthData :=
  match cr_email b, cr_password b with
  | Some email, Some password =>
      if negb (truthy_str (cr_email b)) || negb (truthy_str (cr_password b))
      then failure 400 "Email and password are required"
      else
        match JsMap.get adminUsers email with
        | None => failure 401 "Invalid credentials"
        | Some user =>
            match compare password (usr_password user) with
            | None => failure 500 "Login failed"
            | Some false => failure 401 "Invalid credentials"
            | Some true =>
                let payload := mkPublicUser (usr_email user) (usr_name user)
                                 (usr_role user) in
                match sign payload with
                | None => failure 500 "Login failed"
                | Some token =>
                    mkResponse 200
                      [("success", FBool true);
                       ("message", FStr "Login successful");
                       ("data", FData (LoggedIn token payload))]
                end
            end
        end
  | _, _ => failure 400 "Email and password are required"
  end.

(** The space character, and [s.split(" ")]. *)
Definition space : Ascii.ascii := Ascii.ascii_of_nat 32.

Fixpoint splitFrom (cur : string) (s : string) : list string :=
  match s with
  | EmptyString => [cur]
  | String c s' =>
      if Ascii.eqb c space
      then cur :: splitFrom "" s'
      else splitFrom (String.append cur (String c "")) s'
  end.

Definition split_space (s : string) : list string := splitFrom "" s.

(** [authHeader && authHeader.split(" ")[1]] *)
Definition tokenOf (authHeader : option string) : option string :=
  match authHeader with
  | None => None
  | Some header =>
      if String.eqb header "" then Some ""
      else nth_error (split_space header) 1
  end.

(** [authenticateToken]: the answer that ends the request, or the user
    that [jwt.verify] decoded, with which the next handler runs. *)
Definition authenticateToken (verify : string -> option PublicUser)
    (authHeader : option string) : Response AuthData + PublicUser :=
  match tokenOf authHeader with
  | None => inl (failure 401 "Access token required")
  | Some token =>
      match verify token with
      | None => inl (failure 403 "Invalid or expired token")
      | Some user => inr user
      end
  end.

(** A string without a space. *)
Fixpoint spaceless (s : string) : bool :=
  match s with
  | EmptyString => true
  | String c s' => negb (Ascii.eqb c space) && spaceless s'
  end.

(** The account with which the service starts, and registrations served
    one after the other. *)
Definition defaultAdmin (loaded : Time) : User :=
  mkUser "admin@parking.com"
    "$2a$10$881xLk38aaxjYNMBkhm9BOAwk3q5mmk89VSUWAkpBzj1IxyVMXlPW"
    "Admin" "admin" loaded.

Definition adminUsers0 (loaded : Time) : JsMap.t User :=
  JsMap.set JsMap.empty "admin@parking.com" (defaultAdmin loaded).

Definition registerAll (hash : string -> option string)
    (reqs : list (Credentials * Time)) (adminUsers : JsMap.t User)
  : JsMap.t User :=
  fold_left (fun users r => snd (register hash users (fst r) (snd r)))
    reqs adminUsers.

(** ** The summary of [GET /api/admin/hourly-analytics]

    An element of [hourlyData] (the date and the formatted strings are
    left out), and the two reductions that pick the busiest and the
    quietest hour; [None] is [null] and [Infinity] is above every
    number. *)
Record HourDetail := mkHourDetail {
  hd_hour : Z;
  hd_occupations : Z;
  hd_releases : Z;
  hd_netChange : Z;
  hd_totalActivity : Z
}.

Definition busiestHour (hourlyData : list HourDetail) : option HourDetail :=
  fold_left
    (fun max hour =>
       if or_num (option_map hd_totalActivity max) 0 <? hd_totalActivity hour
       then Some hour else max)
    hourlyData None.

Definition quietestHour (hourlyData : list HourDetail) : option HourDetail :=
  fold_left
    (fun min hour =>
       match option_map hd_totalActivity min with
       | Some n =>
           if n =? 0 then Some hour
           else if hd_totalActivity hour <? n then Some hour else min
       | None => Some hour
       end)
    hourlyData None.

(** * Properties

    ** The two kinds of maps *)

Module JsMapFacts.
Import JsMap.

Lemma get_set_same {V} (m : t V) k v : get (set m k v) k = Some v.
Proof.
  induction m as [|[k' v'] m IH]; simpl.
  - now rewrite String.eqb_refl.
  - destruct (String.eqb k k') eqn:E; simpl; rewrite E; auto.
Qed.

Lemma get_set_other {V} (m : t V) k k' v :
  k' <> k -> get (set m k v) k' = get m k'.
Proof.
  intros Hne. induction m as [|[k0 v0] m IH]; simpl.
  - destruct (String.eqb k' k) eqn:E; auto.
    apply String.eqb_eq in E. contradiction.
  - destruct (String.eqb k k0) eqn:E; simpl.
    + apply String.eqb_eq in E. subst k0.
      destruct (String.eqb k' k) eqn:E'; auto.
      apply String.eqb_eq in E'. contradiction.
    + now rewrite IH.
Qed.

Lemma get_set {V} (m : t V) k k' v :
  get (set m k v) k' = if String.eqb k' k then Some v else get m k'.
Proof.
  destruct (String.eqb k' k) eqn:E.
  - apply String.eqb_eq in E. subst. apply get_set_same.
  - apply get_set_other. intros ->. now rewrite String.eqb_refl in E.
Qed.

Lemma In_values_set {V} (m : t V) k v x :
  In x (values (set m k v)) -> x = v \/ In x (values m).
Proof.
  induction m as [|[k' v'] m IH]; simpl.
  - intros [<-|[]]. now left.
  - destruct (String.eqb k k'); simpl.
    + intros [<-|H]; auto.
    + intros [<-|H]; auto. destruct (IH H); auto.
Qed.

End JsMapFacts.

Module IntObjFacts.
Import IntObj.

Lemma keys_replace {V} (o : t V) k v : keys (replace o k v) = keys o.
Proof.
  induction o as [|[k' v'] o IH]; simpl; auto.
  destruct (k =? k'); simpl; auto. now f_equal.
Qed.

Lemma get_In_keys {V} (o : t V) k : In k (keys o) -> get o k <> None.
Proof.
  induction o as [|[k' v'] o IH]; simpl; [tauto|].
  intros [->|H].
  - rewrite Z.eqb_refl. discriminate.
  - destruct (k =? k'); [discriminate | auto].
Qed.

Lemma get_In_values {V} (o : t V) k v : get o k = Some v -> In v (values o).
Proof.
  induction o as [|[k' v'] o IH]; simpl; [discriminate|].
  destruct (k =? k').
  - intros [= ->]. now left.
  - intros H. right. now apply IH.
Qed.

Lemma set_present {V} (o : t V) k v v0 :
  get o k = Some v0 -> set o k v = replace o k v.
Proof. unfold set. now intros ->. Qed.

Lemma map_values_replace {V C} (g : V -> C) (o : t V) k v v0 :
  get o k = Some v0 -> g v = g v0 ->
  map g (values (replace o k v)) = map g (values o).
Proof.
  induction o as [|[k' v'] o IH]; simpl; [discriminate|].
  destruct (k =? k'); simpl.
  - intros [= ->] ->. reflexivity.
  - intros H E. f_equal. now apply IH.
Qed.

Lemma sum_values_replace {V} (f : V -> Z) (o : t V) k v v0 :
  get o k = Some v0 ->
  sumZ (map f (values (replace o k v))) =
  sumZ (map f (values o)) + (f v - f v0).
Proof.
  induction o as [|[k' v'] o IH]; simpl; [discriminate|].
  destruct (k =? k'); simpl.
  - intros [= ->]. lia.
  - intros H. rewrite (IH H). lia.
Qed.

Lemma Forall_values_replace {V} (P : V -> Prop) (o : t V) k v :
  Forall P (values o) -> P v -> Forall P (values (replace o k v)).
Proof.
  intros Ho Hv. induction o as [|[k' v'] o IH]; simpl; auto.
  inversion Ho; subst. destruct (k =? k'); simpl; constructor; auto.
Qed.

End IntObjFacts.

(** ** The history log *)

Section LogFacts.

Variable clk : nat -> Time.
Variable cap : Z.
Variable wib : bool.

Lemma logSlotChange_spec dev sid p n ip w :
  exists t,
    logSlotChange clk cap wib dev sid p n ip w =
    (tt, mkWorld (parkingData w)
           (trim cap (slotHistory w
                      ++ [loggedEntry clk wib w dev sid p n ip])) t)
    /\ (ticks w <= t)%nat.
Proof.
  unfold logSlotChange, loggedEntry, stampTick, wibTimeNow,
    getCurrentWIBTime, trim, bind, ret, new_Date, get_history, put_history.
  destruct wib; simpl;
    destruct (flag_eq p (Some true) && flag_eq n (Some false)); simpl;
    try destruct (findLastOccupied dev sid (slotHistory w)); simpl;
    match goal with
    | |- context [cap <? ?n] => destruct (cap <? n)
    end; simpl; eexists; split; try reflexivity; lia.
Qed.

End LogFacts.

(** ** Reasoning about the handlers: weakest preconditions *)

Lemma bind_run {A B} (m : M A) (k : A -> M B) w :
  bind m k w = k (fst (m w)) (snd (m w)).
Proof. unfold bind. now destruct (m w). Qed.

Lemma wp_ret {A} (a : A) Q w : Q a w -> wp (ret a) Q w.
Proof. auto. Qed.

Lemma wp_bind {A B} (m : M A) (k : A -> M B) Q w :
  wp m (fun a w' => wp (k a) Q w') w -> wp (bind m k) Q w.
Proof. unfold wp. now rewrite bind_run. Qed.

Lemma wp_mono {A} (m : M A) (Q Q' : A -> World -> Prop) w :
  (forall a w', Q a w' -> Q' a w') -> wp m Q w -> wp m Q' w.
Proof. unfold wp. auto. Qed.

(** The loop rule for [slots.map]: [I] holds of the slots produced so far. *)
Lemma wp_mapM_index {A B} (f : A -> nat -> M B)
    (I : list B -> World -> Prop) :
  (forall x j acc w,
      I acc w -> wp (f x j) (fun y w' => I (acc ++ [y]) w') w) ->
  forall l i acc w,
    I acc w ->
    wp (mapM_index f l i) (fun ys w' => I (acc ++ ys) w') w.
Proof.
  intros Hstep l. induction l as [|x l IH]; intros i acc w HI; simpl.
  - apply wp_ret. now rewrite app_nil_r.
  - apply wp_bind. eapply wp_mono; [|apply Hstep; exact HI].
    intros y w1 H1. apply wp_bind.
    eapply wp_mono; [|apply IH; exact H1].
    intros ys w2 H2. apply wp_ret. cbv beta in H2.
    now rewrite <- app_assoc in H2.
Qed.

Section HandlerFacts.

Variable clk : nat -> Time.
Variable cap : Z.
Variable wib : bool.

Lemma wp_new_Date Q w :
  (forall w', same_stores w w' -> Q (clk (ticks w)) w') ->
  wp (new_Date clk) Q w.
Proof. intros H. apply H. split; reflexivity. Qed.

Lemma wp_logSlotChange dev sid p n ip Q w :
  (forall w',
      parkingData w' = parkingData w ->
      slotHistory w' =
        trim cap (slotHistory w ++ [loggedEntry clk wib w dev sid p n ip]) ->
      Q tt w') ->
  wp (logSlotChange clk cap wib dev sid p n ip) Q w.
Proof.
  intros H. destruct (logSlotChange_spec clk cap wib dev sid p n ip w)
    as (t & E & _).
  unfold wp. rewrite E. simpl. apply H; reflexivity.
Qed.

(** The change detection either leaves the stores alone or logs one flip
    of the slot found in the previous snapshot. *)
Lemma wp_checkSlotChange dev ip previousSlots slotData Q w :
  (forall w',
      same_stores w w' ->
      (forall p, find (fun p => id p =? id slotData) previousSlots = Some p ->
                 flag_eq (occupied p) (occupied slotData) = true) ->
      Q tt w') ->
  (forall p w',
      find (fun p => id p =? id slotData) previousSlots = Some p ->
      flag_eq (occupied p) (occupied slotData) = false ->
      parkingData w' = parkingData w ->
      slotHistory w' =
        trim cap (slotHistory w
                  ++ [loggedEntry clk wib w dev (id slotData) (occupied p)
                        (occupied slotData) ip]) ->
      Q tt w') ->
  wp (checkSlotChange clk cap wib dev ip previousSlots slotData) Q w.
Proof.
  intros Hsame Hlog. unfold checkSlotChange.
  destruct (find _ previousSlots) as [p|] eqn:F.
  - destruct (flag_eq (occupied p) (occupied slotData)) eqn:E; simpl.
    + apply wp_ret, Hsame; [split; reflexivity|].
      intros p' [= <-]. exact E.
    + apply wp_logSlotChange. intros w' H1 H2. eapply Hlog; eauto.
  - apply wp_ret, Hsame; [split; reflexivity|]. discriminate.
Qed.

(** Both callbacks read the clock, build [slotData] from the element and
    its index, run the change detection and return [slotData]. *)
Lemma wp_callback (form : bool) dev ip previousSlots slot index Q w :
  (forall lu w1,
      same_stores w w1 ->
      let slotData := mkSlot (slotKey form slot index) (slotFlag form slot) lu in
      wp (checkSlotChange clk cap wib dev ip previousSlots slotData)
         (fun _ w' => Q slotData w') w1) ->
  wp (callback clk cap wib form dev ip previousSlots slot index) Q w.
Proof.
  intros H. unfold callback. destruct form; simpl in H.
  - unfold processObjectSlot. apply wp_bind.
    assert (G : forall lu w1, same_stores w w1 ->
                wp (checkSlotChange clk cap wib dev ip previousSlots
                      (mkSlot (or_num (prop_id slot) (Z.of_nat index + 1))
                         (prop_occupied slot) lu);;
                    ret (mkSlot (or_num (prop_id slot) (Z.of_nat index + 1))
                           (prop_occupied slot) lu)) Q w1).
    { intros lu w1 H1. apply wp_bind.
      eapply wp_mono; [|apply (H lu w1 H1)]. intros u w' HQ. exact HQ. }
    destruct (prop_lastUpdate slot) as [n|].
    + destruct (n =? 0).
      * apply wp_new_Date. intros w1 H1. now apply G.
      * apply wp_ret, G. split; reflexivity.
    + apply wp_new_Date. intros w1 H1. now apply G.
  - unfold processSimpleSlot. apply wp_bind, wp_new_Date. intros w1 H1.
    apply wp_bind. eapply wp_mono; [|apply (H _ w1 H1)].
    intros u w' HQ. exact HQ.
Qed.

(** The slots returned by [slots.map] carry the identifiers and flags of
    [normalizedFrom], whatever the state. *)
Lemma callback_state (form : bool) dev ip previousSlots slot index w :
  slotState (fst (callback clk cap wib form dev ip previousSlots slot index w))
  =
  (slotKey form slot index, slotFlag form slot).
Proof.
  apply (@wp_callback form dev ip previousSlots slot index
           (fun y _ => slotState y = (slotKey form slot index,
                                      slotFlag form slot))).
  intros lu w1 _ slotData. unfold wp. reflexivity.
Qed.

Lemma loop_states (form : bool) dev ip previousSlots arr : forall i w,
  map slotState
      (fst (mapM_index (callback clk cap wib form dev ip previousSlots)
              arr i w)) =
  normalizedFrom form arr i.
Proof.
  unfold normalizedFrom.
  induction arr as [|x arr IH]; intros i w; simpl; [reflexivity|].
  rewrite !bind_run. simpl. f_equal.
  - apply callback_state.
  - apply IH.
Qed.

(** [processSlots] is the loop of the selected callback, run against the
    slots of the previous snapshot of the device. *)
Lemma processSlots_run dev ip arr w :
  processSlots clk cap wib dev ip (Some arr) w =
  let r := mapM_index
             (callback clk cap wib (objectForm arr) dev ip
                (previousSlotsOf (parkingData w) dev)) arr 0 w in
  ((availableOf arr, Z.of_nat (length arr), fst r), snd r).
Proof.
  unfold processSlots, availableOf, callback, objectForm.
  rewrite bind_run. simpl.
  destruct arr as [|first rest]; [reflexivity|].
  destruct (isSlotObject first); rewrite bind_run; reflexivity.
Qed.

(** A report with a device id on whose slots the handler throws is
    answered by the error handling middleware, in the state as it was. *)
Lemma post_thrown req w dev message :
  b_deviceId (body req) = Some dev -> dev <> "" ->
  typeError (b_slots (body req)) = Some message ->
  post_parking_status clk cap wib req w = (thrown message, w).
Proof.
  intros Hd Hne Hte. unfold post_parking_status. rewrite Hd.
  destruct (String.eqb dev "") eqn:E.
  { apply String.eqb_eq in E. contradiction. }
  rewrite Hte. reflexivity.
Qed.

(** Any other report with a device id answers 200 and stores the snapshot
    made of what [processSlots] returned. *)
Lemma post_valid req w dev :
  b_deviceId (body req) = Some dev -> dev <> "" ->
  typeError (b_slots (body req)) = None ->
  let r := processSlots clk cap wib dev (clientIP req) (b_slots (body req)) w
  in
  exists now cur wt ts t,
    post_parking_status clk cap wib req w =
    (mkResponse 200
       [("success", FBool true);
        ("message", FStr "Parking status updated successfully");
        ("data", FData (mkUpdateData dev (fst (fst (fst r)))
                          (snd (fst (fst r))) ts wt))],
     mkWorld
       (JsMap.set (parkingData (snd r)) dev
          (mkSnapshot dev (b_timestamp (body req)) (b_wifiStatus (body req))
             (snd (fst r)) (fst (fst (fst r))) (snd (fst (fst r))) now cur))
       (slotHistory (snd r)) t).
Proof.
  intros Hd Hne Hte r. unfold post_parking_status. rewrite Hd.
  destruct (String.eqb dev "") eqn:E.
  { apply String.eqb_eq in E. contradiction. }
  rewrite Hte, bind_run. fold r. destruct r as [[[a tot] ps] w1]. simpl.
  unfold wibTimeNow, getCurrentWIBTime, bind, ret, new_Date,
    get_parkingData, put_parkingData.
  destruct wib; simpl; repeat eexists.
Qed.

End HandlerFacts.

(** ** Invariants of the stores *)

Section StoreFacts.

Variable clk : nat -> Time.
Variable tzOffset : Time -> Z.
Variable cap : Z.
Variable wib : bool.

(** A property of the log that every logged flip keeps is kept by the
    loop over the reported slots, which leaves [parkingData] alone. *)
Lemma loop_inv (P : list LogEntry -> Prop) :
  (forall h e, P h -> flag_eq (previousState e) (newState e) = false ->
               P (trim cap (h ++ [e]))) ->
  forall form dev ip previousSlots arr i w,
    P (slotHistory w) ->
    let r := mapM_index (callback clk cap wib form dev ip previousSlots)
               arr i w in
    parkingData (snd r) = parkingData w /\ P (slotHistory (snd r)).
Proof.
  intros Hlog form dev ip previousSlots arr i w HP.
  apply (@wp_mapM_index _ _
           (callback clk cap wib form dev ip previousSlots)
           (fun _ w' => parkingData w' = parkingData w /\ P (slotHistory w')))
    with (acc := []); [|now split].
  intros x j acc w0 [Hpd HP0]. apply wp_callback. intros lu w1 [S1 S2] sd.
  apply wp_checkSlotChange.
  - intros w' [S3 S4] _. split; congruence.
  - intros p w' _ Hflip S3 S4. split; [congruence|].
    rewrite S4, S2. apply Hlog; auto.
Qed.

Lemma post_inv (P : list LogEntry -> Prop) :
  (forall h e, P h -> flag_eq (previousState e) (newState e) = false ->
               P (trim cap (h ++ [e]))) ->
  forall req w,
    P (slotHistory w) ->
    P (slotHistory (snd (post_parking_status clk cap wib req w))).
Proof.
  intros Hlog req w HP.
  destruct (b_deviceId (body req)) as [dev|] eqn:Hd.
  - destruct (String.eqb dev "") eqn:E.
    + unfold post_parking_status. now rewrite Hd, E.
    + assert (Hne : dev <> "")
        by (intros ->; now rewrite String.eqb_refl in E).
      destruct (typeError (b_slots (body req))) as [msg|] eqn:Hte.
      { now rewrite (post_thrown clk cap wib req w Hd Hne Hte). }
      destruct (post_valid clk cap wib req w Hd Hne Hte)
        as (now & cur & wt & ts & t & Eq).
      rewrite Eq. simpl.
      destruct (b_slots (body req)) as [arr|]; [|exact HP].
      rewrite processSlots_run. simpl. now apply loop_inv.
  - unfold post_parking_status. now rewrite Hd.
Qed.

(** The read-only requests touch neither store. *)
Lemma read_only w c :
  (forall req, c <> PostStatus req) ->
  same_stores w (step clk tzOffset cap wib w c).
Proof.
  intros H. destruct c as [req|q| | |n]; simpl.
  - now elim (H req).
  - unfold get_parking_status. rewrite bind_run. simpl.
    destruct q as [dev|]; [destruct (String.eqb dev "")|];
      try (split; reflexivity).
    destruct (JsMap.get (parkingData w) dev); split; reflexivity.
  - split; reflexivity.
  - unfold get_admin_dashboard. rewrite !bind_run. simpl.
    destruct (dashboardData _ _ _ _); split; reflexivity.
  - split; reflexivity.
Qed.

Lemma step_inv (P : list LogEntry -> Prop) :
  (forall h e, P h -> flag_eq (previousState e) (newState e) = false ->
               P (trim cap (h ++ [e]))) ->
  forall w c,
    P (slotHistory w) -> P (slotHistory (step clk tzOffset cap wib w c)).
Proof.
  intros Hlog w c HP. destruct c as [req|q| | |n].
  - unfold step, report. now apply post_inv.
  - destruct (@read_only w (GetStatus q)) as [_ ->]; [discriminate|auto].
  - destruct (@read_only w GetHealth) as [_ ->]; [discriminate|auto].
  - destruct (@read_only w GetDashboard) as [_ ->]; [discriminate|auto].
  - exact HP.
Qed.

(** Induction over the requests served since the start. *)
Lemma run_ind (I : World -> Prop) :
  I empty_world ->
  (forall w c, I w -> I (step clk tzOffset cap wib w c)) ->
  forall calls, I (run clk tzOffset cap wib calls).
Proof.
  intros H0 Hs calls. unfold run.
  induction calls as [|c calls IH] using rev_ind; simpl; auto.
  rewrite fold_left_app. simpl. now apply Hs.
Qed.

End StoreFacts.

(** ** The claims on the history log *)

Lemma trim_length cap (h : list LogEntry) e :
  0 <= cap -> Z.of_nat (length h) <= cap ->
  Z.of_nat (length (trim cap (h ++ [e]))) <= cap.
Proof.
  intros Hc Hh. unfold trim. destruct (cap <? _) eqn:E.
  - destruct h; simpl in *; [lia|]. rewrite length_app. simpl. lia.
  - apply Z.ltb_ge in E. exact E.
Qed.

Lemma trim_skipn cap (h : list LogEntry) e :
  Z.of_nat (length h) <= cap ->
  trim cap (h ++ [e]) =
  skipn (length (h ++ [e]) - Z.to_nat cap) (h ++ [e]).
Proof.
  intros Hh. unfold trim. rewrite length_app. simpl.
  destruct (cap <? _) eqn:E.
  - apply Z.ltb_lt in E.
    replace (length h + 1 - Z.to_nat cap)%nat with 1%nat by lia.
    now destruct (h ++ [e]).
  - apply Z.ltb_ge in E.
    replace (length h + 1 - Z.to_nat cap)%nat with 0%nat by lia.
    reflexivity.
Qed.

(** C3.  The history never holds more than [cap] entries after any
    sequence of requests served from the start; and a call of
    [logSlotChange] on a log within the bound leaves the last [cap]
    entries of the log extended by the new entry: when the push exceeds
    the bound the oldest entry, at the front, is the one removed.  The
    bound is 10000 or 5000 according to the deployment. *)
Theorem history_bounded_fifo clk tzOffset cap wib :
  0 <= cap ->
  (forall calls,
      Z.of_nat (length (slotHistory (run clk tzOffset cap wib calls))) <= cap)
  /\
  (forall w dev sid p n ip,
      Z.of_nat (length (slotHistory w)) <= cap ->
      exists e,
        let pushed := slotHistory w ++ [e] in
        let h' :=
          slotHistory (snd (logSlotChange clk cap wib dev sid p n ip w)) in
        deviceId e = dev /\ slotId e = sid /\
        previousState e = p /\ newState e = n /\
        Z.of_nat (length h') <= cap /\
        h' = skipn (length pushed - Z.to_nat cap) pushed).
Proof.
  intros Hc. split.
  - apply run_ind with
      (I := fun w => Z.of_nat (length (slotHistory w)) <= cap); [exact Hc|].
    intros w c H.
    apply (@step_inv clk tzOffset cap wib
             (fun h => Z.of_nat (length h) <= cap)); auto.
    intros h e Hh _. now apply trim_length.
  - intros w dev sid p n ip Hh.
    exists (loggedEntry clk wib w dev sid p n ip).
    destruct (logSlotChange_spec clk cap wib dev sid p n ip w) as (t & E & _).
    rewrite E. simpl. repeat split.
    + now apply trim_length.
    + now apply trim_skipn.
Qed.

Lemma history_bounded_fifo_witness :
  (forall calls,
      Z.of_nat (length (slotHistory
                          (run clock_1s utc cap_server_js false calls)))
      <= cap_server_js)
  /\ (exists e,
        let h' :=
          slotHistory (snd (logSlotChange clock_1s cap_auth true "D1" 1
                              (Some false) (Some true) None empty_world)) in
        deviceId e = "D1" /\ slotId e = 1 /\
        previousState e = Some false /\ newState e = Some true /\
        Z.of_nat (length h') <= cap_auth /\
        h' = skipn (1 - Z.to_nat cap_auth) [e]).
Proof.
  split.
  - apply (@history_bounded_fifo clock_1s utc cap_server_js false).
    unfold cap_server_js. lia.
  - apply (proj2 (@history_bounded_fifo clock_1s utc cap_auth true
                    ltac:(unfold cap_auth; lia))
             empty_world "D1" 1 (Some false) (Some true) None).
    unfold cap_auth. simpl. lia.
Defined.

Lemma flag_eq_true a b : flag_eq a b = true <-> a = b.
Proof.
  destruct a as [[]|], b as [[]|]; simpl; split; congruence.
Qed.

Lemma flag_eq_false a b : flag_eq a b = false <-> a <> b.
Proof.
  destruct a as [[]|], b as [[]|]; simpl; split; congruence.
Qed.

Lemma isLastOccupied_true dev sid e :
  isLastOccupied dev sid e = true <->
  deviceId e = dev /\ slotId e = sid /\ newState e = Some true.
Proof.
  unfold isLastOccupied.
  rewrite !andb_true_iff, String.eqb_eq, Z.eqb_eq, flag_eq_true. tauto.
Qed.

(** [find] on the reversed array returns the last element that satisfies
    the test. *)
Lemma find_rev_last {A} (f : A -> bool) (l : list A) x :
  find f (rev l) = Some x ->
  exists l1 l2,
    l = l1 ++ x :: l2 /\ f x = true /\ (forall y, In y l2 -> f y = false).
Proof.
  induction l as [|y l IH] using rev_ind; [discriminate|].
  rewrite rev_app_distr. simpl. destruct (f y) eqn:E.
  - intros [= ->]. exists l, []. repeat split; auto. intros ? [].
  - intros H. destruct (IH H) as (l1 & l2 & -> & Hx & Hl2).
    exists l1, (l2 ++ [y]). rewrite <- app_assoc. repeat split; auto.
    intros z Hz. apply in_app_or in Hz as [Hz|[<-|[]]]; auto.
Qed.

Lemma find_rev_none {A} (f : A -> bool) (l : list A) :
  find f (rev l) = None <-> (forall y, In y l -> f y = false).
Proof.
  split.
  - intros H y Hy. apply (find_none f (rev l) H). now apply in_rev in Hy.
  - intros H. destruct (find f (rev l)) as [x|] eqn:E; auto.
    apply find_some in E as [Hin Hx]. apply in_rev in Hin.
    rewrite (H x Hin) in Hx. discriminate.
Qed.

(** C2.  The entry that [logSlotChange] pushes carries a duration exactly
    when [previousState] is [true], [newState] is [false] and the log holds
    an earlier entry of the same device and slot whose [newState] is
    [true]; the duration is then the clock reading taken for it minus the
    time stamp of the latest such entry, that is [t2 - t1] when that
    reading is the time stamp [t2] of the new entry; in every other case
    the duration stays [null]. *)
Theorem duration_backfill clk cap wib w dev sid p n ip :
  exists e,
    slotHistory (snd (logSlotChange clk cap wib dev sid p n ip w)) =
      trim cap (slotHistory w ++ [e])
    /\ deviceId e = dev /\ slotId e = sid
    /\ previousState e = p /\ newState e = n
    /\ timestamp e = clk (stampTick wib w)
    /\ (duration e <> None <->
        p = Some true /\ n = Some false /\
        exists prior,
          In prior (slotHistory w) /\ deviceId prior = dev /\
          slotId prior = sid /\ newState prior = Some true)
    /\ (forall d,
          duration e = Some d ->
          exists h1 prior h2,
            slotHistory w = h1 ++ prior :: h2 /\
            deviceId prior = dev /\ slotId prior = sid /\
            newState prior = Some true /\
            (forall later,
                In later h2 ->
                ~ (deviceId later = dev /\ slotId later = sid /\
                   newState later = Some true)) /\
            d = clk (S (stampTick wib w)) - timestamp prior /\
            (clk (S (stampTick wib w)) = timestamp e ->
             d = timestamp e - timestamp prior)).
Proof.
  exists (loggedEntry clk wib w dev sid p n ip).
  destruct (logSlotChange_spec clk cap wib dev sid p n ip w) as (t & E & _).
  rewrite E. simpl. repeat split; auto.
  - (* a duration is recorded: the three conditions hold *)
    destruct (flag_eq p (Some true)) eqn:Hp; simpl in *; [|congruence].
    now apply flag_eq_true in Hp.
  - destruct (flag_eq p (Some true)); simpl in *; [|congruence].
    destruct (flag_eq n (Some false)) eqn:Hn; simpl in *; [|congruence].
    now apply flag_eq_true in Hn.
  - destruct (flag_eq p (Some true) && flag_eq n (Some false));
      [|congruence].
    unfold findLastOccupied in *.
    destruct (find _ (rev (slotHistory w))) as [lo|] eqn:F; [|congruence].
    apply find_rev_last in F as (l1 & l2 & Hw & Hlo & _).
    apply isLastOccupied_true in Hlo. exists lo. rewrite Hw.
    intuition auto using in_elt.
  - (* the three conditions hold: a duration is recorded *)
    intros (-> & -> & prior & Hin & Hd & Hs & Hn). simpl.
    unfold findLastOccupied.
    destruct (find _ (rev (slotHistory w))) as [lo|] eqn:F; [discriminate|].
    rewrite find_rev_none in F. specialize (F prior Hin).
    assert (isLastOccupied dev sid prior = true)
      by now apply isLastOccupied_true.
    congruence.
  - intros d Hd.
    destruct (flag_eq p (Some true) && flag_eq n (Some false));
      [|discriminate].
    unfold findLastOccupied in *.
    destruct (find _ (rev (slotHistory w))) as [lo|] eqn:F; [|discriminate].
    injection Hd as <-.
    apply find_rev_last in F as (l1 & l2 & Hw & Hlo & Hl2).
    apply isLastOccupied_true in Hlo. exists l1, lo, l2.
    repeat split; try tauto.
    + intros later Hin Hm. apply isLastOccupied_true in Hm.
      rewrite (Hl2 later Hin) in Hm. discriminate.
    + intros ->. reflexivity.
Qed.

(** ** The claims on the ingestion of reports *)

Section IngestFacts.

Variable clk : nat -> Time.
Variable cap : Z.
Variable wib : bool.

Lemma same_stores_refl w : same_stores w w.
Proof. split; reflexivity. Qed.

Lemma same_stores_trans w1 w2 w3 :
  same_stores w1 w2 -> same_stores w2 w3 -> same_stores w1 w3.
Proof. intros [A B] [C D]. split; congruence. Qed.

(** The loop logs nothing when the report brings no change. *)
Lemma loop_quiet form dev ip previousSlots arr : forall i w,
  unchanged previousSlots (normalizedFrom form arr i) = true ->
  same_stores w
    (snd (mapM_index (callback clk cap wib form dev ip previousSlots)
            arr i w)).
Proof.
  unfold normalizedFrom.
  induction arr as [|x arr IH]; intros i w H; simpl in *.
  - apply same_stores_refl.
  - apply andb_true_iff in H as [Hx Hrest].
    rewrite !bind_run. simpl.
    eapply same_stores_trans; [|apply IH; exact Hrest].
    apply (@wp_callback clk cap wib form dev ip previousSlots x i
             (fun _ w' => same_stores w w')).
    intros lu w1 H1 sd. apply wp_checkSlotChange.
    + intros w' H2 _. eapply same_stores_trans; eauto.
    + intros p w' F Hflip _ _. exfalso. subst sd. simpl in F, Hflip.
      rewrite F in Hx. congruence.
Qed.

Lemma processSlots_store dev ip reported w :
  parkingData (snd (processSlots clk cap wib dev ip reported w)) =
  parkingData w.
Proof.
  destruct reported as [arr|]; [|reflexivity].
  rewrite processSlots_run. simpl.
  apply (@wp_mapM_index _ _ (callback clk cap wib (objectForm arr) dev ip
                               (previousSlotsOf (parkingData w) dev))
           (fun _ w' => parkingData w' = parkingData w))
    with (acc := []); [|reflexivity].
  intros x j acc w0 H0. apply wp_callback. intros lu w1 [S1 _] sd.
  apply wp_checkSlotChange.
  - intros w' [S3 _] _. congruence.
  - intros p w' _ _ S3 _. congruence.
Qed.

Lemma processSlots_states dev ip reported w :
  map slotState
      (snd (fst (processSlots clk cap wib dev ip reported w))) =
  normalized reported.
Proof.
  destruct reported as [arr|]; [|reflexivity].
  rewrite processSlots_run. simpl. apply loop_states.
Qed.

Lemma processSlots_counts dev ip reported w :
  let r := fst (processSlots clk cap wib dev ip reported w) in
  fst (fst r) = match reported with Some arr => availableOf arr | None => 0 end
  /\ snd (fst r) = Z.of_nat (length (normalized reported)).
Proof.
  destruct reported as [arr|]; [|split; reflexivity].
  rewrite processSlots_run. simpl. split; [reflexivity|].
  unfold normalizedFrom.
  now rewrite length_map, length_combine, length_seq, Nat.min_id.
Qed.

(** The snapshot that a report with a device id leaves in the store,
    when the handler does not throw. *)
Lemma post_snapshot req w dev :
  b_deviceId (body req) = Some dev -> dev <> "" ->
  typeError (b_slots (body req)) = None ->
  let w' := report clk cap wib w req in
  (exists snap,
      JsMap.get (parkingData w') dev = Some snap /\
      d_deviceId snap = dev /\
      map slotState (slots snap) = normalized (b_slots (body req)) /\
      totalSlots snap = Z.of_nat (length (normalized (b_slots (body req)))) /\
      availableSlots snap =
        match b_slots (body req) with
        | Some arr => availableOf arr
        | None => 0
        end)
  /\ (forall dev', dev' <> dev ->
        JsMap.get (parkingData w') dev' = JsMap.get (parkingData w) dev')
  /\ (forall snap, In snap (JsMap.values (parkingData w')) ->
        JsMap.get (parkingData w') dev = Some snap \/
        In snap (JsMap.values (parkingData w))).
Proof.
  intros Hd Hne Hte w'. unfold w', report.
  destruct (post_valid clk cap wib req w Hd Hne Hte)
    as (now & cur & wt & ts & t & Eq).
  rewrite Eq. simpl. rewrite processSlots_store.
  destruct (processSlots_counts dev (clientIP req) (b_slots (body req)) w)
    as [Ha Ht].
  repeat split.
  - eexists. rewrite JsMapFacts.get_set_same. repeat split; simpl; auto.
    apply processSlots_states.
  - intros dev' Hne'. now apply JsMapFacts.get_set_other.
  - intros snap Hin. rewrite JsMapFacts.get_set_same.
    apply JsMapFacts.In_values_set in Hin as [->|Hin]; auto.
Qed.

Lemma post_rejected req w :
  b_deviceId (body req) = None \/ b_deviceId (body req) = Some "" ->
  post_parking_status clk cap wib req w =
  (mkResponse 400 [("error", FStr "Device ID is required")], w).
Proof.
  unfold post_parking_status. intros [-> | ->]; reflexivity.
Qed.

Lemma acceptedId_Some req dev :
  acceptedId req = Some dev <->
  b_deviceId (body req) = Some dev /\ dev <> ""
  /\ typeError (b_slots (body req)) = None.
Proof.
  unfold acceptedId. destruct (b_deviceId (body req)) as [d|].
  - destruct (String.eqb d "") eqn:E.
    + apply String.eqb_eq in E. subst. split; [discriminate|].
      intros [[= <-] [H _]]. now elim H.
    + destruct (typeError (b_slots (body req))).
      * split; [discriminate|]. now intros (_ & _ & ?).
      * split.
        -- intros [= ->]. repeat split; auto. intros ->.
           now rewrite String.eqb_refl in E.
        -- now intros [[= ->] _].
  - split; [discriminate | now intros [? _]].
Qed.

(** A report that is not accepted leaves the state as it was. *)
Lemma acceptedId_None req w :
  acceptedId req = None -> report clk cap wib w req = w.
Proof.
  unfold acceptedId, report. intros H.
  destruct (b_deviceId (body req)) as [d|] eqn:Hd;
    [|rewrite post_rejected; auto].
  destruct (String.eqb d "") eqn:E.
  { apply String.eqb_eq in E. subst. rewrite post_rejected; auto. }
  assert (Hne : d <> "") by (intros ->; now rewrite String.eqb_refl in E).
  destruct (typeError (b_slots (body req))) as [msg|] eqn:Hte;
    [|discriminate].
  now rewrite (post_thrown clk cap wib req w Hd Hne Hte).
Qed.

Lemma accepted_snapshot req w dev :
  acceptedId req = Some dev ->
  exists snap,
    JsMap.get (parkingData (report clk cap wib w req)) dev = Some snap /\
    map slotState (slots snap) = normalized (b_slots (body req)).
Proof.
  intros Hacc. apply acceptedId_Some in Hacc as (Hd & Hne & Hte).
  destruct (post_snapshot req w Hd Hne Hte) as ((snap & G & _ & St & _) & _).
  now exists snap.
Qed.

Lemma post_quiet req w :
  quietReport w req = true ->
  slotHistory (report clk cap wib w req) = slotHistory w.
Proof.
  unfold quietReport, report. intros H.
  destruct (b_deviceId (body req)) as [dev|] eqn:Hd.
  - destruct (String.eqb dev "") eqn:E.
    + apply String.eqb_eq in E. subst dev. now rewrite post_rejected; auto.
    + assert (Hne : dev <> "")
        by (intros ->; now rewrite String.eqb_refl in E).
      destruct (typeError (b_slots (body req))) as [msg|] eqn:Hte.
      { now rewrite (post_thrown clk cap wib req w Hd Hne Hte). }
      destruct (post_valid clk cap wib req w Hd Hne Hte)
        as (now & cur & wt & ts & t & Eq).
      rewrite Eq. simpl in H |- *.
      destruct (b_slots (body req)) as [arr|]; [|reflexivity].
      rewrite processSlots_run. simpl. now apply loop_quiet.
  - now rewrite post_rejected; auto.
Qed.

End IngestFacts.

(** C9.  A report whose [deviceId] is missing or is the empty string is
    answered with status 400 and the error message, and the state is the
    one before the request: [parkingData] and [slotHistory] are not
    touched. *)
Theorem missing_deviceId_rejected clk cap wib req w :
  b_deviceId (body req) = None \/ b_deviceId (body req) = Some "" ->
  let r := post_parking_status clk cap wib req w in
  status (fst r) = 400
  /\ field (json (fst r)) "error" = Some (FStr "Device ID is required")
  /\ parkingData (snd r) = parkingData w
  /\ slotHistory (snd r) = slotHistory w
  /\ snd r = w.
Proof.
  intros H r. unfold r. rewrite post_rejected by exact H.
  repeat split.
Qed.

Lemma missing_deviceId_rejected_witness :
  let w := report clock_1s cap_server_js false empty_world
             (simpleReport "D1" [0; 1]) in
  let absent := mkRequest (mkBody None None None (Some [InNum 1; InNum 1]))
                  None in
  let blank := simpleReport "" [1; 1] in
  (status (fst (post_parking_status clock_1s cap_server_js false absent w))
   = 400
   /\ snd (post_parking_status clock_1s cap_server_js false absent w) = w)
  /\ (status (fst (post_parking_status clock_1s cap_auth true blank w))
      = 400
      /\ snd (post_parking_status clock_1s cap_auth true blank w) = w).
Proof.
  intros w absent blank. split.
  - pose proof (@missing_deviceId_rejected clock_1s cap_server_js false
                  absent w (or_introl eq_refl)) as H.
    split; apply H.
  - pose proof (@missing_deviceId_rejected clock_1s cap_auth true
                  blank w (or_intror eq_refl)) as H.
    split; apply H.
Defined.

Lemma NoDup_map_injective {A B} (f : A -> B) (l : list A) :
  (forall a b, f a = f b -> a = b) -> NoDup l -> NoDup (map f l).
Proof.
  intros Hinj Hnd. induction Hnd as [|x l Hx Hnd IH]; simpl; constructor; auto.
  intros Hin. apply in_map_iff in Hin as (y & E & Hy).
  apply Hinj in E. now subst.
Qed.

Lemma NoDup_map_eq {A B} (f : A -> B) (l : list A) x y :
  NoDup (map f l) -> In x l -> In y l -> f x = f y -> x = y.
Proof.
  induction l as [|a l IH]; simpl; [tauto|].
  intros Hnd Hx Hy E. inversion Hnd as [|? ? Hnot Hnd']; subst.
  destruct Hx as [->|Hx], Hy as [->|Hy]; auto.
  - elim Hnot. rewrite E. now apply in_map.
  - elim Hnot. rewrite <- E. now apply in_map.
Qed.

(** A snapshot whose identifiers are distinct brings no change to
    itself. *)
Lemma unchanged_self (sl : list Slot) :
  NoDup (map id sl) -> unchanged sl (map slotState sl) = true.
Proof.
  intros Hnd. unfold unchanged. apply forallb_forall. intros st Hst.
  apply in_map_iff in Hst as (s & <- & Hs). simpl.
  destruct (find _ sl) as [p|] eqn:F; [|reflexivity].
  apply find_some in F as [Hp E]. apply Z.eqb_eq in E.
  rewrite (NoDup_map_eq id sl p s Hnd Hp Hs E). now apply flag_eq_true.
Qed.

Lemma map_id_slotState (sl : list Slot) :
  map id sl = map fst (map slotState sl).
Proof. rewrite map_map. reflexivity. Qed.

(** A report that says of each slot what the snapshot of its device
    holds, under identifiers that are distinct, brings no change. *)
Lemma same_report_quiet req w dev :
  acceptedId req = Some dev ->
  normalized (b_slots (body req))
  = map slotState (previousSlotsOf (parkingData w) dev) ->
  NoDup (map fst (normalized (b_slots (body req)))) ->
  quietReport w req = true.
Proof.
  intros Hacc Hsame Hnd. apply acceptedId_Some in Hacc as (Hd & _ & _).
  unfold quietReport. rewrite Hd, Hsame. apply orb_true_iff. right.
  apply unchanged_self. now rewrite map_id_slotState, <- Hsame.
Qed.

Lemma objectForm_simple vs : objectForm (map InNum vs) = false.
Proof. now destruct vs. Qed.

Lemma typeError_simple vs : typeError (Some (map InNum vs)) = None.
Proof. now destruct vs. Qed.

Lemma simple_keys vs : forall i,
  map fst (normalizedFrom false (map InNum vs) i) =
  map (fun k => Z.of_nat k + 1) (seq i (length vs)).
Proof.
  unfold normalizedFrom.
  induction vs as [|v vs IH]; intros i; simpl; [reflexivity|].
  f_equal. apply IH.
Qed.

Lemma simple_keys_NoDup vs :
  NoDup (map fst (normalized (Some (map InNum vs)))).
Proof.
  simpl. rewrite objectForm_simple, simple_keys.
  apply NoDup_map_injective; [|apply seq_NoDup].
  intros a b H. lia.
Qed.

(** A report that lists what the snapshot of its device holds leaves the
    history and the slots of every snapshot as they were. *)
Lemma same_report_step clk cap wib req w :
  (forall dev, acceptedId req = Some dev ->
     normalized (b_slots (body req))
     = map slotState (previousSlotsOf (parkingData w) dev)
     /\ NoDup (map fst (normalized (b_slots (body req))))) ->
  let w' := report clk cap wib w req in
  slotHistory w' = slotHistory w
  /\ (forall dev,
        map slotState (previousSlotsOf (parkingData w') dev)
        = map slotState (previousSlotsOf (parkingData w) dev))
  /\ (forall dev snap,
        JsMap.get (parkingData w) dev = Some snap ->
        exists snap',
          JsMap.get (parkingData w') dev = Some snap' /\
          map slotState (slots snap') = map slotState (slots snap))
  /\ (forall dev, acceptedId req = Some dev ->
        exists snap,
          JsMap.get (parkingData w') dev = Some snap /\
          map slotState (slots snap) = normalized (b_slots (body req))).
Proof.
  intros Hsame w'. unfold w'.
  destruct (acceptedId req) as [dev|] eqn:Hacc.
  - destruct (Hsame dev eq_refl) as [Hst Hnd].
    destruct (accepted_snapshot clk cap wib req w Hacc) as (snap & G & St).
    apply acceptedId_Some in Hacc as Hacc'.
    destruct Hacc' as (Hd & Hne & Hte).
    destruct (post_snapshot clk cap wib req w Hd Hne Hte)
      as (_ & Hother & _).
    split; [|split; [|split]].
    + apply post_quiet. now apply same_report_quiet with dev.
    + intros dev'. destruct (String.eqb dev' dev) eqn:E.
      * apply String.eqb_eq in E. subst dev'.
        unfold previousSlotsOf at 1. now rewrite G, St.
      * apply String.eqb_neq in E. unfold previousSlotsOf.
        now rewrite (Hother dev' E).
    + intros dev' snap0 G0. destruct (String.eqb dev' dev) eqn:E.
      * apply String.eqb_eq in E. subst dev'. exists snap.
        split; [exact G|]. rewrite St, Hst. unfold previousSlotsOf.
        now rewrite G0.
      * apply String.eqb_neq in E. exists snap0.
        split; [|reflexivity]. now rewrite (Hother dev' E).
    + intros dev' [= <-]. now exists snap.
  - rewrite (acceptedId_None clk cap wib req w Hacc).
    split; [reflexivity|]. split; [reflexivity|]. split.
    + intros dev snap G. now exists snap.
    + discriminate.
Qed.

Lemma same_reports_quiet clk cap wib reqs : forall w,
  Forall
    (fun req =>
       forall dev, acceptedId req = Some dev ->
         normalized (b_slots (body req))
         = map slotState (previousSlotsOf (parkingData w) dev)
         /\ NoDup (map fst (normalized (b_slots (body req)))))
    reqs ->
  let w' := fold_left (report clk cap wib) reqs w in
  slotHistory w' = slotHistory w
  /\ (forall dev snap,
        JsMap.get (parkingData w) dev = Some snap ->
        exists snap',
          JsMap.get (parkingData w') dev = Some snap' /\
          map slotState (slots snap') = map slotState (slots snap))
  /\ Forall
       (fun req =>
          forall dev, acceptedId req = Some dev ->
            exists snap,
              JsMap.get (parkingData w') dev = Some snap /\
              map slotState (slots snap) = normalized (b_slots (body req)))
       reqs.
Proof.
  induction reqs as [|req reqs IH]; intros w Hall; simpl.
  { split; [reflexivity|]. split; [|constructor].
    intros dev snap G. now exists snap. }
  inversion Hall as [|? ? Hreq Hrest]; subst.
  destruct (same_report_step clk cap wib req w Hreq)
    as (Hh & Hprev & Hkeep & Hnew).
  destruct (IH (report clk cap wib w req)) as (Hh' & Hkeep' & Hall').
  { eapply Forall_impl; [|exact Hrest].
    intros r Hr dev Hacc. rewrite Hprev. now apply Hr. }
  split; [now rewrite Hh'|]. split.
  - intros dev snap G. destruct (Hkeep dev snap G) as (s1 & G1 & E1).
    destruct (Hkeep' dev s1 G1) as (s2 & G2 & E2).
    exists s2. split; [exact G2 | now rewrite E2].
  - constructor; [|exact Hall'].
    intros dev Hacc. destruct (Hnew dev Hacc) as (s1 & G1 & E1).
    destruct (Hkeep' dev s1 G1) as (s2 & G2 & E2).
    exists s2. split; [exact G2 | now rewrite E2].
Qed.

(** C5, as stated, fails.  A report that gives one identifier to two
    slots, with different flags, is compared slot by slot with the first
    slot of that identifier in the snapshot: the report
    [{id: 1, occupied: true}, {id: 1, occupied: false}], stored by the
    first report of the device, logs a release each time that it is sent
    again, although it says of the slots what the snapshot holds.  And a
    report whose array begins with [null] makes the handler throw: it is
    answered with status 500 and no snapshot is written. *)
Lemma spurious_transition_of_repeated_id :
  let req := objectReport "D1" [(1, true); (1, false)] in
  let w1 := report clock_1s cap_server_js false empty_world req in
  let w2 := report clock_1s cap_server_js false w1 req in
  let w3 := report clock_1s cap_server_js false w2 req in
  let null := mkRequest (mkBody (Some "D2") None None (Some [InNull])) None in
  let r := post_parking_status clock_1s cap_server_js false null w1 in
  (slotHistory w1 = []
   /\ map slotState (previousSlotsOf (parkingData w1) "D1")
      = normalized (b_slots (body req))
   /\ map slotState (previousSlotsOf (parkingData w2) "D1")
      = normalized (b_slots (body req))
   /\ map (fun e => (deviceId e, slotId e, previousState e, newState e))
        (slotHistory w2)
      = [("D1", 1, Some true, Some false)]
   /\ length (slotHistory w3) = 2%nat)
  /\ (JsMap.get (parkingData w1) "D2" = None
      /\ status (fst r) = 500
      /\ snd r = w1
      /\ JsMap.get (parkingData (snd r)) "D2" = None).
Proof. vm_compute. repeat split; reflexivity. Qed.

(** C5, amended.  The first report of a device (no snapshot of it in the
    store) adds nothing to the history; it writes the snapshot of the
    device when it is accepted, and leaves the state as it was when the
    handler throws on its slots.  A run of any number of accepted
    reports, of any devices and in either format, each of which lists
    under distinct identifiers the identifiers and flags, in order, of the
    snapshot of its device, leaves the history, hence its length, as it
    was, and the snapshot of each reported device is in the store with
    the slots reported.  In particular [N] further copies of an accepted
    report with distinct identifiers, and of any report in the simple
    array format, leave the history as the first copy left it. *)
Theorem no_spurious_transitions clk cap wib :
  (forall req w dev,
      b_deviceId (body req) = Some dev ->
      JsMap.get (parkingData w) dev = None ->
      let w' := report clk cap wib w req in
      slotHistory w' = slotHistory w
      /\ (acceptedId req = Some dev ->
          exists snap,
            JsMap.get (parkingData w') dev = Some snap /\
            map slotState (slots snap) = normalized (b_slots (body req)))
      /\ (acceptedId req = None -> w' = w))
  /\
  (forall reqs w,
      Forall
        (fun req =>
           forall dev, acceptedId req = Some dev ->
             normalized (b_slots (body req))
             = map slotState (previousSlotsOf (parkingData w) dev)
             /\ NoDup (map fst (normalized (b_slots (body req)))))
        reqs ->
      let w' := fold_left (report clk cap wib) reqs w in
      slotHistory w' = slotHistory w
      /\ length (slotHistory w') = length (slotHistory w)
      /\ Forall
           (fun req =>
              forall dev, acceptedId req = Some dev ->
                exists snap,
                  JsMap.get (parkingData w') dev = Some snap /\
                  map slotState (slots snap)
                  = normalized (b_slots (body req)))
           reqs)
  /\
  (forall req N w dev,
      acceptedId req = Some dev ->
      NoDup (map fst (normalized (b_slots (body req)))) ->
      let w1 := report clk cap wib w req in
      let w' := fold_left (report clk cap wib) (repeat req N) w1 in
      slotHistory w' = slotHistory w1
      /\ exists snap,
           JsMap.get (parkingData w') dev = Some snap /\
           map slotState (slots snap) = normalized (b_slots (body req)))
  /\
  (forall dev values N w,
      dev <> "" ->
      let w1 := report clk cap wib w (simpleReport dev values) in
      let w' := fold_left (report clk cap wib)
                  (repeat (simpleReport dev values) N) w1 in
      slotHistory w' = slotHistory w1).
Proof.
  assert (Hcopies : forall req N w dev,
             acceptedId req = Some dev ->
             NoDup (map fst (normalized (b_slots (body req)))) ->
             let w1 := report clk cap wib w req in
             let w' := fold_left (report clk cap wib) (repeat req N) w1 in
             slotHistory w' = slotHistory w1
             /\ exists snap,
                  JsMap.get (parkingData w') dev = Some snap /\
                  map slotState (slots snap)
                  = normalized (b_slots (body req))).
  { intros req N w dev Hacc Hnd w1 w'.
    destruct (accepted_snapshot clk cap wib req w Hacc) as (snap & G & St).
    fold w1 in G.
    destruct (@same_reports_quiet clk cap wib (repeat req N) w1)
      as (Hh & Hkeep & _).
    { apply Forall_forall. intros r Hr. apply repeat_spec in Hr. subst r.
      intros dev' Hacc'. rewrite Hacc in Hacc'. injection Hacc' as <-.
      split; [|exact Hnd]. unfold previousSlotsOf. now rewrite G, St. }
    split; [exact Hh|].
    destruct (Hkeep dev snap G) as (s' & G' & E').
    exists s'. split; [exact G' | now rewrite E']. }
  split; [|split; [|split]].
  - intros req w dev Hd Hnone w'. split; [|split].
    + apply post_quiet. unfold quietReport, previousSlotsOf.
      rewrite Hd, Hnone. apply orb_true_iff. right.
      unfold unchanged. apply forallb_forall. reflexivity.
    + intros Hacc. now apply accepted_snapshot.
    + intros Hacc. now apply acceptedId_None.
  - intros reqs w Hall w'.
    destruct (@same_reports_quiet clk cap wib reqs w Hall) as (Hh & _ & Hs).
    fold w' in Hh, Hs. split; [exact Hh|]. split; [|exact Hs].
    now rewrite Hh.
  - exact Hcopies.
  - intros dev values N w Hne w1 w'.
    apply (Hcopies (simpleReport dev values) N w dev).
    + apply acceptedId_Some. repeat split; auto.
      apply typeError_simple.
    + apply simple_keys_NoDup.
Qed.

Lemma no_spurious_transitions_witness :
  let first := objectReport "D1" [(4, true); (7, false)] in
  let again := mkRequest
                 (mkBody (Some "D1") (Some 99) None
                    (Some [InObj (mkSlotObj (Some 4) (Some true) (Some 5));
                           InObj (mkSlotObj (Some 7) (Some false) None)]))
                 None in
  let other := simpleReport "D2" [] in
  let w1 := report clock_1s cap_server_js false empty_world first in
  let w' := fold_left (report clock_1s cap_server_js false)
              [again; other; first] w1 in
  slotHistory w1 = [] /\
  slotHistory w' = slotHistory w1 /\
  length (slotHistory w') = length (slotHistory w1).
Proof.
  intros first again other w1 w'. split.
  - apply (proj1 (no_spurious_transitions clock_1s cap_server_js false)
             first empty_world "D1" eq_refl eq_refl).
  - destruct (proj1 (proj2 (no_spurious_transitions clock_1s cap_server_js
                              false)) [again; other; first] w1)
      as (H1 & H2 & _); [|split; [exact H1 | exact H2]].
    apply Forall_cons; [|apply Forall_cons; [|apply Forall_cons;
                                                 [|apply Forall_nil]]];
      intros dev Hacc; vm_compute in Hacc; injection Hacc as <-;
      (split; [vm_compute; reflexivity|]); vm_compute;
      repeat (constructor; [simpl; intuition discriminate|]); constructor.
Defined.

Lemma simple_flags vs : forall i,
  map snd (normalizedFrom false (map InNum vs) i) =
  map (fun v => Some (v =? 1)) vs.
Proof.
  unfold normalizedFrom.
  induction vs as [|v vs IH]; intros i; simpl; [reflexivity|].
  f_equal. apply IH.
Qed.

Lemma simple_available vs :
  availableOf (map InNum vs) =
  Z.of_nat (length (filter (fun v => v =? 0) vs)).
Proof.
  unfold availableOf. rewrite objectForm_simple. f_equal.
  induction vs as [|v vs IH]; simpl; [reflexivity|].
  destruct (v =? 0); simpl; now rewrite IH.
Qed.

Lemma length_filter_map {A B} (f : A -> B) (g : B -> bool) (l : list A) :
  length (filter g (map f l)) = length (filter (fun x => g (f x)) l).
Proof.
  induction l as [|x l IH]; simpl; [reflexivity|].
  destruct (g (f x)); simpl; now rewrite IH.
Qed.

Lemma bits_not_occupied vs :
  Forall (fun v => v = 0 \/ v = 1) vs ->
  length (filter (fun v => v =? 0) vs) =
  length (filter (fun o => flag_eq o (Some false))
            (map (fun v => Some (v =? 1)) vs)).
Proof.
  induction 1 as [|v vs [-> | ->] _ IH]; simpl; auto.
Qed.

(** The general behaviour behind C4: for a report in the simple array
    format the snapshot numbers the slots from 1, flags a slot occupied
    when its value is 1, takes the length as [totalSlots] and counts the
    zeros as [availableSlots]; when every value is 0 or 1 this count is
    the number of slots flagged not occupied. *)
Lemma simple_array_snapshot clk cap wib w dev vs :
  dev <> "" ->
  let w' := report clk cap wib w (simpleReport dev vs) in
  exists snap,
    JsMap.get (parkingData w') dev = Some snap /\
    map id (slots snap) = map (fun k => Z.of_nat k + 1) (seq 0 (length vs)) /\
    map occupied (slots snap) = map (fun v => Some (v =? 1)) vs /\
    totalSlots snap = Z.of_nat (length vs) /\
    availableSlots snap = Z.of_nat (length (filter (fun v => v =? 0) vs)) /\
    (Forall (fun v => v = 0 \/ v = 1) vs ->
     availableSlots snap =
     Z.of_nat (length (filter (fun s => flag_eq (occupied s) (Some false))
                         (slots snap)))).
Proof.
  intros Hne w'.
  destruct (post_snapshot clk cap wib (simpleReport dev vs) w eq_refl Hne
              (typeError_simple vs))
    as ((snap & G & _ & St & Tot & Av) & _).
  fold w' in G. exists snap. simpl in St, Tot, Av.
  rewrite objectForm_simple in St, Tot.
  assert (Hocc : map occupied (slots snap) = map (fun v => Some (v =? 1)) vs).
  { replace (map occupied (slots snap))
      with (map snd (map slotState (slots snap)))
      by (rewrite map_map; reflexivity).
    rewrite St. apply simple_flags. }
  repeat split; auto.
  - rewrite map_id_slotState, St. apply simple_keys.
  - rewrite Tot. unfold normalizedFrom.
    now rewrite length_map, length_combine, length_seq, !length_map,
      Nat.min_id.
  - rewrite Av. apply simple_available.
  - intros Hbits. rewrite Av, simple_available. f_equal.
    rewrite (bits_not_occupied Hbits), <- Hocc.
    apply length_filter_map.
Qed.

(** C4.  The report [{deviceId: "D2", slots: [2]}] on the empty state:
    the slot is stored with identifier 1 and [occupied = false], since 2
    is not 1, and [totalSlots] is 1, but [availableSlots] is 0, since 2 is
    not 0 either: the count of available slots is not the number of
    stored slots that are not occupied. *)
Theorem simple_array_available_mismatch :
  let w' := report clock_1s cap_server_js false empty_world
              (simpleReport "D2" [2]) in
  exists snap,
    JsMap.get (parkingData w') "D2" = Some snap /\
    map slotState (slots snap) = [(1, Some false)] /\
    totalSlots snap = 1 /\
    availableSlots snap = 0 /\
    Z.of_nat (length (filter (fun s => flag_eq (occupied s) (Some false))
                        (slots snap))) = 1.
Proof.
  vm_compute. eexists. repeat split.
Qed.

(** ** The claims on the dashboard *)

Lemma availableOf_bounds arr :
  0 <= availableOf arr <= Z.of_nat (length arr).
Proof.
  unfold availableOf. destruct (objectForm arr);
    (split; [lia | apply inj_le, filter_length_le]).
Qed.

(** Every stored snapshot counts no more available slots than slots. *)
Lemma snapshot_counts clk tzOffset cap wib calls snap :
  In snap (JsMap.values (parkingData (run clk tzOffset cap wib calls))) ->
  0 <= availableSlots snap <= totalSlots snap.
Proof.
  revert snap.
  apply run_ind with
    (I := fun w => forall snap, In snap (JsMap.values (parkingData w)) ->
                                0 <= availableSlots snap <= totalSlots snap).
  - intros snap [].
  - intros w c IH snap Hin. destruct c as [req|q| | |n].
    + simpl in Hin.
      destruct (b_deviceId (body req)) as [dev|] eqn:Hd.
      * destruct (String.eqb dev "") eqn:E.
        { apply String.eqb_eq in E. subst dev. unfold report in Hin.
          rewrite post_rejected in Hin by auto. now apply IH. }
        assert (Hne : dev <> "")
          by (intros ->; now rewrite String.eqb_refl in E).
        destruct (typeError (b_slots (body req))) as [msg|] eqn:Hte.
        { unfold report in Hin.
          rewrite (post_thrown clk cap wib req w Hd Hne Hte) in Hin.
          now apply IH. }
        destruct (post_snapshot clk cap wib req w Hd Hne Hte)
          as ((snap0 & G & _ & St & Tot & Av) & _ & Hval).
        destruct (Hval snap Hin) as [G'|Hold]; [|now apply IH].
        rewrite G in G'. injection G' as <-. rewrite Tot, Av.
        destruct (b_slots (body req)) as [arr|]; simpl; [|lia].
        unfold normalizedFrom.
        rewrite length_map, length_combine, length_seq, Nat.min_id.
        apply availableOf_bounds.
      * unfold report in Hin. rewrite post_rejected in Hin by auto.
        now apply IH.
    + destruct (@read_only clk tzOffset cap wib w (GetStatus q)) as [E _];
        [discriminate|]. rewrite E in Hin. now apply IH.
    + destruct (@read_only clk tzOffset cap wib w GetHealth) as [E _];
        [discriminate|]. rewrite E in Hin. now apply IH.
    + destruct (@read_only clk tzOffset cap wib w GetDashboard) as [E _];
        [discriminate|]. rewrite E in Hin. now apply IH.
    + now apply IH.
Qed.

(** *** Doubles *)

(** [round64] gives the doubles of the binary64 of the Standard Library:
    the two agree on the share of every [part] in every [total] up to 40
    (and on the operands beyond 1, where the rates do not come). *)
Example round64_agrees_with_binary64 :
  forallb
    (fun total =>
       forallb
         (fun part =>
            Qeq_bool (share64 (Z.of_nat part) (Z.of_nat total))
              (share (Z.of_nat part) (Z.of_nat total)))
         (seq 0 48))
    (seq 1 40)
  = true.
Proof. vm_compute. reflexivity. Qed.

(** 23 slots of 80: the exact share is 28.75, the double is just below
    it, and [toFixed(1)] prints 28.7. *)
Example share_23_of_80 :
  percentage 23 80 = RateFixed 287
  /\ toFixed1 (inject_Z 23 / inject_Z 80 * 100) = 288
  /\ (share 23 80 < 2875 # 100)%Q.
Proof. vm_compute. repeat split; reflexivity. Qed.

Lemma nearestEven_spec (y : Q) :
  (y - (1 # 2) <= inject_Z (nearestEven y) <= y + (1 # 2))%Q.
Proof.
  unfold nearestEven.
  pose proof (Qfloor_le y) as Hlo. pose proof (Qlt_floor y) as Hhi.
  rewrite inject_Z_plus in Hhi. change (inject_Z 1) with 1%Q in Hhi.
  destruct (Qcompare_spec (y - inject_Z (Qfloor y)) (1 # 2)) as [E|E|E].
  - destruct (Z.even (Qfloor y)).
    + lra.
    + rewrite inject_Z_plus. change (inject_Z 1) with 1%Q. lra.
  - lra.
  - rewrite inject_Z_plus. change (inject_Z 1) with 1%Q. lra.
Qed.

Lemma nearestEven_le (y : Q) (k : Z) :
  (y <= inject_Z k)%Q -> nearestEven y <= k.
Proof.
  intros H. unfold nearestEven.
  pose proof (Qfloor_le y) as Hlo.
  assert (Hf : Qfloor y <= k).
  { rewrite Zle_Qle. lra. }
  assert (Hup : (1 # 2 <= y - inject_Z (Qfloor y))%Q -> Qfloor y + 1 <= k).
  { intros Hh. assert (Qfloor y < k); [|lia]. rewrite Zlt_Qlt. lra. }
  destruct (Qcompare_spec (y - inject_Z (Qfloor y)) (1 # 2)) as [E|E|E].
  - destruct (Z.even (Qfloor y)); [exact Hf|]. apply Hup. lra.
  - exact Hf.
  - apply Hup. lra.
Qed.

Lemma binade_le (x : Q) : (0 < x)%Q -> (2 ^ binade x <= x)%Q.
Proof.
  intros Hx. unfold binade.
  set (e := Z.log2 (Qnum x) - Z.log2 (Zpos (Qden x))).
  destruct (Qle_bool (2 ^ e) x) eqn:E; [now apply Qle_bool_iff|].
  destruct x as [a b]. unfold Qlt in Hx. simpl in Hx.
  change (Qnum (a # b)) with a in e. change (Qden (a # b)) with b in e.
  rewrite Z.mul_1_r in Hx.
  pose proof (Z.log2_spec a Hx) as [Ha _].
  pose proof (Z.log2_spec (Zpos b) eq_refl) as [_ Hb].
  pose proof (Z.log2_nonneg a) as Na.
  pose proof (Z.log2_nonneg (Zpos b)) as Nb.
  replace (e - 1) with (Z.log2 a - Z.succ (Z.log2 (Zpos b))) by (unfold e; lia).
  rewrite Qpower_minus by discriminate.
  change 2%Q with (inject_Z 2).
  rewrite <- !Zpower_Qpower by lia.
  rewrite (Qmake_Qdiv a b).
  set (p := 2 ^ Z.log2 a) in *. set (q := 2 ^ Z.succ (Z.log2 (Zpos b))) in *.
  assert (Hp : 0 < p) by (unfold p; apply Z.pow_pos_nonneg; lia).
  assert (Hq : 0 < q) by lia.
  apply Qle_shift_div_l; [rewrite <- (Zlt_Qlt 0); reflexivity|].
  unfold Qdiv. rewrite <- Qmult_assoc, (Qmult_comm (/ _)), Qmult_assoc.
  apply Qle_shift_div_r; [now rewrite <- (Zlt_Qlt 0)|].
  rewrite <- !inject_Z_mult, <- Zle_Qle. nia.
Qed.

Lemma roundPos_error (x : Q) :
  (0 < x)%Q ->
  (x - x * epsilon64 <= roundPos x <= x + x * epsilon64)%Q.
Proof.
  intros Hx. unfold roundPos.
  pose proof (binade_le Hx) as He.
  set (e := binade x) in *.
  pose proof (nearestEven_spec (x * 2 ^ (52 - e))) as Hn.
  set (n := inject_Z (nearestEven (x * 2 ^ (52 - e)))) in *.
  assert (Hu : (0 < 2 ^ (e - 52))%Q) by (apply Qpower_0_lt; reflexivity).
  assert (Hsu : (2 ^ (52 - e) * 2 ^ (e - 52) == 1)%Q).
  { rewrite <- Qpower_plus by discriminate.
    replace (52 - e + (e - 52)) with 0 by lia. reflexivity. }
  assert (Hue : (2 ^ (e - 52) == 2 ^ e * (2 # 1) * epsilon64)%Q).
  { unfold Z.sub. rewrite Qpower_plus by discriminate.
    rewrite <- Qmult_assoc. apply Qmult_comp; reflexivity. }
  set (u := (2 ^ (e - 52))%Q) in *. set (s := (2 ^ (52 - e))%Q) in *.
  set (p := (2 ^ e)%Q) in *.
  assert (Hxe : (0 <= x * epsilon64 - p * epsilon64)%Q).
  { setoid_replace (x * epsilon64 - p * epsilon64)%Q
      with ((x - p) * epsilon64)%Q by ring.
    apply Qmult_le_0_compat; [lra | discriminate]. }
  assert (H1 : ((x * s - (1 # 2)) * u <= n * u)%Q)
    by (apply Qmult_le_compat_r; lra).
  assert (H2 : (n * u <= (x * s + (1 # 2)) * u)%Q)
    by (apply Qmult_le_compat_r; lra).
  setoid_replace ((x * s - (1 # 2)) * u)%Q
    with (x * (s * u) - (1 # 2) * u)%Q in H1 by ring.
  setoid_replace ((x * s + (1 # 2)) * u)%Q
    with (x * (s * u) + (1 # 2) * u)%Q in H2 by ring.
  rewrite Hsu in H1, H2.
  assert (Hhalf : ((1 # 2) * u == p * epsilon64)%Q)
    by (rewrite Hue; ring).
  rewrite Hhalf in H1, H2. lra.
Qed.

Lemma roundPos_le (x : Q) (B : Z) :
  (0 < x <= inject_Z B)%Q -> B < 2 ^ 53 ->
  (roundPos x <= inject_Z B)%Q.
Proof.
  intros [Hx HB] Hlt. unfold roundPos.
  pose proof (binade_le Hx) as He.
  set (e := binade x) in *.
  assert (Hes : e <= 52).
  { assert (e < 53); [|lia].
    apply Qpower_lt_compat_l_inv with (q := 2%Q); [|reflexivity].
    apply Qle_lt_trans with x; [exact He|].
    apply Qle_lt_trans with (inject_Z B); [exact HB|].
    change (2 ^ 53)%Q with (inject_Z (2 ^ 53)). now rewrite <- Zlt_Qlt. }
  assert (Hu : (0 < 2 ^ (e - 52))%Q) by (apply Qpower_0_lt; reflexivity).
  assert (Hs : (0 < 2 ^ (52 - e))%Q) by (apply Qpower_0_lt; reflexivity).
  assert (Hsu : (2 ^ (52 - e) * 2 ^ (e - 52) == 1)%Q).
  { rewrite <- Qpower_plus by discriminate.
    replace (52 - e + (e - 52)) with 0 by lia. reflexivity. }
  assert (Hn : nearestEven (x * 2 ^ (52 - e)) <= B * 2 ^ (52 - e)).
  { apply nearestEven_le. rewrite inject_Z_mult.
    rewrite Zpower_Qpower by lia. change (inject_Z 2) with 2%Q.
    apply Qmult_le_compat_r; [exact HB | now apply Qlt_le_weak]. }
  rewrite Zle_Qle, inject_Z_mult, Zpower_Qpower in Hn by lia.
  change (inject_Z 2) with 2%Q in Hn.
  apply Qmult_le_compat_r with (z := (2 ^ (e - 52))%Q) in Hn;
    [|now apply Qlt_le_weak].
  rewrite <- Qmult_assoc, Hsu, Qmult_1_r in Hn. exact Hn.
Qed.

Lemma roundPos_nonneg (x : Q) : (0 < x)%Q -> (0 <= roundPos x)%Q.
Proof.
  intros Hx. pose proof (roundPos_error Hx) as [H _].
  assert (0 <= x - x * epsilon64)%Q; [|lra].
  setoid_replace (x - x * epsilon64)%Q with (x * (1 - epsilon64))%Q by ring.
  apply Qmult_le_0_compat; [lra | discriminate].
Qed.

Lemma round64_pos (x : Q) : (0 < x)%Q -> round64 x = roundPos x.
Proof.
  intros Hx. unfold round64. destruct x as [[|a|a] b]; try reflexivity;
    now compute in Hx.
Qed.

Lemma round64_zero (x : Q) : (x == 0)%Q -> round64 x = 0%Q.
Proof.
  intros Hx. unfold round64. destruct x as [[|a|a] b]; try reflexivity;
    now compute in Hx.
Qed.

Lemma toFixed1_bounds (x : Q) :
  (0 <= x <= 100)%Q -> 0 <= toFixed1 x <= 1000.
Proof.
  intros [H0 H1]. unfold toFixed1.
  destruct (Qle_bool 0 x) eqn:E.
  - split.
    + change 0 with (Qfloor (0 * 10 + (1 # 2))).
      apply Qfloor_resp_le, Qplus_le_l, Qmult_le_compat_r; auto.
      discriminate.
    + change 1000 with (Qfloor (100 * 10 + (1 # 2))).
      apply Qfloor_resp_le, Qplus_le_l, Qmult_le_compat_r; auto.
      discriminate.
  - apply Qle_bool_iff in H0. congruence.
Qed.


Lemma share_zero (total : Z) : 0 < total -> share 0 total = 0%Q.
Proof.
  intros Ht. unfold share, js_div, js_mul.
  rewrite (@round64_zero (inject_Z 0 / inject_Z total)).
  - reflexivity.
  - unfold Qdiv. apply Qmult_0_l.
Qed.

Lemma share_error (part total : Z) :
  0 < part <= total ->
  let x := (inject_Z part / inject_Z total * 100)%Q in
  (0 <= share part total <= 100
   /\ x - 200 * epsilon64 <= share part total <= x + 200 * epsilon64)%Q.
Proof.
  intros [Hp Ht] x. unfold share, js_div, js_mul.
  set (q := (inject_Z part / inject_Z total)%Q) in *.
  assert (HT : (0 < inject_Z total)%Q) by (rewrite <- (Zlt_Qlt 0); lia).
  assert (Hq : (0 < q <= 1)%Q).
  { split.
    - apply Qlt_shift_div_l; [exact HT|]. rewrite Qmult_0_l.
      now rewrite <- (Zlt_Qlt 0).
    - apply Qle_shift_div_r; [exact HT|]. rewrite Qmult_1_l.
      now rewrite <- Zle_Qle. }
  destruct Hq as [Hq0 Hq1].
  rewrite (round64_pos Hq0).
  pose proof (roundPos_error Hq0) as [E1 E2].
  pose proof (@roundPos_le q 1 (conj Hq0 Hq1) eq_refl) as B1.
  change (inject_Z 1) with 1%Q in B1.
  set (d := roundPos q) in *.
  assert (Heps : (0 <= epsilon64)%Q) by discriminate.
  assert (Hqe : (q * epsilon64 <= epsilon64)%Q).
  { rewrite <- (Qmult_1_l epsilon64) at 2.
    now apply Qmult_le_compat_r. }
  assert (Hd0 : (0 < d)%Q).
  { apply Qlt_le_trans with (q - q * epsilon64)%Q; [|exact E1].
    setoid_replace (q - q * epsilon64)%Q with (q * (1 - epsilon64))%Q
      by ring.
    apply Qmult_lt_0_compat; [exact Hq0 | reflexivity]. }
  assert (Hp0 : (0 < d * 100)%Q) by lra.
  assert (Hp1 : (d * 100 <= inject_Z 100)%Q)
    by (change (inject_Z 100) with 100%Q; lra).
  rewrite (round64_pos Hp0).
  pose proof (roundPos_error Hp0) as [F1 F2].
  pose proof (@roundPos_le (d * 100) 100 (conj Hp0 Hp1) eq_refl) as B2.
  pose proof (roundPos_nonneg Hp0) as N2.
  change (inject_Z 100) with 100%Q in B2.
  assert (Hpe : (d * 100 * epsilon64 <= 100 * epsilon64)%Q)
    by (apply Qmult_le_compat_r; [lra | exact Heps]).
  unfold x. repeat split; lra.
Qed.

Lemma share_range (part total : Z) :
  0 <= part <= total -> 0 < total -> (0 <= share part total <= 100)%Q.
Proof.
  intros [Hp Ht] Hpos. destruct (Z.eq_dec part 0) as [->|Hne].
  - rewrite share_zero by exact Hpos. split; discriminate.
  - apply share_error. lia.
Qed.




(** *** The hourly pattern *)

Lemma hourMs_pos : 0 < hourMs.
Proof. reflexivity. Qed.

Lemma getUTCHours_range t : 0 <= getUTCHours t < 24.
Proof. unfold getUTCHours. apply Z.mod_pos_bound. lia. Qed.

(** Going back [i] hours moves the hour of the day back by [i]. *)
Lemma getUTCHours_back t i :
  getUTCHours (t - i * hourMs) = (getUTCHours t - i) mod 24.
Proof.
  unfold getUTCHours.
  replace (t - i * hourMs) with (t + (- i) * hourMs) by ring.
  rewrite Z_div_plus_full by (pose proof hourMs_pos; lia).
  rewrite Zminus_mod_idemp_l. reflexivity.
Qed.

Lemma fold_left_ext_in {A B} (f g : A -> B -> A) (l : list B) :
  (forall a x, In x l -> f a x = g a x) ->
  forall a, fold_left f l a = fold_left g l a.
Proof.
  induction l as [|x l IH]; intros H a; simpl; [reflexivity|].
  rewrite (H a x) by now left. apply IH. intros a' y Hy. apply H. now right.
Qed.

(** The 24 hours before any hour of the day are all the hours of the
    day: the loop that creates the buckets creates one for each. *)
Lemma seed_full {V} (mk : Z -> V) (r : Z) :
  0 <= r < 24 ->
  fold_left
    (fun pattern i =>
       IntObj.set pattern ((r - i) mod 24) (mk ((r - i) mod 24)))
    (upto 24) [] =
  map (fun h => (h, mk h)) (upto 24).
Proof.
  intros Hr. rewrite <- (Z2Nat.id r) by lia.
  assert (Hn : (Z.to_nat r < 24)%nat) by lia.
  revert Hn. generalize (Z.to_nat r). intros n Hn.
  do 24 (destruct n as [|n]; [vm_compute; reflexivity|]). lia.
Qed.

Lemma seedHours_full tzOffset now :
  steadyZone tzOffset now ->
  seedHours tzOffset now = map (fun h => (h, mkHourBucket h 0 0)) (upto 24).
Proof.
  intros Hz. unfold seedHours.
  rewrite <- (seed_full (fun h => mkHourBucket h 0 0)
                (getUTCHours_range (now + tzOffset now))).
  apply fold_left_ext_in. intros pattern i Hi. unfold getHours.
  rewrite (Hz i Hi).
  replace (now - i * hourMs + tzOffset now)
    with (now + tzOffset now - i * hourMs) by ring.
  now rewrite getUTCHours_back.
Qed.

Lemma seedHoursWIB_full nowWIB :
  seedHoursWIB nowWIB =
  map (fun h => (h, mkHourBucketWIB h 0 0 0)) (upto 24).
Proof.
  unfold seedHoursWIB.
  rewrite <- (seed_full (fun h => mkHourBucketWIB h 0 0 0)
                (getUTCHours_range nowWIB)).
  apply fold_left_ext_in. intros pattern i _.
  now rewrite getUTCHours_back.
Qed.

Lemma hour_in_upto h : 0 <= h < 24 -> In h (upto 24).
Proof.
  intros H. unfold upto. apply in_map_iff. exists (Z.to_nat h).
  split; [lia|]. apply in_seq. lia.
Qed.

(** Sorting by a key a list whose keys already ascend changes nothing. *)
Lemma sortBy_sorted {A} (key : A -> Z) (l : list A) :
  Sorted Z.le (map key l) ->
  sortBy (fun a b => key a - key b) l = l.
Proof.
  induction l as [|x l IH]; simpl; [reflexivity|].
  intros H. inversion H as [|? ? Hs Hd]; subst.
  unfold sortBy in *. simpl. rewrite (IH Hs).
  destruct l as [|y l]; simpl; [reflexivity|].
  inversion Hd; subst. destruct (key x - key y <=? 0) eqn:E; auto.
  apply Z.leb_gt in E. lia.
Qed.

Lemma upto_24_sorted : Sorted Z.le (upto 24).
Proof. vm_compute. repeat constructor; discriminate. Qed.

Section HourlyFacts.

Variable tzOffset : Time -> Z.

Let activity (b : HourBucket) : Z := occupations b + releases b.
Let counted (b : HourBucket) : Prop := 0 <= occupations b /\ 0 <= releases b.

(** The scan of [server.js] never meets a missing bucket, and each entry
    adds one to the activity of one bucket. *)
Lemma countHour_scan logs : forall o c,
  IntObj.keys o = upto 24 ->
  map hour (IntObj.values o) = upto 24 ->
  Forall counted (IntObj.values o) ->
  sumZ (map activity (IntObj.values o)) = c ->
  exists o',
    fold_left (countHour tzOffset) logs (Some o) = Some o' /\
    IntObj.keys o' = upto 24 /\
    map hour (IntObj.values o') = upto 24 /\
    Forall counted (IntObj.values o') /\
    sumZ (map activity (IntObj.values o')) = c + Z.of_nat (length logs).
Proof.
  induction logs as [|log logs IH]; intros o c Hk Hh Hc Hs;
    cbn [fold_left length].
  - exists o. repeat split; auto. simpl. lia.
  - unfold countHour at 2.
    set (h := getHours tzOffset (timestamp log)).
    assert (Hin : In h (IntObj.keys o))
      by (rewrite Hk; apply hour_in_upto, getUTCHours_range).
    apply IntObjFacts.get_In_keys in Hin.
    destruct (IntObj.get o h) as [b|] eqn:G; [clear Hin|congruence].
    pose proof (@IntObjFacts.get_In_values _ _ _ _ G) as Hb.
    rewrite Forall_forall in Hc. pose proof (Hc b Hb) as [Hb1 Hb2].
    rewrite <- Forall_forall in Hc.
    rewrite (@IntObjFacts.set_present _ _ _ _ _ G).
    match goal with
    | |- context [IntObj.replace o h ?b'] =>
        destruct (IH (IntObj.replace o h b') (c + 1)) as (o' & E & R)
    end.
    + now rewrite IntObjFacts.keys_replace.
    + rewrite (@IntObjFacts.map_values_replace _ _ hour _ _ _ _ G); auto.
      now destruct (flag_eq (newState log) (Some true)).
    + apply IntObjFacts.Forall_values_replace; auto.
      destruct (flag_eq (newState log) (Some true)); split; simpl; lia.
    + rewrite (@IntObjFacts.sum_values_replace _ activity _ _ _ _ G), Hs.
      destruct (flag_eq (newState log) (Some true));
        unfold activity; simpl; lia.
    + exists o'. split; [exact E|].
      replace (c + Z.of_nat (S (length logs)))
        with (c + 1 + Z.of_nat (length logs)) by lia.
      exact R.
Qed.

Let activityWIB (b : HourBucketWIB) : Z := w_occupations b + w_releases b.
Let countedWIB (b : HourBucketWIB) : Prop :=
  0 <= w_occupations b /\ 0 <= w_releases b.

Lemma countHourWIB_scan logs : forall o c,
  IntObj.keys o = upto 24 ->
  map w_hour (IntObj.values o) = upto 24 ->
  Forall countedWIB (IntObj.values o) ->
  sumZ (map activityWIB (IntObj.values o)) = c ->
  let o' := fold_left countHourWIB logs o in
  IntObj.keys o' = upto 24 /\
  map w_hour (IntObj.values o') = upto 24 /\
  Forall countedWIB (IntObj.values o') /\
  sumZ (map activityWIB (IntObj.values o')) = c + Z.of_nat (length logs).
Proof.
  induction logs as [|log logs IH]; intros o c Hk Hh Hc Hs;
    cbn [fold_left length].
  - repeat split; auto. simpl. lia.
  - set (h := getUTCHours (convertToWIB (timestamp log))).
    assert (Hin : In h (IntObj.keys o))
      by (rewrite Hk; apply hour_in_upto, getUTCHours_range).
    apply IntObjFacts.get_In_keys in Hin.
    destruct (IntObj.get o h) as [b|] eqn:G; [clear Hin|congruence].
    pose proof (@IntObjFacts.get_In_values _ _ _ _ G) as Hb.
    rewrite Forall_forall in Hc. pose proof (Hc b Hb) as [Hb1 Hb2].
    rewrite <- Forall_forall in Hc.
    assert (E : countHourWIB o log =
                IntObj.replace o h
                  (if flag_eq (newState log) (Some true)
                   then mkHourBucketWIB (w_hour b) (w_occupations b + 1)
                          (w_releases b) (w_netChange b + 1)
                   else mkHourBucketWIB (w_hour b) (w_occupations b)
                          (w_releases b + 1) (w_netChange b - 1))).
    { unfold countHourWIB. fold h. rewrite G.
      apply (@IntObjFacts.set_present _ _ _ _ _ G). }
    rewrite E.
    replace (c + Z.of_nat (S (length logs)))
      with (c + 1 + Z.of_nat (length logs)) by lia.
    apply IH.
    + now rewrite IntObjFacts.keys_replace.
    + rewrite (@IntObjFacts.map_values_replace _ _ w_hour _ _ _ _ G); auto.
      now destruct (flag_eq (newState log) (Some true)).
    + apply IntObjFacts.Forall_values_replace; auto.
      destruct (flag_eq (newState log) (Some true)); split; simpl; lia.
    + rewrite (@IntObjFacts.sum_values_replace _ activityWIB _ _ _ _ G), Hs.
      destruct (flag_eq (newState log) (Some true));
        unfold activityWIB; simpl; lia.
Qed.

End HourlyFacts.

Lemma full_pattern_counted :
  Forall (fun b => 0 <= occupations b /\ 0 <= releases b)
    (IntObj.values (map (fun h => (h, mkHourBucket h 0 0)) (upto 24))).
Proof. vm_compute. repeat constructor; discriminate. Qed.

Lemma full_pattern_countedWIB :
  Forall (fun b => 0 <= w_occupations b /\ 0 <= w_releases b)
    (IntObj.values (map (fun h => (h, mkHourBucketWIB h 0 0 0)) (upto 24))).
Proof. vm_compute. repeat constructor; discriminate. Qed.

(** At the end of a summer time the 24 instants for which the dashboard
    of [server.js] creates its buckets fall in 23 hours of the day only.
    A slot that flips 24 hours before the request, in the hour that is
    left out, makes the scan read a bucket that does not exist: the
    handler fails and answers with status 500. *)
Lemma hourly_pattern_fails_when_clocks_set_back :
  let calls := [PostStatus (simpleReport "D1" [0]);
                PostStatus (simpleReport "D1" [1])] in
  let w := run setBackClock setBackZone cap_server_js false calls in
  let now := 48 * hourMs + 1800000 in
  map timestamp (slotHistory w) = [24 * hourMs + 1800000]
  /\ map (fun i => getHours setBackZone (now - i * hourMs)) (upto 24)
     = [0; 23; 22; 21; 20; 19; 18; 17; 16; 15; 14; 13; 12; 12; 11; 10; 9; 8;
        7; 6; 5; 4; 3; 2]
  /\ getHours setBackZone (24 * hourMs + 1800000) = 1
  /\ hourlyPattern setBackZone now (slotHistory w) = None
  /\ dashboardData setBackZone now (parkingData w) (slotHistory w) = None
  /\ status (fst (get_admin_dashboard setBackClock setBackZone w)) = 500.
Proof. vm_compute. repeat split; reflexivity. Qed.

(** C6.  When the zone of the process has the same offset at the 24
    instants for which the buckets are created, then for every content of
    the two stores the hourly pattern of the dashboard of [server.js] is
    computed without a failure and lists one bucket for each of the hours
    0 to 23, in this order; no count is negative; and the occupations and
    releases of all the buckets add up to the number of history entries
    whose time stamp is not older than 24 hours, which is
    [last24hChanges] of the same answer.  The pattern of the WIB variant,
    which reads no zone, has these properties at every instant. *)
Theorem hourly_pattern_complete tzOffset now nowWIB store history :
  steadyZone tzOffset now ->
  (exists out data,
      hourlyPattern tzOffset now history = Some out /\
      dashboardData tzOffset now store history = Some data /\
      dd_hourlyPattern data = out /\
      map hour out = upto 24 /\
      Forall (fun b => 0 <= occupations b /\ 0 <= releases b) out /\
      sumZ (map (fun b => occupations b + releases b) out)
      = Z.of_nat (length (since (now - dayMs) history)) /\
      sumZ (map (fun b => occupations b + releases b) out)
      = last24hChanges (dd_systemStats data))
  /\
  (let out := hourlyPatternWIB now nowWIB history in
   map w_hour out = upto 24 /\
   Forall (fun b => 0 <= w_occupations b /\ 0 <= w_releases b) out /\
   sumZ (map (fun b => w_occupations b + w_releases b) out)
   = Z.of_nat (length (since (now - dayMs) history))).
Proof.
  intros Hz. split.
  - destruct (@countHour_scan tzOffset (since (now - dayMs) history)
                (map (fun h => (h, mkHourBucket h 0 0)) (upto 24)) 0
                eq_refl eq_refl full_pattern_counted eq_refl)
      as (o' & E & Hk & Hh & Hc & Hs).
    assert (Hp : hourlyPattern tzOffset now history
                 = Some (IntObj.values o')).
    { unfold hourlyPattern. rewrite (seedHours_full Hz), E. f_equal.
      apply sortBy_sorted. rewrite Hh. apply upto_24_sorted. }
    exists (IntObj.values o'). eexists. split; [exact Hp|].
    unfold dashboardData. rewrite Hp. split; [reflexivity|].
    cbn [dd_hourlyPattern dd_systemStats systemStats last24hChanges].
    repeat split; auto.
  - intros out. unfold out, hourlyPatternWIB. rewrite seedHoursWIB_full.
    destruct (@countHourWIB_scan (since (now - dayMs) history)
                (map (fun h => (h, mkHourBucketWIB h 0 0 0)) (upto 24)) 0
                eq_refl eq_refl full_pattern_countedWIB eq_refl)
      as (Hk & Hh & Hc & Hs).
    rewrite sortBy_sorted by (rewrite Hh; apply upto_24_sorted).
    repeat split; auto.
Qed.

(** The request of the counterexample, served in a zone that keeps its
    offset: seven hours ahead of UTC at every instant. *)
Lemma hourly_pattern_complete_witness :
  let tz := fun _ : Time => 7 * hourMs in
  let calls := [PostStatus (simpleReport "D1" [0]);
                PostStatus (simpleReport "D1" [1])] in
  let w := run setBackClock tz cap_server_js false calls in
  let now := 48 * hourMs + 1800000 in
  steadyZone tz now
  /\ exists out,
       hourlyPattern tz now (slotHistory w) = Some out
       /\ map hour out = upto 24
       /\ sumZ (map (fun b => occupations b + releases b) out) = 1.
Proof.
  intros tz calls w now.
  assert (Hz : steadyZone tz now) by (intros i _; reflexivity).
  split; [exact Hz|].
  destruct (@hourly_pattern_complete tz now now (parkingData w)
              (slotHistory w) Hz)
    as [(out & data & Hp & _ & _ & Hh & _ & Hs & _) _].
  exists out. split; [exact Hp|]. split; [exact Hh|].
  rewrite Hs. reflexivity.
Defined.

(** *** Durations of zero *)

Lemma changeOfLog_forgetZero log :
  changeOfLog (forgetZeroDuration log) = changeOfLog log.
Proof.
  unfold forgetZeroDuration, changeOfLog.
  destruct (duration log) as [[|d|d]|] eqn:E; simpl; rewrite ?E; reflexivity.
Qed.

Lemma analyzeLog_forgetZero last24Hours last7Days stats log :
  analyzeLog last24Hours last7Days stats (forgetZeroDuration log) =
  analyzeLog last24Hours last7Days stats log.
Proof.
  unfold forgetZeroDuration.
  destruct (duration log) as [[|d|d]|] eqn:E; try reflexivity.
  unfold analyzeLog, addDuration, countOccupation. simpl. rewrite E. simpl.
  rewrite andb_false_r. reflexivity.
Qed.

Lemma fold_left_map {A B C} (f : A -> C -> A) (g : B -> C) (l : list B) :
  forall a, fold_left f (map g l) a = fold_left (fun a x => f a (g x)) l a.
Proof. induction l as [|x l IH]; intros a; simpl; auto. Qed.

Lemma slice_last_map {A B} (f : A -> B) n (l : list A) :
  slice_last n (map f l) = map f (slice_last n l).
Proof. unfold slice_last. now rewrite length_map, skipn_map. Qed.

(** C10.  An entry whose recorded duration is exactly 0 is shown with
    duration [null] in the recent changes and adds nothing to
    [totalDuration]; both views of the dashboard are the ones obtained
    from the history in which every duration of 0 is replaced by
    [null]. *)
Theorem zero_duration_ignored :
  (forall log, duration log = Some 0 -> c_duration (changeOfLog log) = None)
  /\ (forall log st,
        duration log = Some 0 ->
        totalDuration (addDuration log st) = totalDuration st)
  /\ (forall history,
        recentChanges (map forgetZeroDuration history)
        = recentChanges history)
  /\ (forall now store history,
        slotUsageStats now store (map forgetZeroDuration history)
        = slotUsageStats now store history).
Proof.
  repeat split.
  - intros log E. unfold changeOfLog. now rewrite E.
  - intros log st E. unfold addDuration. rewrite E. simpl.
    now rewrite andb_false_r.
  - intros history. unfold recentChanges.
    rewrite slice_last_map, <- map_rev, map_map.
    apply map_ext, changeOfLog_forgetZero.
  - intros now store history. unfold slotUsageStats. f_equal.
    rewrite fold_left_map. apply fold_left_ext_in.
    intros stats log _. apply analyzeLog_forgetZero.
Qed.

(** A duration of 0 arises when the slot is freed at the instant, to the
    millisecond, at which it was occupied: here on a clock that stands
    still. *)
Lemma zero_duration_ignored_witness :
  let calls :=
    map PostStatus
      [simpleReport "D1" [0]; simpleReport "D1" [1]; simpleReport "D1" [0]] in
  let h := slotHistory (run (fun _ => 7) utc cap_server_js false calls) in
  exists log,
    lastOf h = Some log /\ duration log = Some 0
    /\ c_duration (changeOfLog log) = None.
Proof.
  intros calls h. vm_compute in h.
  eexists. split; [reflexivity|]. split; [reflexivity|].
  apply (proj1 zero_duration_ignored). reflexivity.
Defined.

(** ** The shape of the responses *)

(** C8, as stated, fails: the answer of the health check has no [success]
    property (it reports [status], [timestamp] and two counts), and the
    400 answer to a report without device id is [{error}] alone. *)
Lemma unstructured_responses :
  structured (fst (get_health clock_1s empty_world)) = false
  /\ structured
       (fst (post_parking_status clock_1s cap_server_js false
               (mkRequest (mkBody None None None (Some [InNum 0])) None)
               empty_world)) = false.
Proof. split; reflexivity. Qed.

(** C8, amended.  The answers to a report with a device id (status 200,
    or 500 from the error middleware where the handler throws on the
    slots), to [GET /api/parking-status] (found, not found, all devices),
    to the dashboard (200 and 500), of the 404 handler and of the error
    middleware are structured: a boolean [success] together with [data]
    or [error].  The health check answers with [status], [timestamp],
    [connectedDevices] and [totalHistoryLogs] instead. *)
Theorem responses_structured clk tzOffset cap wib :
  (forall req w dev,
      b_deviceId (body req) = Some dev -> dev <> "" ->
      let r := fst (post_parking_status clk cap wib req w) in
      status r = match typeError (b_slots (body req)) with
                 | Some _ => 500
                 | None => 200
                 end
      /\ structured r = true)
  /\ (forall q w, structured (fst (get_parking_status clk q w)) = true)
  /\ (forall w, structured (fst (get_admin_dashboard clk tzOffset w)) = true)
  /\ (forall message development,
        structured (error_handler message development) = true)
  /\ structured not_found_handler = true
  /\ (forall w,
        map fst (json (fst (get_health clk w)))
        = ["status"; "timestamp"; "connectedDevices"; "totalHistoryLogs"]).
Proof.
  split; [|repeat split].
  - intros req w dev Hd Hne.
    destruct (typeError (b_slots (body req))) as [msg|] eqn:Hte.
    { rewrite (post_thrown clk cap wib req w Hd Hne Hte).
      split; reflexivity. }
    destruct (post_valid clk cap wib req w Hd Hne Hte)
      as (now & cur & wt & ts & t & Eq).
    rewrite Eq. split; reflexivity.
  - intros q w. unfold get_parking_status. rewrite bind_run. simpl.
    destruct q as [dev|]; [destruct (String.eqb dev "")|];
      try reflexivity.
    destruct (JsMap.get (parkingData w) dev); reflexivity.
  - intros w. unfold get_admin_dashboard. rewrite !bind_run. simpl.
    destruct (dashboardData _ _ _ _); reflexivity.
Qed.

Lemma responses_structured_witness :
  let r := fst (post_parking_status clock_1s cap_server_js false
                  (simpleReport "D1" [0; 1]) empty_world) in
  status r = 200 /\ structured r = true.
Proof.
  apply (proj1 (responses_structured clock_1s utc cap_server_js false)
           (simpleReport "D1" [0; 1]) empty_world "D1" eq_refl).
  discriminate.
Defined.

(** ** The alternation of the history of a slot *)















Section AlternationFacts.

Variable clk : nat -> Time.
Variable tzOffset : Time -> Z.
Variable cap : Z.
Variable wib : bool.







End AlternationFacts.


(** The other way to break the alternation: a report that lists the same
    identifier twice is compared twice with the same previous slot, and
    logs the same flip twice. *)
Example alternation_broken_by_repeated_id :
  let calls :=
    map PostStatus
      [objectReport "D1" [(1, false)];
       objectReport "D1" [(1, true); (1, true)]] in
  let h := slotHistory (run clock_1s utc cap_server_js false calls) in
  map newState (eventsOf "D1" 1 h) = [Some true; Some true]
  /\ alternating (eventsOf "D1" 1 h) = false.
Proof. vm_compute. split; reflexivity. Qed.



(** ** The scenarios of the specification, evaluated *)

(** The first report of D1 gives one slot of two available and logs
    nothing; the second logs one entry for slot 1, from available to
    occupied. *)
Example scenario_two_reports :
  let first := objectReport "D1" [(1, false); (2, true)] in
  let second := objectReport "D1" [(1, true); (2, true)] in
  let w1 := report clock_1s cap_server_js false empty_world first in
  let w2 := report clock_1s cap_server_js false w1 second in
  option_map (fun d => (availableSlots d, totalSlots d))
    (JsMap.get (parkingData w1) "D1") = Some (1, 2)
  /\ slotHistory w1 = []
  /\ map (fun e => (deviceId e, slotId e, previousState e, newState e))
       (slotHistory w2)
     = [("D1", 1, Some false, Some true)].
Proof. vm_compute. repeat split. Qed.

(** The report [{deviceId: "D2", slots: [0, 1, 0]}] gives three slots
    numbered 1 to 3, the second one occupied, two of them available. *)
Example scenario_simple_array :
  let w := report clock_1s cap_server_js false empty_world
             (simpleReport "D2" [0; 1; 0]) in
  option_map (fun d => (map slotState (slots d), availableSlots d))
    (JsMap.get (parkingData w) "D2")
  = Some ([(1, Some false); (2, Some true); (3, Some false)], 2).
Proof. reflexivity. Qed.

(** A slot of D1 becomes occupied at 4000 and available at 8000 on a clock
    that advances by a second at each reading: the duration is taken from
    the reading that follows the time stamp, 9000.  On a clock that stands
    still between these two readings (it advances by four seconds every
    five readings) the duration is the difference of the time stamps. *)
Example scenario_duration :
  let calls :=
    map PostStatus
      [simpleReport "D1" [0]; simpleReport "D1" [1]; simpleReport "D1" [0]] in
  map (fun e => (timestamp e, duration e))
    (slotHistory (run clock_1s utc cap_server_js false calls))
  = [(4000, None); (8000, Some 5000)]
  /\ map (fun e => (timestamp e, duration e))
       (slotHistory (run (fun n => 4000 * Z.of_nat (n / 5)) utc cap_server_js
                       false calls))
     = [(0, None); (4000, Some 4000)].
Proof. vm_compute. split; reflexivity. Qed.

(** With a bound of two entries the third flip evicts the first. *)
Example scenario_eviction :
  let calls :=
    map PostStatus
      [simpleReport "D1" [0; 0; 0]; simpleReport "D1" [1; 1; 1]] in
  map slotId (slotHistory (run clock_1s utc 2 false calls)) = [2; 3].
Proof. reflexivity. Qed.

(** * Further properties

    ** One slot of a report, with the readings of the clock *)

Section StepFacts.

Variable clk : nat -> Time.
Variable cap : Z.
Variable wib : bool.

Lemma later_refl w : later w w.
Proof. split; [apply same_stores_refl | lia]. Qed.

Lemma later_trans w1 w2 w3 : later w1 w2 -> later w2 w3 -> later w1 w3.
Proof.
  intros [A B] [C D]. split; [eapply same_stores_trans; eauto | lia].
Qed.

Lemma later_new_Date w : later w (snd (new_Date clk w)).
Proof. split; [split; reflexivity | simpl; lia]. Qed.

(** [logSlotChange] reads the clock for the time stamp at least. *)
Lemma logSlotChange_ticks dev sid p n ip w :
  let w' := snd (logSlotChange clk cap wib dev sid p n ip w) in
  parkingData w' = parkingData w
  /\ slotHistory w' =
     trim cap (slotHistory w ++ [loggedEntry clk wib w dev sid p n ip])
  /\ (S (stampTick wib w) <= ticks w')%nat.
Proof.
  unfold logSlotChange, loggedEntry, stampTick, wibTimeNow,
    getCurrentWIBTime, trim, bind, ret, new_Date, get_history, put_history.
  destruct wib; simpl;
    destruct (flag_eq p (Some true) && flag_eq n (Some false)); simpl;
    try destruct (findLastOccupied dev sid (slotHistory w)); simpl;
    match goal with
    | |- context [cap <? ?n] => destruct (cap <? n)
    end; simpl; repeat split; lia.
Qed.

(** What the callback of [slots.map] does with one element: it may read
    the clock, and then either leaves the state as it is, or logs the flip
    of the slot found in the previous snapshot. *)
Lemma slot_step (form : bool) dev ip previousSlots x i w :
  let r := callback clk cap wib form dev ip previousSlots x i w in
  slotState (fst r) = (slotKey form x i, slotFlag form x)
  /\ exists w1,
       later w w1 /\
       match find (fun p => id p =? slotKey form x i) previousSlots with
       | Some p =>
           if flag_eq (occupied p) (slotFlag form x) then snd r = w1
           else
             parkingData (snd r) = parkingData w1
             /\ slotHistory (snd r) =
                trim cap (slotHistory w1
                          ++ [loggedEntry clk wib w1 dev (slotKey form x i)
                                (occupied p) (slotFlag form x) ip])
             /\ (S (stampTick wib w1) <= ticks (snd r))%nat
       | None => snd r = w1
       end.
Proof.
  intros r. split; [apply callback_state|].
  assert (G : forall lu w1,
             later w w1 ->
             let sd := mkSlot (slotKey form x i) (slotFlag form x) lu in
             r = (sd, snd (checkSlotChange clk cap wib dev ip previousSlots
                             sd w1)) ->
             exists w1,
               later w w1 /\
               match find (fun p => id p =? slotKey form x i) previousSlots
               with
               | Some p =>
                   if flag_eq (occupied p) (slotFlag form x) then snd r = w1
                   else
                     parkingData (snd r) = parkingData w1
                     /\ slotHistory (snd r) =
                        trim cap
                          (slotHistory w1
                           ++ [loggedEntry clk wib w1 dev (slotKey form x i)
                                 (occupied p) (slotFlag form x) ip])
                     /\ (S (stampTick wib w1) <= ticks (snd r))%nat
               | None => snd r = w1
               end).
  { intros lu w1 Hl sd ->. exists w1. split; [exact Hl|].
    unfold checkSlotChange. simpl.
    destruct (find _ previousSlots) as [p|]; [|reflexivity].
    destruct (flag_eq (occupied p) (slotFlag form x)); simpl;
      [reflexivity|].
    apply logSlotChange_ticks. }
  destruct form.
  - destruct (prop_lastUpdate x) as [n|] eqn:El; [destruct (n =? 0) eqn:En|].
    + apply (G (clk (ticks w)) (snd (new_Date clk w)) (later_new_Date w)).
      unfold r, callback, processObjectSlot. rewrite bind_run, El, En.
      rewrite bind_run. reflexivity.
    + apply (G n w (later_refl w)).
      unfold r, callback, processObjectSlot. rewrite bind_run, El, En.
      rewrite bind_run. reflexivity.
    + apply (G (clk (ticks w)) (snd (new_Date clk w)) (later_new_Date w)).
      unfold r, callback, processObjectSlot. rewrite bind_run, El.
      rewrite bind_run. reflexivity.
  - apply (G (clk (ticks w)) (snd (new_Date clk w)) (later_new_Date w)).
    unfold r, callback, processSimpleSlot. rewrite !bind_run. reflexivity.
Qed.

(** A property of the state that the readings of the clock and the
    logged flips keep is kept by the loop over the reported slots. *)
Lemma loop_world_inv (I : World -> Prop) form dev ip previousSlots arr :
  (forall w w', I w -> later w w' -> I w') ->
  (forall w w' p n,
      I w -> In p previousSlots -> occupied p <> n ->
      parkingData w' = parkingData w ->
      slotHistory w' =
        trim cap (slotHistory w
                  ++ [loggedEntry clk wib w dev (id p) (occupied p) n ip]) ->
      (S (stampTick wib w) <= ticks w')%nat ->
      I w') ->
  forall i w,
    I w ->
    I (snd (mapM_index (callback clk cap wib form dev ip previousSlots)
              arr i w)).
Proof.
  intros Htick Hlog.
  induction arr as [|x arr IH]; intros i w HI; simpl; [exact HI|].
  rewrite !bind_run. simpl. apply IH.
  destruct (slot_step form dev ip previousSlots x i w)
    as (_ & w1 & Hl & Hcase).
  pose proof (Htick _ _ HI Hl) as HI1.
  destruct (find _ previousSlots) as [p|] eqn:F; [|now rewrite Hcase].
  destruct (flag_eq (occupied p) (slotFlag form x)) eqn:E;
    [now rewrite Hcase|].
  destruct Hcase as (Hpd & Hh & Ht).
  apply find_some in F as [Hin Hid]. apply Z.eqb_eq in Hid.
  rewrite <- Hid in Hh.
  apply (Hlog w1 _ p (slotFlag form x)); auto.
  now apply flag_eq_false.
Qed.

(** The loop leaves [parkingData] alone, only advances the clock, and
    pushes one entry for each flip of the report, in the order of the
    report, the bound being applied after each push. *)
Lemma loop_changes form dev ip previousSlots arr : forall i w,
  let r := mapM_index (callback clk cap wib form dev ip previousSlots)
             arr i w in
  parkingData (snd r) = parkingData w
  /\ (ticks w <= ticks (snd r))%nat
  /\ exists new,
       map entryKey new = changes previousSlots (normalizedFrom form arr i)
       /\ Forall (fun e => deviceId e = dev /\ ipAddress e = ip) new
       /\ slotHistory (snd r) =
          fold_left (fun h e => trim cap (h ++ [e])) new (slotHistory w).
Proof.
  unfold normalizedFrom.
  induction arr as [|x arr IH]; intros i w; simpl.
  - repeat split; auto. exists []. repeat split; auto.
  - rewrite !bind_run. simpl.
    destruct (slot_step form dev ip previousSlots x i w)
      as (_ & w1 & [[Hpd1 Hh1] Ht1] & Hcase).
    set (w2 := snd (callback clk cap wib form dev ip previousSlots x i w))
      in *.
    destruct (IH (S i) w2) as (Hpd & Ht & new & Hkeys & Hall & Hh).
    unfold changes in *. simpl.
    destruct (find _ previousSlots) as [p|] eqn:F.
    + destruct (flag_eq (occupied p) (slotFlag form x)) eqn:E.
      * subst w2. rewrite Hcase in *. repeat split; try congruence; try lia.
        exists new. repeat split; auto. simpl. congruence.
      * destruct Hcase as (Hpd2 & Hh2 & Ht2).
        repeat split; try congruence.
        { assert (ticks w1 <= stampTick wib w1)%nat
            by (unfold stampTick; destruct wib; lia). lia. }
        exists (loggedEntry clk wib w1 dev (slotKey form x i) (occupied p)
                  (slotFlag form x) ip :: new).
        repeat split.
        -- simpl. now rewrite Hkeys.
        -- constructor; auto.
        -- simpl. rewrite Hh, Hh2, Hh1. reflexivity.
    + subst w2. rewrite Hcase in *. repeat split; try congruence; try lia.
      exists new. repeat split; auto. simpl. congruence.
Qed.

End StepFacts.


(** ** A report, and a run, with the readings of the clock *)

Section WorldFacts.

Variable clk : nat -> Time.
Variable tzOffset : Time -> Z.
Variable cap : Z.
Variable wib : bool.

Lemma post_valid_later req w dev :
  b_deviceId (body req) = Some dev -> dev <> "" ->
  typeError (b_slots (body req)) = None ->
  let r := processSlots clk cap wib dev (clientIP req) (b_slots (body req)) w
  in
  exists now cur t,
    report clk cap wib w req =
    mkWorld
      (JsMap.set (parkingData (snd r)) dev
         (mkSnapshot dev (b_timestamp (body req)) (b_wifiStatus (body req))
            (snd (fst r)) (fst (fst (fst r))) (snd (fst (fst r))) now cur))
      (slotHistory (snd r)) t
    /\ (ticks (snd r) <= t)%nat.
Proof.
  intros Hd Hne Hte r. unfold report, post_parking_status. rewrite Hd.
  destruct (String.eqb dev "") eqn:E.
  { apply String.eqb_eq in E. contradiction. }
  rewrite Hte, bind_run. fold r. destruct r as [[[a tot] ps] w1]. simpl.
  unfold wibTimeNow, getCurrentWIBTime, bind, ret, new_Date,
    get_parkingData, put_parkingData.
  destruct wib; simpl; do 3 eexists; (split; [reflexivity | lia]).
Qed.

(** A property of the state is kept by a report when it is kept by the
    readings of the clock, by each logged flip of a slot of the previous
    snapshot, and by the replacement of the snapshot of the device. *)
Lemma post_world_inv (I : World -> Prop) req w :
  (forall w w', I w -> later w w' -> I w') ->
  (forall dev w0 w' p n,
      I w0 -> acceptedId req = Some dev ->
      In p (previousSlotsOf (parkingData w0) dev) -> occupied p <> n ->
      parkingData w' = parkingData w0 ->
      slotHistory w' =
        trim cap (slotHistory w0
                  ++ [loggedEntry clk wib w0 dev (id p) (occupied p) n
                        (clientIP req)]) ->
      (S (stampTick wib w0) <= ticks w')%nat ->
      I w') ->
  (forall dev w0 snap t,
      I w0 -> acceptedId req = Some dev -> d_deviceId snap = dev ->
      map slotState (slots snap) = normalized (b_slots (body req)) ->
      0 <= availableSlots snap <= totalSlots snap ->
      (ticks w0 <= t)%nat ->
      I (mkWorld (JsMap.set (parkingData w0) dev snap) (slotHistory w0) t)) ->
  I w -> I (report clk cap wib w req).
Proof.
  intros Htick Hlog Hset HI.
  destruct (acceptedId req) as [dev|] eqn:Hacc;
    [|now rewrite acceptedId_None].
  apply acceptedId_Some in Hacc as Hacc'.
  destruct Hacc' as (Hd & Hne & Hte).
  destruct (post_valid_later req w Hd Hne Hte) as (now & cur & t & Eq & Ht).
  rewrite Eq. clear Eq.
  pose proof (processSlots_states clk cap wib dev (clientIP req)
                (b_slots (body req)) w) as Hstates.
  pose proof (processSlots_counts clk cap wib dev (clientIP req)
                (b_slots (body req)) w) as [Hav Htot].
  set (r := processSlots clk cap wib dev (clientIP req)
              (b_slots (body req)) w) in *.
  assert (Hloop : I (snd r) /\ parkingData (snd r) = parkingData w).
  { unfold r. destruct (b_slots (body req)) as [arr|]; [|now split].
    rewrite processSlots_run. simpl.
    apply (@loop_world_inv clk cap wib
             (fun w0 => I w0 /\ parkingData w0 = parkingData w)
             (objectForm arr) dev (clientIP req)
             (previousSlotsOf (parkingData w) dev) arr); auto.
    - intros w0 w' [H0 Hp0] Hl. split; [eapply Htick; eauto|].
      destruct Hl as [[-> _] _]. exact Hp0.
    - intros w0 w' p n [H0 Hp0] Hin Hne' Hpd Hh Hti. split; [|congruence].
      apply (Hlog dev w0 w' p n); auto. now rewrite Hp0. }
  destruct Hloop as [HI1 Hpd].
  apply Hset; auto.
  simpl. rewrite Hav, Htot.
  destruct (b_slots (body req)) as [arr|]; simpl; [|lia].
  unfold normalizedFrom.
  rewrite length_map, length_combine, length_seq, Nat.min_id.
  apply availableOf_bounds.
Qed.

(** The read-only requests read the clock at most. *)
Lemma read_later w c :
  (forall req, c <> PostStatus req) ->
  later w (step clk tzOffset cap wib w c).
Proof.
  intros H. split; [now apply read_only|].
  destruct c as [req|q| | |n]; simpl.
  - now elim (H req).
  - unfold get_parking_status. rewrite bind_run. simpl.
    destruct q as [dev|]; [destruct (String.eqb dev "")|];
      simpl; try lia.
    destruct (JsMap.get (parkingData w) dev); simpl; lia.
  - lia.
  - unfold get_admin_dashboard. rewrite !bind_run. simpl.
    destruct (dashboardData _ _ _ _); simpl; lia.
  - lia.
Qed.

Lemma run_snoc calls c :
  run clk tzOffset cap wib (calls ++ [c]) =
  step clk tzOffset cap wib (run clk tzOffset cap wib calls) c.
Proof. unfold run. now rewrite fold_left_app. Qed.

(** Induction over the requests served since the start, for a property
    of the whole state. *)
Lemma run_world_inv (I : World -> Prop) :
  I empty_world ->
  (forall w w', I w -> later w w' -> I w') ->
  (forall dev w0 w' p n ip,
      I w0 -> dev <> "" ->
      In p (previousSlotsOf (parkingData w0) dev) -> occupied p <> n ->
      parkingData w' = parkingData w0 ->
      slotHistory w' =
        trim cap (slotHistory w0
                  ++ [loggedEntry clk wib w0 dev (id p) (occupied p) n ip]) ->
      (S (stampTick wib w0) <= ticks w')%nat ->
      I w') ->
  (forall dev w0 snap t,
      I w0 -> dev <> "" -> d_deviceId snap = dev ->
      0 <= availableSlots snap <= totalSlots snap ->
      (ticks w0 <= t)%nat ->
      I (mkWorld (JsMap.set (parkingData w0) dev snap) (slotHistory w0) t)) ->
  forall calls, I (run clk tzOffset cap wib calls).
Proof.
  intros H0 Htick Hlog Hset.
  apply run_ind; [exact H0|].
  intros w c HI. destruct c as [req|q| | |k].
  - change (I (report clk cap wib w req)). apply post_world_inv; auto.
    + intros dev w0 w' p n HI0 Hacc.
      apply acceptedId_Some in Hacc as (_ & Hne & _). now apply Hlog.
    + intros dev w0 snap t HI0 Hacc Hdev _.
      apply acceptedId_Some in Hacc as (_ & Hne & _). now apply Hset.
  - apply (Htick w); auto. apply read_later. discriminate.
  - apply (Htick w); auto. apply read_later. discriminate.
  - apply (Htick w); auto. apply read_later. discriminate.
  - apply (Htick w); auto. apply read_later. discriminate.
Qed.

End WorldFacts.

(** ** Lists of keys, and the last entries of a list *)

Lemma mapKeys_set {V} (m : JsMap.t V) k v :
  mapKeys (JsMap.set m k v) =
  if existsb (String.eqb k) (mapKeys m) then mapKeys m else mapKeys m ++ [k].
Proof.
  unfold mapKeys. induction m as [|[k' v'] m IH]; simpl; [reflexivity|].
  destruct (String.eqb k k') eqn:E; simpl; [reflexivity|].
  rewrite IH. now destruct (existsb _ _).
Qed.

Lemma existsb_eqb_In k (l : list string) :
  existsb (String.eqb k) l = true <-> In k l.
Proof.
  rewrite existsb_exists. split.
  - intros (x & Hx & E). apply String.eqb_eq in E. now subst.
  - intros H. exists k. split; auto. apply String.eqb_refl.
Qed.

Lemma Forall_set {V} (P : string * V -> Prop) (m : JsMap.t V) k v :
  Forall P m -> P (k, v) -> Forall P (JsMap.set m k v).
Proof.
  intros Hm Hk. induction m as [|[k' v'] m IH]; simpl.
  - now constructor.
  - inversion Hm; subst. destruct (String.eqb k k') eqn:E.
    + apply String.eqb_eq in E. subst. now constructor.
    + constructor; auto.
Qed.

Lemma get_In_mapKeys {V} (m : JsMap.t V) k :
  JsMap.get m k <> None <-> In k (mapKeys m).
Proof.
  unfold mapKeys. induction m as [|[k' v'] m IH]; simpl; [tauto|].
  destruct (String.eqb k k') eqn:E.
  - apply String.eqb_eq in E. subst. split; [now left | discriminate].
  - rewrite IH. split; [now right|]. intros [->|H]; auto.
    now rewrite String.eqb_refl in E.
Qed.

Lemma lastN_all {A} cap (l : list A) :
  Z.of_nat (length l) <= cap -> lastN cap l = l.
Proof.
  intros H. unfold lastN.
  replace (length l - Z.to_nat cap)%nat with 0%nat by lia. reflexivity.
Qed.

Lemma tl_skipn {A} k : forall l : list A, tl (skipn k l) = skipn (S k) l.
Proof.
  induction k as [|k IH]; intros [|x l]; simpl; auto.
Qed.

Lemma trim_lastN cap h e :
  0 <= cap -> trim cap (lastN cap h ++ [e]) = lastN cap (h ++ [e]).
Proof.
  intros Hc. unfold trim, lastN.
  rewrite !length_app, length_skipn. simpl length.
  destruct (Z.ltb_spec cap
              (Z.of_nat (length h - (length h - Z.to_nat cap) + 1))) as [H|H].
  - replace (length h + 1 - Z.to_nat cap)%nat
      with (S (length h - Z.to_nat cap)) by lia.
    rewrite <- tl_skipn, skipn_app.
    replace (length h - Z.to_nat cap - length h)%nat with 0%nat by lia.
    reflexivity.
  - replace (length h + 1 - Z.to_nat cap)%nat with 0%nat by lia.
    replace (length h - Z.to_nat cap)%nat with 0%nat by lia.
    reflexivity.
Qed.

Lemma fold_trim_lastN cap new : forall h,
  0 <= cap ->
  fold_left (fun h e => trim cap (h ++ [e])) new (lastN cap h) =
  lastN cap (h ++ new).
Proof.
  induction new as [|e new IH]; intros h Hc; simpl.
  - now rewrite app_nil_r.
  - rewrite trim_lastN by exact Hc. rewrite IH by exact Hc.
    now rewrite <- app_assoc.
Qed.

Lemma In_trim cap h (e : LogEntry) : In e (trim cap h) -> In e h.
Proof.
  unfold trim. destruct (cap <? _); auto. destruct h; simpl; auto.
Qed.

Lemma In_fold_trim cap new : forall h (e : LogEntry),
  In e (fold_left (fun h e => trim cap (h ++ [e])) new h) ->
  In e h \/ In e new.
Proof.
  induction new as [|x new IH]; intros h e H; simpl in *; [now left|].
  apply IH in H as [H|H]; [|now right; right].
  apply In_trim, in_app_or in H as [H|[<-|[]]]; auto.
Qed.

Lemma changes_nil states : changes [] states = [].
Proof.
  unfold changes. induction states as [|st states IH]; simpl; auto.
Qed.

(** ** Reports and queries *)

Section ReportFacts.

Variable clk : nat -> Time.
Variable tzOffset : Time -> Z.
Variable cap : Z.
Variable wib : bool.

(** The entries that a report pushes: one for each flip, in the order of
    the report, all of the device and of the address of the request. *)
Lemma report_history req w dev :
  acceptedId req = Some dev ->
  exists new,
    map entryKey new =
      changes (previousSlotsOf (parkingData w) dev)
        (normalized (b_slots (body req)))
    /\ Forall (fun e => deviceId e = dev /\ ipAddress e = clientIP req) new
    /\ slotHistory (report clk cap wib w req) =
       fold_left (fun h e => trim cap (h ++ [e])) new (slotHistory w).
Proof.
  intros Hacc. apply acceptedId_Some in Hacc as (Hd & Hne & Hte).
  destruct (post_valid_later clk cap wib req w Hd Hne Hte)
    as (now & cur & t & Eq & _).
  rewrite Eq. simpl. clear Eq.
  destruct (b_slots (body req)) as [arr|].
  - rewrite processSlots_run. simpl.
    destruct (@loop_changes clk cap wib (objectForm arr) dev (clientIP req)
                (previousSlotsOf (parkingData w) dev) arr 0%nat w)
      as (_ & _ & new & H1 & H2 & H3).
    exists new. auto.
  - exists []. repeat split; auto.
Qed.

End ReportFacts.

Lemma typeError_iff reported :
  typeError reported <> None <->
  exists first rest,
    reported = Some (first :: rest)
    /\ (first = InNull \/ (isSlotObject first = true /\ In InNull rest)).
Proof.
  assert (Hnull : forall s, isNull s = true <-> s = InNull).
  { intros s. destruct s; simpl; split; congruence. }
  unfold typeError. destruct reported as [[|first rest]|].
  - split; [congruence | now intros (? & ? & [=] & _)].
  - destruct (isNull first) eqn:E1.
    + split; [|discriminate]. intros _. exists first, rest.
      split; [reflexivity|]. left. now apply Hnull.
    + destruct (isSlotObject first) eqn:E2; simpl.
      * destruct (existsb isNull rest) eqn:E3.
        -- split; [|discriminate]. intros _. exists first, rest.
           split; [reflexivity|]. right. split; [exact E2|].
           apply existsb_exists in E3 as (x & Hx & Ex).
           apply Hnull in Ex. now subst x.
        -- split; [congruence|]. intros (f & r & [= <- <-] & [->|[_ Hin]]).
           ++ discriminate.
           ++ assert (existsb isNull rest = true); [|congruence].
              apply existsb_exists. now exists InNull.
      * split; [congruence|]. intros (f & r & [= <- <-] & [->|[? _]]);
          [discriminate | congruence].
  - split; [congruence | now intros (? & ? & [=] & _)].
Qed.

(** X1.  The handler of the reports throws on the slots of a body when
    the first element of the array is [null], or, in the format of slot
    objects, any element is.  A report with a device id on which it
    throws is answered with status 500 by the error handling middleware,
    and the state is the one before the request: nothing is stored.  Any
    other report with a device id is answered with status 200, and a
    query of [GET /api/parking-status] for that device made next is
    answered with status 200 and the snapshot just stored: the device id
    and the two counts are those of the answer to the report, the slots
    are the reported ones in order, and [timestamp] and [wifiStatus] are
    those of the body. *)
Theorem report_then_query clk cap wib req w dev :
  b_deviceId (body req) = Some dev -> dev <> "" ->
  let post := post_parking_status clk cap wib req w in
  let answer := fst (get_parking_status clk (Some dev) (snd post)) in
  (typeError (b_slots (body req)) <> None <->
   exists first rest,
     b_slots (body req) = Some (first :: rest)
     /\ (first = InNull \/ (isSlotObject first = true /\ In InNull rest)))
  /\ (forall message,
        typeError (b_slots (body req)) = Some message ->
        status (fst post) = 500
        /\ json (fst post)
           = [("success", FBool false);
              ("error", FStr "Internal server error");
              ("message", FByEnv message "Something went wrong")]
        /\ (forall development,
             map (fun kv => (fst kv, inEnv development (snd kv)))
               (json (fst post))
             = [("success", FBool false);
                ("error", FStr "Internal server error");
                ("message", FStr (if development then message
                                  else "Something went wrong"))])
        /\ snd post = w)
  /\ (typeError (b_slots (body req)) = None ->
      status (fst post) = 200 /\ status answer = 200 /\
      exists u snap,
        field (json (fst post)) "data" = Some (FData u) /\
        field (json answer) "data" = Some (FData (OneDevice snap)) /\
        u_deviceId u = dev /\ d_deviceId snap = dev /\
        availableSlots snap = u_availableSlots u /\
        totalSlots snap = u_totalSlots u /\
        map slotState (slots snap) = normalized (b_slots (body req)) /\
        d_timestamp snap = b_timestamp (body req) /\
        d_wifiStatus snap = b_wifiStatus (body req)).
Proof.
  intros Hd Hne post answer. split; [apply typeError_iff|]. split.
  { intros message Hte. subst answer post.
    rewrite (post_thrown clk cap wib req w Hd Hne Hte).
    repeat split. }
  intros Hte.
  destruct (post_valid clk cap wib req w Hd Hne Hte)
    as (now & cur & wt & ts & t & Eq).
  subst answer post. rewrite Eq. clear Eq.
  unfold get_parking_status. rewrite bind_run.
  cbn [fst snd get_parkingData parkingData].
  assert (E : String.eqb dev "" = false).
  { destruct (String.eqb dev "") eqn:E; auto.
    apply String.eqb_eq in E. contradiction. }
  rewrite E, JsMapFacts.get_set_same, bind_run.
  cbn [fst snd ret status json]. repeat split.
  do 2 eexists. repeat split.
  cbn [slots]. apply processSlots_states.
Qed.

Lemma report_then_query_witness :
  let req := objectReport "D1" [(1, true); (2, false)] in
  let post := post_parking_status clock_1s cap_server_js false req
                empty_world in
  let null := mkRequest
                (mkBody (Some "D1") None None
                   (Some [InObj (mkSlotObj None (Some true) None); InNull]))
                None in
  let thrown := post_parking_status clock_1s cap_server_js false null
                  (snd post) in
  status (fst (get_parking_status clock_1s (Some "D1") (snd post))) = 200
  /\ (status (fst thrown) = 500 /\ snd thrown = snd post).
Proof.
  intros req post null thrown. split.
  - pose proof (@report_then_query clock_1s cap_server_js false req
                  empty_world "D1" eq_refl ltac:(discriminate)) as H.
    exact (proj1 (proj2 (proj2 (proj2 H) eq_refl))).
  - pose proof (@report_then_query clock_1s cap_server_js false null
                  (snd post) "D1" eq_refl ltac:(discriminate)) as H.
    destruct (proj1 (proj2 H) _ eq_refl) as (H1 & _ & _ & H2).
    split; [exact H1 | exact H2].
Defined.

(** In the simple array format no property of an element is read: a
    [null] after the first element is stored as a slot that is not
    occupied, and is not counted as available. *)
Example null_in_simple_array :
  let req := mkRequest
               (mkBody (Some "D1") None None (Some [InNum 0; InNull])) None in
  let post := post_parking_status clock_1s cap_server_js false req
                empty_world in
  status (fst post) = 200
  /\ exists snap,
       JsMap.get (parkingData (snd post)) "D1" = Some snap
       /\ map slotState (slots snap) = [(1, Some false); (2, Some false)]
       /\ availableSlots snap = 1 /\ totalSlots snap = 2.
Proof.
  split; [reflexivity|]. eexists. split; [reflexivity|].
  repeat split.
Qed.

Section QueryFacts.

Variable clk : nat -> Time.
Variable tzOffset : Time -> Z.
Variable cap : Z.
Variable wib : bool.

Lemma report_store req w dev :
  acceptedId req = Some dev ->
  exists snap t,
    d_deviceId snap = dev /\
    report clk cap wib w req =
    mkWorld (JsMap.set (parkingData w) dev snap)
      (slotHistory (report clk cap wib w req)) t.
Proof.
  intros Hacc. apply acceptedId_Some in Hacc as (Hd & Hne & Hte).
  destruct (post_valid_later clk cap wib req w Hd Hne Hte)
    as (now & cur & t & Eq & _).
  rewrite Eq. simpl. rewrite processSlots_store.
  do 2 eexists. split; [|reflexivity]. reflexivity.
Qed.

Lemma step_store w c :
  parkingData (step clk tzOffset cap wib w c) =
  match c with
  | PostStatus req =>
      match acceptedId req with
      | Some dev =>
          JsMap.set (parkingData w) dev
            (match JsMap.get (parkingData (report clk cap wib w req)) dev with
             | Some snap => snap
             | None => mkSnapshot dev None None [] 0 0 0 None
             end)
      | None => parkingData w
      end
  | _ => parkingData w
  end.
Proof.
  destruct c as [req|q| | |n];
    try (apply (@read_only clk tzOffset cap wib w); discriminate).
  simpl. destruct (acceptedId req) as [dev|] eqn:Hacc.
  - destruct (report_store req w Hacc) as (snap & t & _ & Eq).
    rewrite Eq at 1. cbn [parkingData]. f_equal.
    rewrite Eq. cbn [parkingData]. now rewrite JsMapFacts.get_set_same.
  - now rewrite acceptedId_None.
Qed.

Lemma stored_iff_reported calls dev :
  JsMap.get (parkingData (run clk tzOffset cap wib calls)) dev = None <->
  reportedIn dev calls = false.
Proof.
  induction calls as [|c calls IH] using rev_ind; [now split|].
  rewrite run_snoc, step_store. unfold reportedIn in *.
  rewrite existsb_app. simpl. rewrite orb_false_r, orb_false_iff.
  destruct c as [req|q| | |n]; simpl; try tauto.
  destruct (acceptedId req) as [d|]; [|tauto].
  rewrite JsMapFacts.get_set.
  destruct (String.eqb dev d) eqn:E.
  - apply String.eqb_eq in E. subst d. rewrite String.eqb_refl.
    split; [discriminate | now intros [_ ?]].
  - rewrite String.eqb_sym, E. tauto.
Qed.

(** The keys of the store are the devices in the order of their first
    accepted report, and each snapshot carries its key. *)
Lemma store_keys calls :
  let store := parkingData (run clk tzOffset cap wib calls) in
  mapKeys store = deviceOrder calls
  /\ Forall (fun kv => d_deviceId (snd kv) = fst kv) store
  /\ NoDup (mapKeys store).
Proof.
  induction calls as [|c calls IH] using rev_ind.
  - repeat split; constructor.
  - cbv zeta in *. destruct IH as (Hk & Hd & Hn).
    unfold deviceOrder in *. rewrite fold_left_app. cbn [fold_left].
    rewrite run_snoc. rewrite <- Hk.
    set (w := run clk tzOffset cap wib calls) in *.
    destruct c as [req|q| | |n];
      try (rewrite step_store; now repeat split).
    cbn [step noteDevice].
    destruct (acceptedId req) as [dev|] eqn:Hacc;
      [|rewrite acceptedId_None by exact Hacc; now repeat split].
    destruct (report_store req w Hacc) as (snap & t & Hs & Eq).
    rewrite Eq. cbn [parkingData]. rewrite mapKeys_set.
    repeat split.
    + now apply Forall_set.
    + destruct (existsb _ _) eqn:E; auto.
      apply NoDup_app; auto.
      * constructor; [intros []|constructor].
      * intros x Hx [<-|[]]. apply existsb_eqb_In in Hx. congruence.
Qed.

End QueryFacts.

(** X2.  A query of [GET /api/parking-status] for a device is answered
    with status 200 when a report of that device was accepted since the
    start, and otherwise with status 404, the error "Device not found"
    and the device id asked for; the 404 answer reads no clock and leaves
    the state as it was. *)
Theorem query_found_iff_reported clk tzOffset cap wib calls dev :
  dev <> "" ->
  let w := run clk tzOffset cap wib calls in
  let r := get_parking_status clk (Some dev) w in
  status (fst r) = (if reportedIn dev calls then 200 else 404)
  /\ (reportedIn dev calls = false ->
      json (fst r) =
        [("success", FBool false); ("error", FStr "Device not found");
         ("deviceId", FStr dev)]
      /\ snd r = w).
Proof.
  intros Hne w r. subst r. unfold get_parking_status. rewrite bind_run.
  cbn [fst snd get_parkingData].
  assert (E : String.eqb dev "" = false).
  { destruct (String.eqb dev "") eqn:E; auto.
    apply String.eqb_eq in E. contradiction. }
  rewrite E.
  pose proof (stored_iff_reported clk tzOffset cap wib calls dev) as H.
  fold w in H.
  destruct (JsMap.get (parkingData w) dev) as [snap|].
  - destruct (reportedIn dev calls).
    + split; [reflexivity | discriminate].
    + destruct H as [_ H]. discriminate (H eq_refl).
  - rewrite (proj1 H eq_refl). split; [reflexivity|]. now split.
Qed.

Lemma query_found_iff_reported_witness :
  let calls := [PostStatus (simpleReport "D1" [0; 1]); GetHealth] in
  let w := run clock_1s utc cap_server_js false calls in
  ("D1" <> "" /\ status (fst (get_parking_status clock_1s (Some "D1") w)) = 200)
  /\ ("D2" <> ""
      /\ status (fst (get_parking_status clock_1s (Some "D2") w)) = 404).
Proof.
  intros calls w. split; (split; [discriminate|]).
  - exact (proj1 (@query_found_iff_reported clock_1s utc cap_server_js false
                    calls "D1" ltac:(discriminate))).
  - exact (proj1 (@query_found_iff_reported clock_1s utc cap_server_js false
                    calls "D2" ltac:(discriminate))).
Defined.

(** X3.  A report accepted for one device leaves the snapshot of every
    other device as it was, and each entry of the history after the
    report is an entry of the history before it or an entry of the
    reporting device, made for the address of the request. *)
Theorem report_touches_one_device clk cap wib req w dev :
  acceptedId req = Some dev ->
  let w' := report clk cap wib w req in
  (forall other, other <> dev ->
      JsMap.get (parkingData w') other = JsMap.get (parkingData w) other)
  /\ (forall e, In e (slotHistory w') ->
        In e (slotHistory w)
        \/ (deviceId e = dev /\ ipAddress e = clientIP req)).
Proof.
  intros Hacc w'. split.
  - intros other Hne. subst w'.
    destruct (report_store clk cap wib req w Hacc) as (snap & t & _ & Eq).
    rewrite Eq. cbn [parkingData].
    now apply JsMapFacts.get_set_other.
  - intros e He. subst w'.
    destruct (report_history clk cap wib req w Hacc)
      as (new & _ & Hall & Hh).
    rewrite Hh in He. apply In_fold_trim in He as [He|He]; [now left|].
    right. rewrite Forall_forall in Hall. now apply Hall.
Qed.

Lemma report_touches_one_device_witness :
  let w := report clock_1s cap_server_js false empty_world
             (simpleReport "D1" [0; 1]) in
  let req := simpleReport "D2" [1] in
  acceptedId req = Some "D2"
  /\ JsMap.get (parkingData (report clock_1s cap_server_js false w req)) "D1"
     = JsMap.get (parkingData w) "D1".
Proof.
  intros w req. split; [reflexivity|].
  apply (proj1 (@report_touches_one_device clock_1s cap_server_js false req
                  w "D2" eq_refl)).
  discriminate.
Defined.

(** X4.  After any requests served from the start, the devices of the
    store, in the order in which [GET /api/parking-status] without a
    device id lists them, are the devices of the accepted reports in the
    order of their first report, each once; each snapshot carries the id
    of its device, and [totalDevices] is their number. *)
Theorem devices_in_order_of_first_report clk tzOffset cap wib calls :
  let w := run clk tzOffset cap wib calls in
  let answer := fst (get_parking_status clk None w) in
  mapKeys (parkingData w) = deviceOrder calls
  /\ map d_deviceId (JsMap.values (parkingData w)) = deviceOrder calls
  /\ NoDup (deviceOrder calls)
  /\ field (json answer) "data" =
     Some (FData (AllDevices (JsMap.values (parkingData w))))
  /\ field (json answer) "totalDevices" =
     Some (FNum (Z.of_nat (length (deviceOrder calls)))).
Proof.
  intros w answer.
  destruct (store_keys clk tzOffset cap wib calls) as (Hk & Hd & Hn).
  fold w in Hk, Hd, Hn.
  assert (Hv : map d_deviceId (JsMap.values (parkingData w))
               = deviceOrder calls).
  { rewrite <- Hk. unfold JsMap.values, mapKeys. rewrite map_map.
    apply map_ext_in. intros kv Hin. rewrite Forall_forall in Hd.
    now apply Hd. }
  repeat split; auto.
  - now rewrite <- Hk.
  - subst answer. unfold get_parking_status. rewrite !bind_run.
    cbn. rewrite <- Hk. unfold mapKeys. now rewrite !length_map.
Qed.

(** X5.  A report accepted without a [slots] array, or with an empty one,
    stores a snapshot with no slot and both counts 0 and pushes no entry,
    whatever the snapshot of the device held; and the next accepted report
    of the device, whatever it says, pushes no entry either, since it
    finds no previous slot to compare with. *)
Theorem report_without_slots clk cap wib req w dev :
  acceptedId req = Some dev ->
  b_slots (body req) = None \/ b_slots (body req) = Some [] ->
  let w' := report clk cap wib w req in
  slotHistory w' = slotHistory w
  /\ (exists snap,
        JsMap.get (parkingData w') dev = Some snap
        /\ slots snap = [] /\ availableSlots snap = 0 /\ totalSlots snap = 0)
  /\ (forall next, acceptedId next = Some dev ->
        slotHistory (report clk cap wib w' next) = slotHistory w).
Proof.
  intros Hacc Hs w'.
  assert (Hn : normalized (b_slots (body req)) = [])
    by (destruct Hs as [-> | ->]; reflexivity).
  assert (Hh : slotHistory w' = slotHistory w).
  { destruct (report_history clk cap wib req w Hacc) as (new & Hk & _ & Hh).
    rewrite Hn in Hk. unfold changes in Hk. simpl in Hk.
    destruct new; [|discriminate]. exact Hh. }
  apply acceptedId_Some in Hacc as Hacc'.
  destruct Hacc' as (Hd & Hne & Hte).
  destruct (post_snapshot clk cap wib req w Hd Hne Hte)
    as ((snap & G & _ & St & Tot & Av) & _ & _).
  fold w' in G. rewrite Hn in St, Tot.
  assert (Hsl : slots snap = []) by (now destruct (slots snap)).
  repeat split; auto.
  - exists snap. repeat split; auto.
    rewrite Av. destruct Hs as [-> | ->]; reflexivity.
  - intros next Hnext.
    destruct (report_history clk cap wib next w' Hnext)
      as (new & Hk & _ & Hh').
    unfold previousSlotsOf in Hk. rewrite G, Hsl, changes_nil in Hk.
    destruct new; [|discriminate]. simpl in Hh'. congruence.
Qed.

Lemma report_without_slots_witness :
  let w := report clock_1s cap_server_js false empty_world
             (objectReport "D1" [(1, true); (2, false)]) in
  let req := mkRequest (mkBody (Some "D1") None None None) None in
  let w' := report clock_1s cap_server_js false w req in
  (acceptedId req = Some "D1" /\ b_slots (body req) = None)
  /\ slotHistory w' = slotHistory w
  /\ slotHistory (report clock_1s cap_server_js false w'
                    (objectReport "D1" [(1, false); (2, true)]))
     = slotHistory w.
Proof.
  intros w req w'. split; [split; reflexivity|].
  pose proof (@report_without_slots clock_1s cap_server_js false req w "D1"
                eq_refl (or_introl eq_refl)) as (H1 & _ & H3).
  split; [exact H1|]. apply H3. reflexivity.
Defined.

Lemma Forall_trim cap (P : LogEntry -> Prop) h :
  Forall P h -> Forall P (trim cap h).
Proof.
  intros H. unfold trim. destruct (cap <? _); auto.
  destruct H; simpl; auto.
Qed.

(** X6.  After any requests served from the start, every entry of the
    history is of a device with a non-empty id that has a snapshot in the
    store, and records a flip: its previous state differs from its new
    state. *)
Theorem logged_entries_are_flips_of_stored_devices clk tzOffset cap wib calls :
  let w := run clk tzOffset cap wib calls in
  Forall (fun e => deviceId e <> ""
                   /\ JsMap.get (parkingData w) (deviceId e) <> None
                   /\ previousState e <> newState e)
         (slotHistory w).
Proof.
  apply (@run_world_inv clk tzOffset cap wib
           (fun w => Forall (fun e => deviceId e <> ""
                        /\ JsMap.get (parkingData w) (deviceId e) <> None
                        /\ previousState e <> newState e)
                       (slotHistory w))).
  - constructor.
  - intros w w' H [[Hp Hh] _]. now rewrite Hp, Hh.
  - intros dev w0 w' p n ip H Hne Hin Hflip Hp Hh _.
    rewrite Hh, Hp. apply Forall_trim, Forall_app. split; [exact H|].
    constructor; [|constructor]. cbn. repeat split; auto.
    unfold previousSlotsOf in Hin.
    destruct (JsMap.get (parkingData w0) dev); [discriminate | contradiction].
  - intros dev w0 snap t H Hne _ _ _. cbn [parkingData slotHistory].
    eapply Forall_impl; [|exact H]. cbn beta.
    intros e (H1 & H2 & H3). repeat split; auto.
    rewrite JsMapFacts.get_set. destruct (String.eqb _ _); [discriminate|auto].
Qed.

Lemma StronglySorted_snoc {A} (R : A -> A -> Prop) l x :
  StronglySorted R l -> Forall (fun y => R y x) l ->
  StronglySorted R (l ++ [x]).
Proof.
  induction 1 as [|y l Hs IH Hy]; intros Hx; simpl.
  - repeat constructor.
  - inversion Hx; subst. constructor; auto.
    apply Forall_app. split; auto.
Qed.

Lemma StronglySorted_trim cap (R : LogEntry -> LogEntry -> Prop) h :
  StronglySorted R h -> StronglySorted R (trim cap h).
Proof.
  intros H. unfold trim. destruct (cap <? _); auto.
  destruct H; simpl; auto. constructor.
Qed.

Lemma findLastOccupied_In dev sid h e :
  findLastOccupied dev sid h = Some e -> In e h.
Proof.
  unfold findLastOccupied. intros H. apply find_some in H as [H _].
  now apply in_rev.
Qed.

(** X7.  When the clock never goes back, after any requests served from
    the start the timestamps of the history are in ascending order, no
    timestamp is later than the next reading of the clock, and every
    recorded duration is 0 or more. *)
Theorem monotone_clock_history clk tzOffset cap wib calls :
  (forall i j, (i <= j)%nat -> clk i <= clk j) ->
  let w := run clk tzOffset cap wib calls in
  StronglySorted (fun a b => timestamp a <= timestamp b) (slotHistory w)
  /\ Forall (fun e => timestamp e <= clk (ticks w)) (slotHistory w)
  /\ Forall (fun e => forall d, duration e = Some d -> 0 <= d)
       (slotHistory w).
Proof.
  intros Hmono.
  apply (@run_world_inv clk tzOffset cap wib
           (fun w =>
              StronglySorted (fun a b => timestamp a <= timestamp b)
                (slotHistory w)
              /\ Forall (fun e => timestamp e <= clk (ticks w)) (slotHistory w)
              /\ Forall (fun e => forall d, duration e = Some d -> 0 <= d)
                   (slotHistory w))).
  - repeat split; constructor.
  - intros w w' (Hs & Ht & Hd) [[Hp Hh] Hti]. rewrite Hh.
    repeat split; auto.
    eapply Forall_impl; [|exact Ht]. cbn beta. intros e He.
    specialize (Hmono _ _ Hti). lia.
  - intros dev w0 w' p n ip (Hs & Ht & Hd) _ _ _ _ Hh Hti.
    assert (Hst : (ticks w0 <= stampTick wib w0)%nat)
      by (unfold stampTick; destruct wib; lia).
    rewrite Hh. repeat split.
    + apply StronglySorted_trim, StronglySorted_snoc; auto.
      eapply Forall_impl; [|exact Ht]. cbn. intros e He.
      specialize (Hmono _ _ Hst). lia.
    + apply Forall_trim, Forall_app. split.
      * eapply Forall_impl; [|exact Ht]. cbn beta. intros e He.
        assert (H : (ticks w0 <= ticks w')%nat) by lia.
        specialize (Hmono _ _ H). lia.
      * constructor; [|constructor]. cbn.
        apply Hmono. lia.
    + apply Forall_trim, Forall_app. split; [exact Hd|].
      constructor; [|constructor]. cbn.
      destruct (flag_eq (occupied p) (Some true) && flag_eq n (Some false));
        [|discriminate].
      destruct (findLastOccupied dev (id p) (slotHistory w0)) as [l|] eqn:F;
        [|discriminate].
      intros d [= <-]. apply findLastOccupied_In in F.
      rewrite Forall_forall in Ht. specialize (Ht l F).
      assert (H : (ticks w0 <= S (stampTick wib w0))%nat) by lia.
      specialize (Hmono _ _ H). lia.
  - intros dev w0 snap t (Hs & Ht & Hd) _ _ _ Hti.
    cbn [slotHistory ticks]. repeat split; auto.
    eapply Forall_impl; [|exact Ht]. cbn beta. intros e He.
    specialize (Hmono _ _ Hti). lia.
Qed.

Lemma monotone_clock_history_witness :
  let calls := [PostStatus (simpleReport "D1" [1; 0]);
                PostStatus (simpleReport "D1" [0; 1]);
                GetHealth;
                PostStatus (simpleReport "D1" [1; 1])] in
  (forall i j, (i <= j)%nat -> clock_1s i <= clock_1s j)
  /\ Forall (fun e => forall d, duration e = Some d -> 0 <= d)
       (slotHistory (run clock_1s utc cap_server_js false calls)).
Proof.
  intros calls.
  assert (H : forall i j, (i <= j)%nat -> clock_1s i <= clock_1s j)
    by (intros i j Hij; unfold clock_1s; lia).
  split; [exact H|].
  exact (proj2 (proj2 (@monotone_clock_history clock_1s utc cap_server_js false
                         calls H))).
Defined.

(** X8.  A report accepted on a history within the bound pushes one entry
    for each reported slot whose flag differs from the flag that the
    previous snapshot of the device holds for its identifier, in the
    order of the report, each with the device id and the address of the
    request; the history is then the last [cap] entries of the old
    history followed by these entries. *)
Theorem report_appends_flips clk cap wib req w dev :
  acceptedId req = Some dev ->
  0 <= cap ->
  Z.of_nat (length (slotHistory w)) <= cap ->
  exists new,
    map entryKey new =
      changes (previousSlotsOf (parkingData w) dev)
        (normalized (b_slots (body req)))
    /\ Forall (fun e => deviceId e = dev /\ ipAddress e = clientIP req) new
    /\ slotHistory (report clk cap wib w req) =
       lastN cap (slotHistory w ++ new).
Proof.
  intros Hacc Hc Hl.
  destruct (report_history clk cap wib req w Hacc) as (new & Hk & Ha & Hh).
  exists new. repeat split; auto.
  rewrite Hh. rewrite <- (@lastN_all _ cap (slotHistory w) Hl) at 1.
  now apply fold_trim_lastN.
Qed.

Lemma report_appends_flips_witness :
  let w := report clock_1s 2 false empty_world
             (objectReport "D1" [(1, true); (2, false); (3, false)]) in
  let req := objectReport "D1" [(3, true); (1, false); (2, true)] in
  (acceptedId req = Some "D1" /\ 0 <= 2
   /\ Z.of_nat (length (slotHistory w)) <= 2)
  /\ map entryKey (slotHistory (report clock_1s 2 false w req)) =
     [(1, Some true, Some false); (2, Some false, Some true)].
Proof.
  intros w req. split; [repeat split; vm_compute; congruence|].
  destruct (@report_appends_flips clock_1s 2 false req w "D1" eq_refl
              ltac:(lia) ltac:(vm_compute; congruence))
    as (new & Hk & _ & Hh).
  assert (Hw : slotHistory w = []) by reflexivity.
  assert (Hk' : map entryKey new =
                [(3, Some false, Some true); (1, Some true, Some false);
                 (2, Some false, Some true)])
    by (rewrite Hk; reflexivity).
  rewrite Hh, Hw.
  destruct new as [|e1 [|e2 [|e3 [|e4 new]]]]; try discriminate.
  change (lastN 2 ([] ++ [e1; e2; e3])) with [e2; e3].
  change (map entryKey [e2; e3]) with (tl (map entryKey [e1; e2; e3])).
  now rewrite Hk'.
Defined.

Lemma object_flags arr : forall i,
  map snd (normalizedFrom true arr i) = map prop_occupied arr.
Proof.
  unfold normalizedFrom.
  induction arr as [|x arr IH]; intros i; simpl; [reflexivity|].
  f_equal. apply IH.
Qed.

(** X9.  For a report in the format of slot objects, the snapshot stored
    counts as available exactly its slots whose [occupied] is not truthy,
    and its total is the number of its slots. *)
Theorem object_report_counts clk cap wib req w dev arr :
  acceptedId req = Some dev ->
  b_slots (body req) = Some arr -> objectForm arr = true ->
  exists snap,
    JsMap.get (parkingData (report clk cap wib w req)) dev = Some snap
    /\ availableSlots snap =
       Z.of_nat (length (filter (fun s => negb (truthy_flag (occupied s)))
                           (slots snap)))
    /\ totalSlots snap = Z.of_nat (length (slots snap)).
Proof.
  intros Hacc Hs Hf. apply acceptedId_Some in Hacc as (Hd & Hne & Hte).
  destruct (post_snapshot clk cap wib req w Hd Hne Hte)
    as ((snap & G & _ & St & Tot & Av) & _ & _).
  exists snap. split; [exact G|]. rewrite Hs in *. cbn [normalized] in *.
  rewrite Hf in St, Tot. split.
  - rewrite Av. unfold availableOf. rewrite Hf. f_equal.
    rewrite <- (length_filter_map occupied
                  (fun o => negb (truthy_flag o)) (slots snap)).
    rewrite <- (length_filter_map prop_occupied
                  (fun o => negb (truthy_flag o)) arr).
    rewrite <- (object_flags arr 0), <- St, map_map. reflexivity.
  - rewrite Tot, <- St. now rewrite length_map.
Qed.

Lemma object_report_counts_witness :
  let arr := [InObj (mkSlotObj (Some 1) (Some true) None);
              InObj (mkSlotObj (Some 2) (Some false) None);
              InObj (mkSlotObj (Some 3) None None)] in
  let req := mkRequest (mkBody (Some "D1") None None (Some arr)) None in
  (acceptedId req = Some "D1" /\ b_slots (body req) = Some arr
   /\ objectForm arr = true)
  /\ exists snap,
       JsMap.get (parkingData (report clock_1s cap_server_js false
                                 empty_world req)) "D1" = Some snap
       /\ availableSlots snap = 2.
Proof.
  intros arr req. split; [repeat split; reflexivity|].
  destruct (@object_report_counts clock_1s cap_server_js false req
              empty_world "D1" arr eq_refl eq_refl eq_refl)
    as (snap & G & Av & _).
  exists snap. split; [exact G|].
  vm_compute in G. injection G as <-. reflexivity.
Defined.

(** ** Tables by hour *)

Lemma NoDup_upto n : NoDup (upto n).
Proof.
  unfold upto. apply NoDup_map_injective; [intros a b H; lia|].
  apply seq_NoDup.
Qed.

Lemma get_pairs {V} (F : Z -> V) l k :
  In k l -> IntObj.get (map (fun h => (h, F h)) l) k = Some (F k).
Proof.
  induction l as [|a l IH]; simpl; [tauto|].
  destruct (Z.eqb_spec k a) as [->|Hne]; [reflexivity|].
  intros [->|H]; [congruence | auto].
Qed.

Lemma replace_pairs {V} (F : Z -> V) l k v :
  NoDup l ->
  IntObj.replace (map (fun h => (h, F h)) l) k v =
  map (fun h => (h, if h =? k then v else F h)) l.
Proof.
  induction l as [|a l IH]; simpl; intros Hnd; [reflexivity|].
  inversion Hnd as [|? ? Hnot Hnd']; subst.
  destruct (Z.eqb_spec k a) as [->|Hne].
  - rewrite Z.eqb_refl. f_equal. apply map_ext_in. intros h Hh.
    destruct (Z.eqb_spec h a) as [->|]; [contradiction | reflexivity].
  - destruct (Z.eqb_spec a k) as [->|]; [congruence|]. f_equal. auto.
Qed.

Lemma get_table {V} (F : Z -> V) k :
  0 <= k < 24 -> IntObj.get (table F) k = Some (F k).
Proof. intros H. apply get_pairs. now apply hour_in_upto. Qed.

Lemma set_table {V} (F : Z -> V) k v :
  0 <= k < 24 ->
  IntObj.set (table F) k v = table (fun h => if h =? k then v else F h).
Proof.
  intros H. unfold IntObj.set. rewrite get_table by exact H.
  apply replace_pairs, NoDup_upto.
Qed.

Lemma In_upto h n : In h (upto n) -> 0 <= h < Z.of_nat n.
Proof.
  unfold upto. rewrite in_map_iff. intros (k & <- & Hk).
  apply in_seq in Hk. lia.
Qed.

Lemma table_ext {V} (F G : Z -> V) :
  (forall h, 0 <= h < 24 -> F h = G h) -> table F = table G.
Proof.
  intros H. unfold table. apply map_ext_in. intros h Hh.
  apply In_upto in Hh. now rewrite H.
Qed.

Lemma values_table {V} (F : Z -> V) : IntObj.values (table F) = map F (upto 24).
Proof. unfold IntObj.values, table. now rewrite map_map. Qed.

Lemma tally_cons hourOf log logs h up :
  tally hourOf (log :: logs) h up =
  (if (hourOf (timestamp log) =? h)
      && Bool.eqb (flag_eq (newState log) (Some true)) up
   then 1 else 0) + tally hourOf logs h up.
Proof.
  unfold tally. simpl.
  destruct ((hourOf (timestamp log) =? h) && _); simpl length; lia.
Qed.

Lemma tally_nonneg hourOf logs h up : 0 <= tally hourOf logs h up.
Proof. unfold tally. lia. Qed.

Lemma sum_indicator l k :
  NoDup l -> In k l ->
  sumZ (map (fun h => if k =? h then 1 else 0) l) = 1.
Proof.
  induction l as [|a l IH]; simpl; [tauto|].
  intros Hnd Hin. inversion Hnd as [|? ? Hnot Hnd']; subst.
  destruct (Z.eqb_spec k a) as [->|Hne].
  - assert (E : sumZ (map (fun h => if a =? h then 1 else 0) l) = 0).
    { clear -Hnot. induction l as [|b l IH]; simpl; [reflexivity|].
      destruct (Z.eqb_spec a b) as [->|]; [elim Hnot; now left|].
      rewrite IH; [reflexivity|]. intros H. apply Hnot. now right. }
    lia.
  - destruct Hin as [->|Hin]; [congruence|]. rewrite IH; auto.
Qed.

Lemma sumZ_add {A} (f g : A -> Z) l :
  sumZ (map (fun x => f x + g x) l) = sumZ (map f l) + sumZ (map g l).
Proof. induction l as [|x l IH]; simpl; lia. Qed.

(** Every entry falls in one hour of the day. *)
Lemma tally_total hourOf logs :
  (forall t, 0 <= hourOf t < 24) ->
  sumZ (map (fun h => tally hourOf logs h true + tally hourOf logs h false)
          (upto 24))
  = Z.of_nat (length logs).
Proof.
  intros Hr. induction logs as [|log logs IH]; [reflexivity|].
  rewrite (map_ext _
             (fun h => (if hourOf (timestamp log) =? h then 1 else 0)
                       + (tally hourOf logs h true
                          + tally hourOf logs h false))).
  - rewrite sumZ_add, IH, sum_indicator;
      [simpl length; lia | apply NoDup_upto | apply hour_in_upto, Hr].
  - intros h. rewrite !tally_cons.
    destruct (hourOf (timestamp log) =? h),
      (flag_eq (newState log) (Some true)); cbn [andb Bool.eqb]; lia.
Qed.

Section TableFacts.

Variable tzOffset : Time -> Z.

(** The scans of the three dashboards, as counts by hour. *)
Lemma countHour_table logs : forall F,
  fold_left (countHour tzOffset) logs (Some (table F)) =
  Some (table (fun h =>
    mkHourBucket (hour (F h))
      (occupations (F h) + tally (getHours tzOffset) logs h true)
      (releases (F h) + tally (getHours tzOffset) logs h false))).
Proof.
  induction logs as [|log logs IH]; intros F; cbn [fold_left].
  - f_equal. apply table_ext. intros h _. unfold tally. simpl.
    destruct (F h). simpl. f_equal; lia.
  - unfold countHour at 2.
    set (h0 := getHours tzOffset (timestamp log)).
    assert (Hr : 0 <= h0 < 24) by apply getUTCHours_range.
    rewrite get_table, set_table by exact Hr. rewrite IH.
    f_equal. apply table_ext. intros h _. rewrite !tally_cons. fold h0.
    destruct (Z.eqb_spec h h0) as [->|Hne].
    + rewrite Z.eqb_refl.
      destruct (flag_eq (newState log) (Some true));
        cbn [andb Bool.eqb hour occupations releases w_hour w_occupations
               w_releases w_netChange a_hour activities];
        f_equal; lia.
    + destruct (Z.eqb_spec h0 h) as [->|]; [congruence|].
      cbn [andb]. destruct (F h). cbn. f_equal; lia.
Qed.

Lemma countHourWIB_table logs : forall F,
  fold_left countHourWIB logs (table F) =
  table (fun h =>
    mkHourBucketWIB (w_hour (F h))
      (w_occupations (F h) + tally wibHourOf logs h true)
      (w_releases (F h) + tally wibHourOf logs h false)
      (w_netChange (F h) + tally wibHourOf logs h true
       - tally wibHourOf logs h false)).
Proof.
  induction logs as [|log logs IH]; intros F; cbn [fold_left].
  - apply table_ext. intros h _. unfold tally. simpl.
    destruct (F h). simpl. f_equal; lia.
  - unfold countHourWIB at 2.
    change (getUTCHours (convertToWIB (timestamp log)))
      with (wibHourOf (timestamp log)).
    set (h0 := wibHourOf (timestamp log)).
    assert (Hr : 0 <= h0 < 24) by apply getUTCHours_range.
    rewrite get_table by exact Hr. cbv zeta.
    rewrite set_table by exact Hr. rewrite IH.
    apply table_ext. intros h _. rewrite !tally_cons. fold h0.
    destruct (Z.eqb_spec h h0) as [->|Hne].
    + rewrite Z.eqb_refl.
      destruct (flag_eq (newState log) (Some true));
        cbn [andb Bool.eqb hour occupations releases w_hour w_occupations
               w_releases w_netChange a_hour activities];
        f_equal; lia.
    + destruct (Z.eqb_spec h0 h) as [->|]; [congruence|].
      cbn [andb]. destruct (F h). cbn. f_equal; lia.
Qed.

Lemma countActivity_table logs : forall F,
  fold_left countActivity logs (table F) =
  table (fun h =>
    mkHourActivity (a_hour (F h))
      (activities (F h) + (tally wibHourOf logs h true
                           + tally wibHourOf logs h false))).
Proof.
  induction logs as [|log logs IH]; intros F; cbn [fold_left].
  - apply table_ext. intros h _. unfold tally. simpl.
    destruct (F h). simpl. f_equal; lia.
  - unfold countActivity at 2.
    change (getUTCHours (convertToWIB (timestamp log)))
      with (wibHourOf (timestamp log)).
    set (h0 := wibHourOf (timestamp log)).
    assert (Hr : 0 <= h0 < 24) by apply getUTCHours_range.
    rewrite get_table by exact Hr. cbv zeta.
    rewrite set_table by exact Hr. rewrite IH.
    apply table_ext. intros h _. rewrite !tally_cons. fold h0.
    destruct (Z.eqb_spec h h0) as [->|Hne].
    + rewrite Z.eqb_refl.
      destruct (flag_eq (newState log) (Some true));
        cbn [andb Bool.eqb hour occupations releases w_hour w_occupations
               w_releases w_netChange a_hour activities];
        f_equal; lia.
    + destruct (Z.eqb_spec h0 h) as [->|]; [congruence|].
      cbn [andb]. destruct (F h). cbn. f_equal; lia.
Qed.

End TableFacts.

Lemma seedActivity_full :
  seedActivity = table (fun h => mkHourActivity h 0).
Proof. reflexivity. Qed.

Lemma map_upto_sorted {V} (F : Z -> V) (hr : V -> Z) :
  (forall h, hr (F h) = h) -> map hr (map F (upto 24)) = upto 24.
Proof.
  intros H. rewrite map_map. rewrite <- (map_id (upto 24)) at 2.
  apply map_ext. exact H.
Qed.

Lemma hourlyPattern_counts tzOffset now history :
  steadyZone tzOffset now ->
  hourlyPattern tzOffset now history =
  Some (map (fun h =>
               mkHourBucket h
                 (tally (getHours tzOffset) (since (now - dayMs) history) h
                    true)
                 (tally (getHours tzOffset) (since (now - dayMs) history) h
                    false))
          (upto 24)).
Proof.
  intros Hz. unfold hourlyPattern. rewrite (seedHours_full Hz).
  change (map (fun h => (h, mkHourBucket h 0 0)) (upto 24))
    with (table (fun h => mkHourBucket h 0 0)).
  rewrite countHour_table, values_table. cbn [hour occupations releases].
  apply f_equal. rewrite sortBy_sorted.
  - apply map_ext. intros h. reflexivity.
  - rewrite map_upto_sorted by reflexivity. apply upto_24_sorted.
Qed.

(** X10.  When the zone of the process has the same offset at the 24
    instants for which the buckets are created, [GET /api/admin/dashboard]
    of [server.js] answers with status 200, and the bucket of each hour 0
    to 23 of its hourly pattern holds, as [occupations], the number of
    the entries of the last 24 hours that fall in this hour of the zone
    and whose new state is [true], and as [releases] the number of those
    whose new state is anything else. *)
Theorem dashboard_hourly_counts clk tzOffset w :
  let now := clk (ticks w) in
  let recent := since (now - dayMs) (slotHistory w) in
  let r := fst (get_admin_dashboard clk tzOffset w) in
  steadyZone tzOffset now ->
  status r = 200
  /\ exists data,
       field (json r) "data" = Some (FData data)
       /\ dd_lastUpdated data = now
       /\ dd_hourlyPattern data =
          map (fun h => mkHourBucket h
                          (tally (getHours tzOffset) recent h true)
                          (tally (getHours tzOffset) recent h false))
            (upto 24).
Proof.
  intros now recent r Hz. subst r. unfold get_admin_dashboard.
  rewrite !bind_run. cbn [fst snd new_Date get_parkingData get_history
                          parkingData slotHistory].
  fold now. unfold dashboardData.
  rewrite (hourlyPattern_counts _ Hz). fold recent.
  split; [reflexivity|]. eexists. repeat split.
Qed.

Lemma dashboard_hourly_counts_witness :
  let tz := fun _ : Time => 7 * hourMs in
  let calls := [PostStatus (simpleReport "D1" [0]);
                PostStatus (simpleReport "D1" [1])] in
  let w := run setBackClock tz cap_server_js false calls in
  steadyZone tz (setBackClock (ticks w))
  /\ status (fst (get_admin_dashboard setBackClock tz w)) = 200.
Proof.
  intros tz calls w.
  assert (Hz : steadyZone tz (setBackClock (ticks w)))
    by (intros i _; reflexivity).
  split; [exact Hz|].
  exact (proj1 (@dashboard_hourly_counts setBackClock tz w Hz)).
Defined.

(** X11.  The hourly pattern of the WIB variant lists the hours 0 to 23;
    the bucket of an hour holds the number of the entries of the last 24
    hours that fall in this hour of the WIB clock and whose new state is
    [true], the number of those whose new state is anything else, and as
    [netChange] the first number less the second. *)
Theorem hourly_pattern_wib_counts now nowWIB history :
  let recent := since (now - dayMs) history in
  hourlyPatternWIB now nowWIB history =
  map (fun h => mkHourBucketWIB h
                  (tally wibHourOf recent h true)
                  (tally wibHourOf recent h false)
                  (tally wibHourOf recent h true
                   - tally wibHourOf recent h false))
    (upto 24).
Proof.
  intros recent. unfold hourlyPatternWIB. rewrite seedHoursWIB_full.
  change (map (fun h => (h, mkHourBucketWIB h 0 0 0)) (upto 24))
    with (table (fun h => mkHourBucketWIB h 0 0 0)).
  rewrite countHourWIB_table, values_table. fold recent.
  cbn [w_hour w_occupations w_releases w_netChange].
  rewrite sortBy_sorted.
  - apply map_ext. intros h. reflexivity.
  - rewrite map_upto_sorted by reflexivity. apply upto_24_sorted.
Qed.

(** X12.  The hour that [formatWIBDate] gives, and the hour by which the
    WIB variants count, is the UTC hour of the instant plus seven, modulo
    24; the instant it gives is seven hours later. *)
Theorem wib_hour_shift t :
  wf_hour (formatWIBDate t) = (getUTCHours t + 7) mod 24
  /\ wibHourOf t = (getUTCHours t + 7) mod 24
  /\ wf_timestamp (formatWIBDate t) = t + 7 * hourMs
  /\ 0 <= wf_hour (formatWIBDate t) < 24.
Proof.
  assert (E : getUTCHours (convertToWIB t) = (getUTCHours t + 7) mod 24).
  { unfold getUTCHours, convertToWIB.
    rewrite Z_div_plus_full by (pose proof hourMs_pos; lia).
    now rewrite Zplus_mod_idemp_l. }
  unfold formatWIBDate, wibHourOf. cbn [wf_hour wf_timestamp].
  rewrite E. repeat split; try reflexivity; apply Z.mod_pos_bound; lia.
Qed.

Lemma hourlyActivity_counts now history :
  IntObj.values (hourlyActivity now history) =
  map (fun h => mkHourActivity h
                  (tally wibHourOf (since (now - dayMs) history) h true
                   + tally wibHourOf (since (now - dayMs) history) h false))
    (upto 24).
Proof.
  unfold hourlyActivity. rewrite seedActivity_full, countActivity_table.
  rewrite values_table. cbn [a_hour activities].
  apply map_ext. intros h. f_equal.
Qed.

(** X13.  In the variant with authentication, [hourlyPattern] of the
    dashboard lists the hours 0 to 23 in order, the activities of an hour
    are the number of the entries of the last 24 hours that fall in this
    hour of the WIB clock, and the activities of all the hours add up to
    [last24hActivities] of the summary. *)
Theorem hourly_activity_counts now store history :
  let recent := since (now - dayMs) history in
  let out := IntObj.values (hourlyActivity now history) in
  out = map (fun h => mkHourActivity h
                        (tally wibHourOf recent h true
                         + tally wibHourOf recent h false))
          (upto 24)
  /\ map a_hour out = upto 24
  /\ sumZ (map activities out) = last24hActivities (summary now store history).
Proof.
  intros recent out. subst out. rewrite hourlyActivity_counts. fold recent.
  split; [reflexivity|]. split.
  - now rewrite map_upto_sorted.
  - rewrite map_map. cbn [activities summary last24hActivities].
    fold recent. apply tally_total. intros t. apply getUTCHours_range.
Qed.

(** ** The busiest hours *)

Lemma In_insertBy {A} (cmp : A -> A -> Z) x y l :
  In y (insertBy cmp x l) <-> y = x \/ In y l.
Proof.
  induction l as [|z l IH]; simpl.
  - split; [intros [<-|[]]; now left | intros [->|[]]; now left].
  - destruct (cmp x z <=? 0); simpl.
    + split; [intros [<-|H]; auto | intros [->|H]; auto].
    + rewrite IH. tauto.
Qed.

Lemma In_sortBy {A} (cmp : A -> A -> Z) y l :
  In y (sortBy cmp l) <-> In y l.
Proof.
  unfold sortBy. induction l as [|x l IH]; simpl; [tauto|].
  rewrite In_insertBy, IH. split; intros [H|H]; auto.
Qed.

Lemma length_insertBy {A} (cmp : A -> A -> Z) x l :
  length (insertBy cmp x l) = S (length l).
Proof.
  induction l as [|z l IH]; simpl; [reflexivity|].
  destruct (cmp x z <=? 0); simpl; auto.
Qed.

Lemma length_sortBy {A} (cmp : A -> A -> Z) l :
  length (sortBy cmp l) = length l.
Proof.
  unfold sortBy. induction l as [|x l IH]; simpl; [reflexivity|].
  now rewrite length_insertBy, IH.
Qed.

Lemma In_firstn_or_skipn {A} n (l : list A) x :
  In x l <-> In x (firstn n l) \/ In x (skipn n l).
Proof. rewrite <- (firstn_skipn n l) at 1. apply in_app_iff. Qed.

Section Ranking.

Context {A : Type}.
Variables key hr : A -> Z.

(** The sort by descending [key] is stable: it puts an element that comes
    earlier than all the others before those of the same key. *)
Lemma insertBy_ranked x l :
  Forall (fun y => hr x < hr y) l ->
  ranked key hr l ->
  ranked key hr (insertBy (fun a b => key b - key a) x l).
Proof.
  unfold ranked. intros Hx Hl.
  induction Hl as [|y l Hl IH Hy]; simpl.
  - repeat constructor.
  - inversion Hx as [|? ? Hxy Hx']; subst.
    destruct (Z.leb_spec (key y - key x) 0) as [Hle|Hgt].
    + constructor; [constructor; auto|].
      constructor.
      * unfold busier. lia.
      * rewrite Forall_forall in *. intros z Hz.
        specialize (Hy z Hz). specialize (Hx' z Hz). unfold busier in *. lia.
    + constructor; [now apply IH|].
      rewrite Forall_forall in *. intros z Hz.
      apply In_insertBy in Hz as [->|Hz]; [|now apply Hy].
      unfold busier. lia.
Qed.

Lemma sortBy_ranked l :
  StronglySorted (fun a b => hr a < hr b) l ->
  ranked key hr (sortBy (fun a b => key b - key a) l).
Proof.
  induction 1 as [|x l Hl IH Hx]; simpl.
  - constructor.
  - apply insertBy_ranked; [|exact IH].
    rewrite Forall_forall in *. intros y Hy. apply Hx.
    now apply In_sortBy in Hy.
Qed.

Lemma ranked_firstn n : forall l,
  ranked key hr l -> ranked key hr (firstn n l).
Proof.
  unfold ranked. induction n as [|n IH]; intros l Hl; simpl; [constructor|].
  destruct Hl as [|x l Hl Hx]; [constructor|].
  constructor; [now apply IH|].
  rewrite Forall_forall in *. intros y Hy. apply Hx.
  apply (In_firstn_or_skipn n). now left.
Qed.

Lemma ranked_split n : forall l,
  ranked key hr l ->
  forall p r, In p (firstn n l) -> In r (skipn n l) -> busier key hr p r.
Proof.
  unfold ranked. induction n as [|n IH]; intros l Hl p r Hp Hr; simpl in *;
    [contradiction|].
  destruct Hl as [|x l Hl Hx]; simpl in *; [contradiction|].
  destruct Hp as [<-|Hp].
  - rewrite Forall_forall in Hx. apply Hx.
    apply (In_firstn_or_skipn n). now right.
  - now apply (IH l).
Qed.

Lemma hours_increasing (F : Z -> A) n :
  (forall h, hr (F h) = h) ->
  StronglySorted (fun a b => hr a < hr b) (map F (upto n)).
Proof.
  intros HF. unfold upto. generalize 0%nat as a.
  induction n as [|n IH]; intros a; simpl; constructor; [apply IH|].
  rewrite Forall_forall. intros y Hy.
  apply in_map_iff in Hy as (z & <- & Hz).
  apply in_map_iff in Hz as (k & <- & Hk). apply in_seq in Hk.
  rewrite !HF. lia.
Qed.

(** The first [n] of the hours sorted by descending [key]. *)
Lemma top_ranked (F : Z -> A) n :
  (forall h, hr (F h) = h) ->
  let top := firstn n (sortBy (fun a b => key b - key a)
                                 (map F (upto 24))) in
  length top = Nat.min n 24
  /\ Forall (fun p => 0 <= hr p < 24 /\ p = F (hr p)) top
  /\ ranked key hr top
  /\ (forall h, 0 <= h < 24 -> ~ In h (map hr top) ->
        Forall (fun p => busier key hr p (F h)) top).
Proof.
  intros HF top. subst top.
  set (sorted := sortBy (fun a b => key b - key a) (map F (upto 24))).
  assert (Hr : ranked key hr sorted)
    by (apply sortBy_ranked, hours_increasing, HF).
  repeat split.
  - rewrite length_firstn. unfold sorted.
    now rewrite length_sortBy, length_map.
  - rewrite Forall_forall. intros p Hp.
    assert (Hin : In p sorted)
      by (apply (In_firstn_or_skipn n); now left).
    apply In_sortBy, in_map_iff in Hin as (h & <- & Hh).
    apply In_upto in Hh. rewrite HF. split; [exact Hh | reflexivity].
  - now apply ranked_firstn.
  - intros h Hh Hnot. rewrite Forall_forall. intros p Hp.
    assert (Hin : In (F h) sorted).
    { apply In_sortBy, in_map. now apply hour_in_upto. }
    apply (In_firstn_or_skipn n) in Hin as [Hin|Hin].
    + elim Hnot. rewrite <- (HF h). now apply in_map.
    + now apply (ranked_split n Hr).
Qed.

End Ranking.

(** X14.  In the variant with authentication, [peakHours] of the
    dashboard are three hours of the day with their activities of the
    last 24 hours, listed from the busiest on, an hour coming before a
    later hour of the same activity; every hour that is not listed has
    fewer activities than each listed hour, or as many and comes later. *)
Theorem peak_hours_busiest now history :
  let recent := since (now - dayMs) history in
  let act := fun h => tally wibHourOf recent h true
                      + tally wibHourOf recent h false in
  let peaks := peakHours now history in
  length peaks = 3%nat
  /\ Forall (fun p => 0 <= a_hour p < 24 /\ activities p = act (a_hour p))
       peaks
  /\ ranked activities a_hour peaks
  /\ (forall h, 0 <= h < 24 -> ~ In h (map a_hour peaks) ->
        Forall (fun p => act h < activities p
                         \/ (act h = activities p /\ a_hour p < h)) peaks).
Proof.
  intros recent act peaks. subst peaks. unfold peakHours.
  rewrite hourlyActivity_counts. fold recent.
  change (fun h => mkHourActivity h
                     (tally wibHourOf recent h true
                      + tally wibHourOf recent h false))
    with (fun h => mkHourActivity h (act h)).
  destruct (@top_ranked _ activities a_hour
              (fun h => mkHourActivity h (act h)) 3 (fun h => eq_refl))
    as (Hlen & Hall & Hrank & Hdom).
  split; [exact Hlen|]. split; [|split; [exact Hrank|]].
  - eapply Forall_impl; [|exact Hall]. cbn beta.
    intros p [Hp Ep]. split; [exact Hp|]. now rewrite Ep at 1.
  - intros h Hh Hnot. exact (Hdom h Hh Hnot).
Qed.

(** X15.  In the WIB variant, [peakHours] of the dashboard are five hours
    of the day, each with its occupations and releases of the last 24
    hours and their sum as [totalActivity], listed from the busiest on, an
    hour coming before a later hour of the same activity; every hour that
    is not listed has a smaller total than each listed hour, or the same
    and comes later. *)
Theorem peak_hours_wib_busiest now nowWIB history :
  let recent := since (now - dayMs) history in
  let occ := fun h => tally wibHourOf recent h true in
  let rel := fun h => tally wibHourOf recent h false in
  let peaks := peakHoursWIB now nowWIB history in
  length peaks = 5%nat
  /\ Forall (fun p => 0 <= p_hour p < 24
                      /\ p_occupations p = occ (p_hour p)
                      /\ p_releases p = rel (p_hour p)
                      /\ totalActivity p = occ (p_hour p) + rel (p_hour p))
       peaks
  /\ ranked totalActivity p_hour peaks
  /\ (forall h, 0 <= h < 24 -> ~ In h (map p_hour peaks) ->
        Forall (fun p => occ h + rel h < totalActivity p
                         \/ (occ h + rel h = totalActivity p
                             /\ p_hour p < h)) peaks).
Proof.
  intros recent occ rel peaks. subst peaks. unfold peakHoursWIB.
  rewrite seedHoursWIB_full.
  change (map (fun h => (h, mkHourBucketWIB h 0 0 0)) (upto 24))
    with (table (fun h => mkHourBucketWIB h 0 0 0)).
  rewrite countHourWIB_table, values_table. fold recent.
  cbn [w_hour w_occupations w_releases w_netChange].
  set (F := fun h => mkHourBucketWIB h (0 + tally wibHourOf recent h true)
                       (0 + tally wibHourOf recent h false)
                       (0 + tally wibHourOf recent h true
                        - tally wibHourOf recent h false)).
  set (key := fun b => w_occupations b + w_releases b).
  set (conv := fun hour => mkPeakHour (w_hour hour)
                             (w_occupations hour + w_releases hour)
                             (w_occupations hour) (w_releases hour)).
  change (fun a b => w_occupations b + w_releases b
                     - (w_occupations a + w_releases a))
    with (fun a b => key b - key a).
  destruct (@top_ranked _ key w_hour F 5 (fun h => eq_refl))
    as (Hlen & Hall & Hrank & Hdom).
  set (top := firstn 5 (sortBy (fun a b => key b - key a)
                                (map F (upto 24)))) in *.
  assert (Hmap : map p_hour (map conv top) = map w_hour top)
    by (rewrite map_map; reflexivity).
  split; [|split; [|split]].
  - rewrite length_map. exact Hlen.
  - rewrite Forall_forall in *. intros p Hp.
    apply in_map_iff in Hp as (b & <- & Hb).
    destruct (Hall b Hb) as [Hr Eb].
    assert (Ho : w_occupations b = occ (w_hour b))
      by (rewrite Eb at 1; reflexivity).
    assert (Hl : w_releases b = rel (w_hour b))
      by (rewrite Eb at 1; reflexivity).
    cbn [conv p_hour p_occupations p_releases totalActivity].
    rewrite Ho, Hl. split; [exact Hr|]. split; [reflexivity|].
    split; reflexivity.
  - clear -Hrank. unfold ranked in *.
    induction Hrank as [|b l Hl IH Hb]; simpl; constructor; auto.
    rewrite Forall_forall in *. intros p Hp.
    apply in_map_iff in Hp as (c & <- & Hc). exact (Hb c Hc).
  - intros h Hh Hnot. rewrite Hmap in Hnot.
    specialize (Hdom h Hh Hnot). rewrite Forall_forall in *.
    intros p Hp. apply in_map_iff in Hp as (b & <- & Hb).
    specialize (Hdom b Hb). unfold busier, key in Hdom.
    cbn [F w_occupations w_releases w_hour] in Hdom.
    cbn [conv totalActivity p_hour]. unfold occ, rel.
    clear -Hdom. lia.
Qed.

(** ** Totals of the dashboards *)

Lemma fold_sum {A} (f : A -> Z) l : forall a,
  fold_left (fun sum d => sum + f d) l a = a + sumZ (map f l).
Proof.
  induction l as [|x l IH]; intros a; simpl; [lia|]. rewrite IH. lia.
Qed.

Lemma sumZ_nonneg {A} (f : A -> Z) l :
  Forall (fun x => 0 <= f x) l -> 0 <= sumZ (map f l).
Proof. induction 1; simpl; lia. Qed.

Lemma since_weaker t1 t2 h :
  t2 <= t1 -> (length (since t1 h) <= length (since t2 h))%nat.
Proof.
  intros H. unfold since. induction h as [|e h IH]; simpl; [lia|].
  destruct (Z.leb_spec t1 (timestamp e)), (Z.leb_spec t2 (timestamp e));
    simpl; lia.
Qed.

(** X16.  After any requests served from the start, the system statistics
    of the dashboard are consistent: [totalDevices] is the number of
    devices that reported, [totalSlots] is [totalOccupied] plus
    [totalAvailable], none of them negative; the changes of the last 24
    hours are no more than those of the last 7 days, which are no more
    than the records; and the overall occupancy rate is the number 0 when
    there is no slot and lies between 0 and 100.  The summary of the
    variant with authentication holds the same numbers. *)
Theorem system_stats_consistent clk tzOffset cap wib calls now :
  let w := run clk tzOffset cap wib calls in
  let s := systemStats now (parkingData w) (slotHistory w) in
  let m := summary now (parkingData w) (slotHistory w) in
  totalDevices s = Z.of_nat (length (deviceOrder calls))
  /\ sys_totalSlots s = totalOccupied s + totalAvailable s
  /\ 0 <= totalOccupied s /\ 0 <= totalAvailable s
  /\ 0 <= last24hChanges s <= last7dChanges s
  /\ last7dChanges s <= totalHistoryRecords s
  /\ (sys_totalSlots s = 0 -> overallOccupancyRate s = RateNum 0)
  /\ (0 <= rate_value (overallOccupancyRate s) <= 100)%Q
  /\ m = mkSummary (totalDevices s) (sys_totalSlots s) (totalOccupied s)
           (totalAvailable s) (overallOccupancyRate s)
           (totalHistoryRecords s) (last24hChanges s).
Proof.
  intros w s m.
  assert (Hb : Forall (fun snap => 0 <= availableSlots snap <= totalSlots snap)
                 (JsMap.values (parkingData w))).
  { rewrite Forall_forall. intros snap Hin.
    exact (snapshot_counts clk tzOffset cap wib calls snap Hin). }
  destruct (store_keys clk tzOffset cap wib calls) as (Hk & _ & _).
  fold w in Hk.
  set (l := JsMap.values (parkingData w)) in *.
  assert (Et : sys_totalSlots s = sumZ (map totalSlots l)).
  { subst s. unfold systemStats, currentStatus. cbn [sys_totalSlots].
    rewrite fold_sum, map_map. reflexivity. }
  assert (Eo : totalOccupied s
               = sumZ (map (fun d => totalSlots d - availableSlots d) l)).
  { subst s. unfold systemStats, currentStatus. cbn [totalOccupied].
    rewrite fold_sum, map_map. reflexivity. }
  assert (Ea : totalAvailable s = sumZ (map availableSlots l)).
  { subst s. unfold systemStats, currentStatus. cbn [totalAvailable].
    rewrite fold_sum, map_map. reflexivity. }
  assert (Ho : 0 <= totalOccupied s).
  { rewrite Eo. apply sumZ_nonneg. eapply Forall_impl; [|exact Hb].
    cbn beta. lia. }
  assert (Ha : 0 <= totalAvailable s).
  { rewrite Ea. apply sumZ_nonneg. eapply Forall_impl; [|exact Hb].
    cbn beta. lia. }
  assert (Hs : sys_totalSlots s = totalOccupied s + totalAvailable s).
  { rewrite Et, Eo, Ea. clear. induction l; simpl; lia. }
  split; [|split; [exact Hs|split; [exact Ho|split; [exact Ha|]]]].
  { subst s. cbn [totalDevices systemStats]. unfold JsMap.size.
    rewrite <- Hk. unfold mapKeys. now rewrite length_map. }
  split; [|split; [|split; [|split]]].
  - subst s. cbn [last24hChanges last7dChanges systemStats].
    pose proof (@since_weaker (now - dayMs) (now - 7 * dayMs) (slotHistory w)
                  ltac:(unfold dayMs; lia)).
    lia.
  - subst s. cbn [last7dChanges totalHistoryRecords systemStats].
    apply inj_le, filter_length_le.
  - intros H0. revert H0. subst s. unfold systemStats.
    cbn [sys_totalSlots overallOccupancyRate]. intros ->. reflexivity.
  - revert Hs Ho Ha. subst s. unfold systemStats.
    cbn [sys_totalSlots overallOccupancyRate totalOccupied totalAvailable].
    intros Hs Ho Ha.
    destruct (0 <? _) eqn:E; [|unfold Qle; simpl; lia].
    apply Z.ltb_lt in E.
    match goal with
    | |- context [toFixed1 (js_mul (js_div (inject_Z ?o) (inject_Z ?t)) 100)] =>
        pose proof (toFixed1_bounds
                      (share_range (part := o) (total := t)
                         ltac:(lia) E)) as [H1 H2]
    end.
    unfold share in H1, H2. set (tenths := toFixed1 _) in *.
    clearbody tenths. unfold Qle. simpl. lia.
  - reflexivity.
Qed.

(** ** The latest entries *)

Lemma rev_slice_last {A} n (l : list A) :
  rev (slice_last n l) = firstn n (rev l).
Proof. unfold slice_last. now rewrite firstn_rev. Qed.

Lemma minutes_round d :
  Math_round (inject_Z d / 1000 / 60) = (d + 30000) / 60000.
Proof.
  unfold Math_round. rewrite Zdiv_Qdiv. apply Qfloor_comp.
  rewrite inject_Z_plus. field.
Qed.

(** X17.  The recent changes of the dashboard are the 50 latest entries
    of the history, or all of them when there are fewer, the newest
    first; the recent activities of the variant with authentication are
    the 20 latest in the same way.  An entry without a duration, or with
    the duration 0, is shown without one, and any other duration is shown
    as the nearest number of minutes, a half minute going up. *)
Theorem recent_changes_newest_first history :
  recentChanges history = map changeOfLog (firstn 50 (rev history))
  /\ length (recentChanges history) = Nat.min 50 (length history)
  /\ recentActivities history = map activityOfLog (firstn 20 (rev history))
  /\ length (recentActivities history) = Nat.min 20 (length history)
  /\ (forall log,
        c_duration (changeOfLog log) = act_duration (activityOfLog log)
        /\ c_duration (changeOfLog log) =
           match duration log with
           | Some d => if d =? 0 then None else Some ((d + 30000) / 60000)
           | None => None
           end).
Proof.
  unfold recentChanges, recentActivities. rewrite !rev_slice_last.
  repeat split.
  - now rewrite length_map, length_firstn, length_rev.
  - now rewrite length_map, length_firstn, length_rev.
  - unfold changeOfLog. cbn [c_duration].
    destruct (duration log) as [d|]; [|reflexivity].
    cbn [truthy_num or_num]. destruct (d =? 0); [reflexivity|].
    cbn [negb]. now rewrite minutes_round.
Qed.

(** ** The statistics of the slots *)

Lemma IntObj_get_replace {V} (o : IntObj.t V) k k' v :
  IntObj.get o k <> None ->
  IntObj.get (IntObj.replace o k v) k' =
  if k' =? k then Some v else IntObj.get o k'.
Proof.
  induction o as [|[k0 v0] o IH]; simpl; [congruence|].
  destruct (Z.eqb_spec k k0) as [->|Hne]; simpl.
  - intros _. now destruct (k' =? k0).
  - intros H. rewrite (IH H).
    destruct (Z.eqb_spec k' k0) as [->|]; [|reflexivity].
    destruct (Z.eqb_spec k0 k) as [->|]; [congruence | reflexivity].
Qed.

Lemma IntObj_get_insert {V} (o : IntObj.t V) k k' v :
  IntObj.get o k = None ->
  IntObj.get (IntObj.insert o k v) k' =
  if k' =? k then Some v else IntObj.get o k'.
Proof.
  induction o as [|[k0 v0] o IH]; simpl; [reflexivity|].
  destruct (Z.eqb_spec k k0) as [->|Hne]; [discriminate|].
  intros H. destruct (k <? k0); simpl; [reflexivity|].
  rewrite (IH H).
  destruct (Z.eqb_spec k' k0) as [->|]; [|reflexivity].
  destruct (Z.eqb_spec k0 k) as [->|]; [congruence | reflexivity].
Qed.

Lemma IntObj_get_set {V} (o : IntObj.t V) k k' v :
  IntObj.get (IntObj.set o k v) k' =
  if k' =? k then Some v else IntObj.get o k'.
Proof.
  unfold IntObj.set. destruct (IntObj.get o k) eqn:E.
  - apply IntObj_get_replace. congruence.
  - now apply IntObj_get_insert.
Qed.

Lemma JsMap_get_map {V W} (g : V -> W) (m : JsMap.t V) k :
  JsMap.get (map (fun dv => (fst dv, g (snd dv))) m) k =
  option_map g (JsMap.get m k).
Proof.
  induction m as [|[k0 v0] m IH]; simpl; [reflexivity|].
  now destruct (String.eqb k k0).
Qed.

Lemma IntObj_get_map {V W} (g : V -> W) (o : IntObj.t V) k :
  IntObj.get (map (fun kv => (fst kv, g (snd kv))) o) k =
  option_map g (IntObj.get o k).
Proof.
  induction o as [|[k0 v0] o IH]; simpl; [reflexivity|].
  now destruct (k =? k0).
Qed.

Lemma find_app_first {A} (f : A -> bool) l1 l2 :
  find f (l1 ++ l2) =
  match find f l1 with Some x => Some x | None => find f l2 end.
Proof.
  induction l1 as [|x l1 IH]; simpl; [reflexivity|].
  now destruct (f x).
Qed.

Section UsageFacts.

Variables last24Hours last7Days : Time.

Let upd (log : LogEntry) (st : SlotStats) : SlotStats :=
  addDuration log (countOccupation last24Hours last7Days log st).

(** An entry of the history changes the statistics of its own slot, when
    the slot has statistics, and nothing else. *)
Lemma statsOf_analyzeLog stats log dev sid :
  statsOf (analyzeLog last24Hours last7Days stats log) dev sid =
  if isEventOf dev sid log
  then option_map (upd log) (statsOf stats dev sid)
  else statsOf stats dev sid.
Proof.
  unfold analyzeLog, isEventOf, statsOf.
  destruct (JsMap.get stats (deviceId log)) as [devStats|] eqn:G.
  - destruct (IntObj.get devStats (slotId log)) as [ss|] eqn:Gs.
    + rewrite JsMapFacts.get_set. rewrite (String.eqb_sym dev).
      destruct (String.eqb (deviceId log) dev) eqn:E; simpl.
      * apply String.eqb_eq in E. subst dev. rewrite G, IntObj_get_set.
        rewrite (Z.eqb_sym sid).
        destruct (Z.eqb_spec (slotId log) sid) as [<-|]; [|reflexivity].
        now rewrite Gs.
      * reflexivity.
    + destruct (String.eqb (deviceId log) dev) eqn:E; simpl; [|reflexivity].
      apply String.eqb_eq in E. subst dev. rewrite G.
      destruct (Z.eqb_spec (slotId log) sid) as [<-|]; [|reflexivity].
      now rewrite Gs.
  - destruct (String.eqb (deviceId log) dev) eqn:E; simpl; [|reflexivity].
    apply String.eqb_eq in E. subst dev. rewrite G.
    now destruct (slotId log =? sid).
Qed.

Lemma statsOf_analysis history : forall stats dev sid,
  statsOf (fold_left (analyzeLog last24Hours last7Days) history stats)
    dev sid =
  option_map (fun st => fold_left (fun st log => upd log st)
                          (eventsOf dev sid history) st)
    (statsOf stats dev sid).
Proof.
  induction history as [|log history IH]; intros stats dev sid; simpl.
  - now destruct (statsOf stats dev sid).
  - rewrite IH, statsOf_analyzeLog.
    destruct (isEventOf dev sid log); simpl; [|reflexivity].
    now destruct (statsOf stats dev sid).
Qed.

(** The statistics of a slot after the entries of the slot. *)
Lemma slot_analysis logs : forall st,
  let st' := fold_left (fun st log => upd log st) logs st in
  st_slotId st' = st_slotId st
  /\ totalOccupations st' = totalOccupations st + occupationsSince None logs
  /\ last24hOccupations st' =
     last24hOccupations st + occupationsSince (Some last24Hours) logs
  /\ last7dOccupations st' =
     last7dOccupations st + occupationsSince (Some last7Days) logs
  /\ totalDuration st' = totalDuration st + occupiedTime logs
  /\ averageDuration st' = averageDuration st
  /\ currentlyOccupied st' = currentlyOccupied st.
Proof.
  induction logs as [|log logs IH]; intros st; cbn [fold_left].
  - unfold occupationsSince, occupiedTime. simpl. repeat split; lia.
  - destruct (IH (upd log st)) as (H1 & H2 & H3 & H4 & H5 & H6 & H7).
    cbv zeta. rewrite H1, H2, H3, H4, H5, H6, H7. clear.
    unfold upd, addDuration, countOccupation, occupationsSince, occupiedTime,
      sumZ.
    cbn [map filter fold_right].
    destruct (newState log) as [[|]|]; cbn [flag_eq Bool.eqb andb];
      try (destruct (last24Hours <=? timestamp log);
           destruct (last7Days <=? timestamp log));
      try (destruct (duration log) as [d|]; cbn [truthy_num or_num];
           try destruct (d =? 0); cbn [negb]);
      cbn [st_slotId totalOccupations last24hOccupations last7dOccupations
             totalDuration averageDuration currentlyOccupied length];
      repeat split; lia.
Qed.

End UsageFacts.

Section InitFacts.

Let fresh (slot : Slot) : SlotStats :=
  mkSlotStats (id slot) 0 0 0 (occupied slot) 0 0.

Lemma initSlot_statsOf dev stats slot dev' sid :
  JsMap.get stats dev <> None ->
  JsMap.get (initSlot dev stats slot) dev <> None
  /\ statsOf (initSlot dev stats slot) dev' sid =
     if String.eqb dev' dev
     then match statsOf stats dev sid with
          | Some x => Some x
          | None => if id slot =? sid then Some (fresh slot) else None
          end
     else statsOf stats dev' sid.
Proof.
  unfold initSlot, statsOf. intros Hd.
  destruct (JsMap.get stats dev) as [devStats|] eqn:G; [|congruence].
  destruct (IntObj.get devStats (id slot)) as [x|] eqn:Gs.
  - split; [congruence|].
    destruct (String.eqb dev' dev) eqn:E; [|reflexivity].
    apply String.eqb_eq in E. subst dev'. rewrite G.
    destruct (IntObj.get devStats sid) eqn:Gs'; [reflexivity|].
    destruct (Z.eqb_spec (id slot) sid) as [E|]; [congruence | reflexivity].
  - rewrite JsMapFacts.get_set_same. split; [discriminate|].
    rewrite JsMapFacts.get_set.
    destruct (String.eqb dev' dev) eqn:E; [|reflexivity].
    rewrite IntObj_get_set. rewrite (Z.eqb_sym sid).
    destruct (Z.eqb_spec (id slot) sid) as [<-|].
    + now rewrite Gs.
    + now destruct (IntObj.get devStats sid).
Qed.

Lemma initSlots_statsOf dev slots : forall stats dev' sid,
  JsMap.get stats dev <> None ->
  statsOf (fold_left (initSlot dev) slots stats) dev' sid =
  if String.eqb dev' dev
  then match statsOf stats dev sid with
       | Some x => Some x
       | None => option_map fresh (find (fun p => id p =? sid) slots)
       end
  else statsOf stats dev' sid.
Proof.
  induction slots as [|slot slots IH]; intros stats dev' sid Hd;
    cbn [fold_left find].
  - destruct (String.eqb dev' dev) eqn:E; [|reflexivity].
    apply String.eqb_eq in E. subst. now destruct (statsOf stats dev sid).
  - destruct (initSlot_statsOf dev stats slot dev sid Hd) as [Hd' Hs].
    rewrite String.eqb_refl in Hs.
    rewrite (IH _ dev' sid Hd'), Hs.
    destruct (String.eqb dev' dev) eqn:E.
    + destruct (statsOf stats dev sid); [reflexivity|].
      now destruct (id slot =? sid).
    + destruct (initSlot_statsOf dev stats slot dev' sid Hd) as [_ Hs'].
      now rewrite E in Hs'.
Qed.

Lemma initDevice_statsOf stats device dev' sid :
  statsOf (initDevice stats device) dev' sid =
  if String.eqb dev' (cs_deviceId device)
     && negb (inheritedName (cs_deviceId device))
  then match statsOf stats dev' sid with
       | Some x => Some x
       | None => option_map fresh
                   (find (fun p => id p =? sid) (cs_slots device))
       end
  else statsOf stats dev' sid.
Proof.
  unfold initDevice. set (dev := cs_deviceId device).
  destruct (inheritedName dev); [now rewrite andb_false_r|].
  rewrite andb_true_r.
  destruct (JsMap.get stats dev) as [d0|] eqn:G.
  - rewrite initSlots_statsOf by congruence.
    destruct (String.eqb dev' dev) eqn:E; [|reflexivity].
    apply String.eqb_eq in E. now subst.
  - rewrite initSlots_statsOf
      by (rewrite JsMapFacts.get_set_same; discriminate).
    unfold statsOf. rewrite !JsMapFacts.get_set, String.eqb_refl.
    destruct (String.eqb dev' dev) eqn:E; [|reflexivity].
    apply String.eqb_eq in E. subst dev'. rewrite G. reflexivity.
Qed.

Lemma initStats_statsOf ds : forall stats dev sid,
  statsOf (fold_left initDevice ds stats) dev sid =
  match statsOf stats dev sid with
  | Some x => Some x
  | None =>
      option_map fresh
        (find (fun p => id p =? sid)
           (flat_map (fun d => if String.eqb dev (cs_deviceId d)
                                  && negb (inheritedName (cs_deviceId d))
                               then cs_slots d else []) ds))
  end.
Proof.
  induction ds as [|d ds IH]; intros stats dev sid; cbn [fold_left flat_map].
  - now destruct (statsOf stats dev sid).
  - rewrite IH, initDevice_statsOf, find_app_first.
    destruct (String.eqb dev (cs_deviceId d)
              && negb (inheritedName (cs_deviceId d))).
    + destruct (statsOf stats dev sid); [reflexivity|].
      now destruct (find _ (cs_slots d)).
    + reflexivity.
Qed.

Lemma store_slots (store : JsMap.t Snapshot) dev :
  Forall (fun kv => d_deviceId (snd kv) = fst kv) store ->
  NoDup (mapKeys store) ->
  flat_map (fun d => if String.eqb dev (cs_deviceId d)
                        && negb (inheritedName (cs_deviceId d))
                     then cs_slots d else [])
    (currentStatus store) =
  match JsMap.get store dev with
  | Some snap => if inheritedName dev then []
                 else cs_slots (deviceStatus snap)
  | None => []
  end.
Proof.
  unfold currentStatus, JsMap.values, mapKeys.
  induction store as [|[k v] store IH]; intros Hk Hn; simpl; [reflexivity|].
  apply Forall_cons_iff in Hk as [Hkv Hk']. simpl in Hkv. rewrite Hkv.
  apply NoDup_cons_iff in Hn as [Hnot Hn'].
  rewrite (IH Hk' Hn').
  destruct (String.eqb dev k) eqn:E; [|reflexivity].
  apply String.eqb_eq in E. subst dev.
  assert (G : JsMap.get store k = None).
  { destruct (JsMap.get store k) eqn:G; [|reflexivity].
    elim Hnot. apply (get_In_mapKeys store k). congruence. }
  rewrite G. destruct (inheritedName k); simpl; [reflexivity|].
  apply app_nil_r.
Qed.

Lemma find_copied sid (l : list Slot) :
  option_map fresh
    (find (fun p => id p =? sid)
       (map (fun slot => mkSlot (id slot) (occupied slot) (lastUpdate slot))
          l)) =
  option_map fresh (find (fun p => id p =? sid) l).
Proof.
  induction l as [|x l IH]; simpl; [reflexivity|].
  now destruct (id x =? sid).
Qed.

(** The statistics that the initialisation gives to the slots of the
    store. *)
Lemma initStats_store (store : JsMap.t Snapshot) dev sid :
  Forall (fun kv => d_deviceId (snd kv) = fst kv) store ->
  NoDup (mapKeys store) ->
  statsOf (initStats (currentStatus store)) dev sid =
  match JsMap.get store dev with
  | Some snap =>
      if inheritedName dev then None
      else option_map fresh (find (fun p => id p =? sid) (slots snap))
  | None => None
  end.
Proof.
  intros Hk Hn. unfold initStats. rewrite initStats_statsOf.
  cbn [statsOf JsMap.get]. rewrite (store_slots dev Hk Hn).
  destruct (JsMap.get store dev) as [snap|]; [|reflexivity].
  destruct (inheritedName dev); [reflexivity|].
  apply find_copied.
Qed.

End InitFacts.

(** The analysis of the history and the initialisation make no key
    for a device that has none, or whose id is an inherited name. *)
Lemma analysis_keys last24Hours last7Days history : forall stats dev,
  JsMap.get (fold_left (analyzeLog last24Hours last7Days) history stats) dev
  = None <-> JsMap.get stats dev = None.
Proof.
  induction history as [|log history IH]; intros stats dev; simpl; [tauto|].
  rewrite IH. unfold analyzeLog.
  destruct (JsMap.get stats (deviceId log)) as [devStats|] eqn:G; [|tauto].
  destruct (IntObj.get devStats (slotId log)); [|tauto].
  rewrite JsMapFacts.get_set.
  destruct (String.eqb dev (deviceId log)) eqn:E; [|tauto].
  apply String.eqb_eq in E. subst dev. rewrite G.
  split; discriminate.
Qed.

Lemma initSlots_keys dev slots : forall stats dev',
  JsMap.get stats dev' = None -> dev' <> dev ->
  JsMap.get (fold_left (initSlot dev) slots stats) dev' = None.
Proof.
  induction slots as [|slot slots IH]; intros stats dev' G Hne; simpl;
    [exact G|].
  apply IH; [|exact Hne]. unfold initSlot.
  destruct (JsMap.get stats dev) as [devStats|]; [|exact G].
  destruct (IntObj.get devStats (id slot)); [exact G|].
  rewrite JsMapFacts.get_set_other; auto.
Qed.

Lemma initStats_inherited ds dev :
  inheritedName dev = true ->
  JsMap.get (initStats ds) dev = None.
Proof.
  intros Hinh. unfold initStats.
  assert (H : forall stats, JsMap.get stats dev = None ->
                JsMap.get (fold_left initDevice ds stats) dev = None).
  { induction ds as [|d ds IH]; intros stats G; simpl; [exact G|].
    apply IH. unfold initDevice.
    destruct (inheritedName (cs_deviceId d)) eqn:E; [exact G|].
    assert (Hne : dev <> cs_deviceId d) by congruence.
    apply initSlots_keys; [|exact Hne].
    destruct (JsMap.get stats (cs_deviceId d)); [exact G|].
    rewrite JsMapFacts.get_set_other; auto. }
  now apply H.
Qed.

Lemma occupationsSince_le t1 t2 logs :
  t2 <= t1 ->
  0 <= occupationsSince (Some t1) logs <= occupationsSince (Some t2) logs
  /\ occupationsSince (Some t2) logs <= occupationsSince None logs.
Proof.
  intros H. unfold occupationsSince.
  induction logs as [|e logs IH]; simpl; [lia|].
  destruct (flag_eq (newState e) (Some true)); simpl; [|exact IH].
  destruct (Z.leb_spec t1 (timestamp e)), (Z.leb_spec t2 (timestamp e));
    simpl length; lia.
Qed.

Lemma find_present {A} (f : A -> bool) l x :
  In x l -> f x = true -> exists y, find f l = Some y.
Proof.
  intros Hin Hf. destruct (find f l) as [y|] eqn:E; [now exists y|].
  now rewrite (find_none f l E x Hin) in Hf.
Qed.

(** X18.  After any requests served from the start that leave no device
    of the id [__proto__] in the store, the dashboard holds statistics for
    every slot of every stored snapshot whose device id is not a name
    that [Object.prototype] defines: the identifier of the slot, as
    [currentlyOccupied] the flag of the first slot of this identifier in
    the snapshot, as [totalOccupations] the number of the entries of the
    history of this device and slot whose new state is [true], as
    [last24hOccupations] and [last7dOccupations] the numbers of those not
    older than 24 hours and 7 days, as [totalDuration] the sum of the
    durations of the entries whose new state is [false], and as
    [averageDuration] their quotient rounded, or 0 without an
    occupation.  An identifier that the snapshot of the device does not
    hold has no statistics, whatever the history says of it; and a device
    whose id is such a name, like [constructor], has no statistics at
    all. *)
Theorem slot_usage_counts clk tzOffset cap wib calls now dev snap :
  let w := run clk tzOffset cap wib calls in
  let usage := slotUsageStats now (parkingData w) (slotHistory w) in
  JsMap.get (parkingData w) "__proto__" = None ->
  JsMap.get (parkingData w) dev = Some snap ->
  (inheritedName dev = false ->
   (forall slot, In slot (slots snap) ->
      let logs := eventsOf dev (id slot) (slotHistory w) in
      exists st first,
        statsOf usage dev (id slot) = Some st
        /\ find (fun p => id p =? id slot) (slots snap) = Some first
        /\ st_slotId st = id slot
        /\ currentlyOccupied st = occupied first
        /\ totalOccupations st = occupationsSince None logs
        /\ last24hOccupations st = occupationsSince (Some (now - dayMs)) logs
        /\ last7dOccupations st
           = occupationsSince (Some (now - 7 * dayMs)) logs
        /\ 0 <= last24hOccupations st <= last7dOccupations st
        /\ last7dOccupations st <= totalOccupations st
        /\ totalDuration st = occupiedTime logs
        /\ averageDuration st =
           if 0 <? totalOccupations st
           then Math_round (inject_Z (totalDuration st)
                            / inject_Z (totalOccupations st))
           else 0)
   /\ (forall sid, find (fun p => id p =? sid) (slots snap) = None ->
         statsOf usage dev sid = None))
  /\ (inheritedName dev = true ->
      JsMap.get usage dev = None /\ forall sid, statsOf usage dev sid = None).
Proof.
  intros w usage _ G.
  destruct (store_keys clk tzOffset cap wib calls) as (_ & Hk & Hn).
  fold w in Hk, Hn.
  assert (Hu : forall sid,
             statsOf usage dev sid =
             if inheritedName dev then None
             else
             option_map
               (fun p =>
                  withAverage
                    (fold_left
                       (fun st log =>
                          addDuration log
                            (countOccupation (now - dayMs) (now - 7 * dayMs)
                               log st))
                       (eventsOf dev sid (slotHistory w))
                       (mkSlotStats (id p) 0 0 0 (occupied p) 0 0)))
               (find (fun p => id p =? sid) (slots snap))).
  { intros sid. subst usage. unfold slotUsageStats. cbv zeta.
    set (analyzed := fold_left (analyzeLog (now - dayMs) (now - 7 * dayMs))
                       (slotHistory w)
                       (initStats (currentStatus (parkingData w)))).
    pose proof (statsOf_analysis (now - dayMs) (now - 7 * dayMs)
                  (slotHistory w) (initStats (currentStatus (parkingData w)))
                  dev sid) as Ha.
    fold analyzed in Ha.
    rewrite (initStats_store dev sid Hk Hn), G in Ha.
    unfold statsOf in *. rewrite JsMap_get_map.
    unfold IntObj.t in *.
    destruct (@JsMap.get (list (Z * SlotStats)) analyzed dev)
      as [devStats|]; cbn [option_map].
    - rewrite IntObj_get_map, Ha.
      destruct (inheritedName dev); [reflexivity|].
      now destruct (find _ (slots snap)).
    - destruct (inheritedName dev); [reflexivity|].
      destruct (find _ (slots snap)); [discriminate | reflexivity]. }
  split.
  - intros Hown. rewrite Hown in Hu. split.
    + intros slot Hin logs.
      destruct (@find_present _ (fun p => id p =? id slot) (slots snap) slot
                  Hin (Z.eqb_refl _)) as (first & Hf).
      pose proof (find_some _ _ Hf) as [_ Hid]. apply Z.eqb_eq in Hid.
      rewrite Hu, Hf. cbn [option_map]. fold logs.
      destruct (slot_analysis (now - dayMs) (now - 7 * dayMs) logs
                  (mkSlotStats (id first) 0 0 0 (occupied first) 0 0))
        as (H1 & H2 & H3 & H4 & H5 & H6 & H7).
      cbv zeta in H1, H2, H3, H4, H5, H6, H7.
      cbn [st_slotId totalOccupations last24hOccupations last7dOccupations
           totalDuration averageDuration currentlyOccupied] in *.
      match goal with
      | |- context [withAverage ?s] => set (st0 := s) in *
      end.
      pose proof (@occupationsSince_le (now - dayMs) (now - 7 * dayMs) logs
                    ltac:(unfold dayMs; lia)) as Hle.
      exists (withAverage st0), first. split; [reflexivity|].
      split; [reflexivity|].
      clearbody st0 logs. destruct Hle as [Hle1 Hle2].
      rewrite Z.add_0_l in H2, H3, H4, H5.
      assert (B1 : 0 <= last24hOccupations st0 <= last7dOccupations st0)
        by (rewrite H3, H4; exact Hle1).
      assert (B2 : last7dOccupations st0 <= totalOccupations st0)
        by (rewrite H4, H2; exact Hle2).
      unfold withAverage.
      destruct (0 <? totalOccupations st0) eqn:E;
        cbn [st_slotId totalOccupations last24hOccupations last7dOccupations
             totalDuration averageDuration currentlyOccupied];
        rewrite ?E; repeat split;
        first [assumption | congruence | apply B1].
    + intros sid Hnone. now rewrite Hu, Hnone.
  - intros Hinh. rewrite Hinh in Hu.
    assert (Hget : JsMap.get usage dev = None).
    { subst usage. unfold slotUsageStats. cbv zeta. rewrite JsMap_get_map.
      pose proof (analysis_keys (now - dayMs) (now - 7 * dayMs)
                    (slotHistory w)
                    (initStats (currentStatus (parkingData w))) dev) as Hkeys.
      apply proj2 in Hkeys.
      specialize (Hkeys (initStats_inherited _ _ Hinh)).
      unfold IntObj.t in *. now rewrite Hkeys. }
    split; [exact Hget | exact Hu].
Qed.

Lemma slot_usage_counts_witness :
  let calls := [PostStatus (objectReport "D1" [(1, false); (2, false)]);
                PostStatus (objectReport "constructor" [(1, false)]);
                PostStatus (objectReport "D1" [(1, true); (2, false)]);
                PostStatus (objectReport "D1" [(1, false); (2, true)]);
                PostStatus (objectReport "D1" [(1, true); (2, true)])] in
  let w := run clock_1s utc cap_server_js false calls in
  let usage := slotUsageStats 100000 (parkingData w) (slotHistory w) in
  JsMap.get (parkingData w) "__proto__" = None
  /\ (exists snap st,
        JsMap.get (parkingData w) "D1" = Some snap
        /\ inheritedName "D1" = false
        /\ statsOf usage "D1" 1 = Some st
        /\ totalOccupations st = 2)
  /\ (exists snap,
        JsMap.get (parkingData w) "constructor" = Some snap
        /\ inheritedName "constructor" = true
        /\ JsMap.get usage "constructor" = None).
Proof.
  intros calls w usage.
  assert (Hp : JsMap.get (parkingData w) "__proto__" = None) by reflexivity.
  split; [exact Hp|]. split.
  - destruct (JsMap.get (parkingData w) "D1") as [snap|] eqn:G;
      [|vm_compute in G; discriminate].
    destruct (@slot_usage_counts clock_1s utc cap_server_js false calls
                100000 "D1" snap Hp G) as [H _].
    destruct (H eq_refl) as [H1 _].
    assert (Hs : exists slot, In slot (slots snap) /\ id slot = 1).
    { vm_compute in G. injection G as <-.
      eexists. split; [left; reflexivity | reflexivity]. }
    destruct Hs as (slot & Hin & Hid).
    destruct (H1 slot Hin) as (st & first & Hst & _ & _ & _ & Hocc & _).
    rewrite Hid in Hst, Hocc.
    exists snap, st. split; [reflexivity|]. split; [reflexivity|].
    split; [exact Hst|]. rewrite Hocc. reflexivity.
  - destruct (JsMap.get (parkingData w) "constructor") as [snap|] eqn:G;
      [|vm_compute in G; discriminate].
    destruct (@slot_usage_counts clock_1s utc cap_server_js false calls
                100000 "constructor" snap Hp G) as [_ H].
    exists snap. split; [reflexivity|]. split; [reflexivity|].
    exact (proj1 (H eq_refl)).
Defined.

(** ** Accounts *)

Lemma truthy_str_Some s : truthy_str (Some s) = true <-> s <> "".
Proof.
  simpl. destruct (String.eqb_spec s ""); simpl; split; congruence.
Qed.

Lemma register_begin_inr adminUsers b e p n :
  register_begin adminUsers b = inr (e, p, n) <->
  b = mkCredentials (Some e) (Some p) (Some n)
  /\ e <> "" /\ p <> "" /\ n <> ""
  /\ JsMap.get adminUsers e = None
  /\ 6 <= Z.of_nat (String.length p).
Proof.
  unfold register_begin. destruct b as [[e'|] [p'|] [n'|]]; simpl;
    try (split; [discriminate | intros [[=] _]]).
  destruct (String.eqb_spec e' ""), (String.eqb_spec p' ""),
    (String.eqb_spec n' ""); simpl;
    try (split; [discriminate | intros ([= <- <- <-] & ? & ? & ? & _);
                                contradiction]).
  destruct (JsMap.get adminUsers e') eqn:G.
  - split; [discriminate|]. intros ([= <- <- <-] & _ & _ & _ & G' & _).
    congruence.
  - destruct (Z.ltb_spec (Z.of_nat (String.length p')) 6).
    + split; [discriminate|]. intros ([= <- <- <-] & _ & _ & _ & _ & H').
      lia.
    + split.
      * intros [= <- <- <-]. repeat split; auto.
      * intros ([= <- <- <-] & _). reflexivity.
Qed.

Lemma register_begin_inl adminUsers b r :
  register_begin adminUsers b = inl r ->
  status r = 400
  /\ exists message, json r = [("success", FBool false);
                               ("error", FStr message)].
Proof.
  unfold register_begin.
  destruct (cr_email b), (cr_password b), (cr_name b);
    try (intros [= <-]; split; [reflexivity | eexists; reflexivity]).
  destruct (_ || _).
  - intros [= <-]. split; [reflexivity | eexists; reflexivity].
  - destruct (JsMap.get adminUsers s).
    + intros [= <-]. split; [reflexivity | eexists; reflexivity].
    + destruct (_ <? _); [|discriminate].
      intros [= <-]. split; [reflexivity | eexists; reflexivity].
Qed.

Lemma register_kept hash adminUsers b now e u :
  JsMap.get adminUsers e = Some u ->
  JsMap.get (snd (register hash adminUsers b now)) e = Some u.
Proof.
  intros G. unfold register.
  destruct (register_begin adminUsers b) as [r|[[e' p'] n']] eqn:B;
    [exact G|].
  apply register_begin_inr in B as (_ & _ & _ & _ & G' & _).
  unfold register_finish. destruct (hash p'); [|exact G]. cbn [snd].
  rewrite JsMapFacts.get_set_other; [exact G|]. intros ->. congruence.
Qed.

Lemma registration_sequential_facts hash adminUsers b now :
  status (fst (register hash adminUsers b now)) = 200 ->
  exists h,
    (forall e p n, b = mkCredentials (Some e) (Some p) (Some n) ->
       e <> "" /\ p <> "" /\ hash p = Some h
       /\ JsMap.get (snd (register hash adminUsers b now)) e
          = Some (mkUser e h n "admin" now)).
Proof.
  unfold register.
  destruct (register_begin adminUsers b) as [resp|[[e p] n]] eqn:B.
  - destruct (register_begin_inl _ _ B) as [Hs _]. cbn [fst].
    rewrite Hs. discriminate.
  - apply register_begin_inr in B as (Hb & He & Hp & Hn & G & Hl).
    unfold register_finish. destruct (hash p) as [h|] eqn:Hh; cbn [fst snd];
      [|discriminate].
    intros _. exists h. intros e' p' n' Hb'. rewrite Hb in Hb'.
    injection Hb' as <- <- <-. repeat split; auto.
    apply JsMapFacts.get_set_same.
Qed.

(** X19.  A registration that no other request overlaps is answered with
    status 200, 400 or 500, and every answer but 200 leaves the users as
    they were.  It is answered 200 exactly when the email, the password
    and the name are non-empty strings, no user has the email, the
    password has 6 characters or more and the hash is computed; the
    answer then shows the email, the name and the role "admin" and no
    password, and a new user with the hash and this role is stored under
    the email, after the others.  No registration changes a user that
    exists, so that after any such registrations the account that the
    service starts with is as it was. *)
Theorem registration_sequential hash adminUsers b now :
  let r := register hash adminUsers b now in
  (status (fst r) = 200 \/ status (fst r) = 400 \/ status (fst r) = 500)
  /\ (status (fst r) <> 200 -> snd r = adminUsers)
  /\ (status (fst r) = 200 <->
      exists e p n h,
        b = mkCredentials (Some e) (Some p) (Some n)
        /\ e <> "" /\ p <> "" /\ n <> ""
        /\ JsMap.get adminUsers e = None
        /\ 6 <= Z.of_nat (String.length p)
        /\ hash p = Some h)
  /\ (forall e p n h,
        b = mkCredentials (Some e) (Some p) (Some n) ->
        status (fst r) = 200 -> hash p = Some h ->
        field (json (fst r)) "data"
        = Some (FData (Registered (mkPublicUser e n "admin")))
        /\ snd r = JsMap.set adminUsers e (mkUser e h n "admin" now)
        /\ JsMap.get (snd r) e = Some (mkUser e h n "admin" now)
        /\ mapKeys (snd r) = mapKeys adminUsers ++ [e])
  /\ (forall e u, JsMap.get adminUsers e = Some u ->
        JsMap.get (snd r) e = Some u)
  /\ (forall reqs loaded,
        JsMap.get (registerAll hash reqs (adminUsers0 loaded))
          "admin@parking.com" = Some (defaultAdmin loaded)).
Proof.
  intros r.
  assert (Hkept : forall reqs users e u,
             JsMap.get users e = Some u ->
             JsMap.get (registerAll hash reqs users) e = Some u).
  { unfold registerAll. induction reqs as [|q reqs IH]; intros users e u G;
      simpl; [exact G|].
    apply IH. now apply register_kept. }
  subst r. unfold register.
  destruct (register_begin adminUsers b) as [resp|[[e p] n]] eqn:B.
  - destruct (register_begin_inl _ _ B) as [Hs _]. cbn [fst snd].
    rewrite Hs. split; [now right; left|]. split; [reflexivity|].
    split; [split; [discriminate|]|].
    + intros (e & p & n & h & Hb & He & Hp & Hn & G & Hl & _).
      assert (B' : register_begin adminUsers b = inr (e, p, n))
        by (apply register_begin_inr; repeat split; auto).
      congruence.
    + split; [intros; discriminate|].
      split; [auto | intros reqs loaded; now apply Hkept].
  - apply register_begin_inr in B as (Hb & He & Hp & Hn & G & Hl).
    unfold register_finish. destruct (hash p) as [h|] eqn:Hh; cbn [fst snd].
    + split; [now left|]. split; [intros H; now elim H|].
      split; [split; [intros _; exists e, p, n, h; repeat split; auto
                     | reflexivity]|].
      split.
      * intros e' p' n' h' Hb' _ Hh'. rewrite Hb in Hb'.
        injection Hb' as <- <- <-. rewrite Hh in Hh'. injection Hh' as <-.
        repeat split.
        -- apply JsMapFacts.get_set_same.
        -- rewrite mapKeys_set.
           destruct (existsb _ _) eqn:E; [|reflexivity].
           apply existsb_eqb_In, get_In_mapKeys in E. congruence.
      * split; [|intros reqs loaded; now apply Hkept].
        intros e' u G'. rewrite JsMapFacts.get_set_other; [exact G'|].
        intros ->. congruence.
    + split; [now right; right|]. split; [reflexivity|].
      split.
      * split; [discriminate|].
        intros (e' & p' & n' & h' & Hb' & _ & _ & _ & _ & _ & Hh').
        rewrite Hb in Hb'. injection Hb' as <- <- <-. congruence.
      * split; [intros; discriminate|].
        split; [auto | intros reqs loaded; now apply Hkept].
Qed.

Lemma login_known compare sign adminUsers e p u :
  e <> "" -> p <> "" -> JsMap.get adminUsers e = Some u ->
  login compare sign adminUsers (mkCredentials (Some e) (Some p) None) =
  match compare p (usr_password u) with
  | None => failure 500 "Login failed"
  | Some false => failure 401 "Invalid credentials"
  | Some true =>
      let payload := mkPublicUser (usr_email u) (usr_name u) (usr_role u) in
      match sign payload with
      | None => failure 500 "Login failed"
      | Some token =>
          mkResponse 200
            [("success", FBool true);
             ("message", FStr "Login successful");
             ("data", FData (LoggedIn token payload))]
      end
  end.
Proof.
  intros He Hp G. unfold login. cbn [cr_email cr_password].
  apply truthy_str_Some in He, Hp. rewrite He, Hp. cbn [negb orb].
  now rewrite G.
Qed.

(** X20.  When [bcrypt.compare] accepts a password with the hashes that
    [bcrypt.hash] makes of it, a login with the email and the password of
    a registration that was answered 200 is answered 200, with the token
    signed for the email, the name and the role "admin" of the
    registration, and with these three as [user].  A login with a
    password that [bcrypt.compare] refuses is answered 401 with
    "Invalid credentials", and so is, with the same body, a login for an
    email that no user has. *)
Theorem register_then_login hash compare sign adminUsers e p n now :
  (forall q h, hash q = Some h -> compare q h = Some true) ->
  let r := register hash adminUsers
             (mkCredentials (Some e) (Some p) (Some n)) now in
  status (fst r) = 200 ->
  (forall token,
      sign (mkPublicUser e n "admin") = Some token ->
      login compare sign (snd r) (mkCredentials (Some e) (Some p) None) =
      mkResponse 200
        [("success", FBool true);
         ("message", FStr "Login successful");
         ("data", FData (LoggedIn token (mkPublicUser e n "admin")))])
  /\ (forall wrong other,
        wrong <> "" -> other <> "" ->
        (forall h, hash p = Some h -> compare wrong h = Some false) ->
        JsMap.get (snd r) other = None ->
        login compare sign (snd r) (mkCredentials (Some e) (Some wrong) None)
        = failure 401 "Invalid credentials"
        /\ login compare sign (snd r)
             (mkCredentials (Some other) (Some wrong) None)
           = failure 401 "Invalid credentials").
Proof.
  intros Hcontract r H200.
  destruct (@registration_sequential_facts hash adminUsers
              (mkCredentials (Some e) (Some p) (Some n)) now H200)
    as (h & Hfacts).
  destruct (Hfacts e p n eq_refl) as (He & Hp & Hh & G).
  fold r in G. split.
  - intros token Hs. rewrite (@login_known compare sign _ _ _ _ He Hp G).
    cbn [usr_password usr_email usr_name usr_role].
    rewrite (Hcontract p h Hh). cbv zeta. now rewrite Hs.
  - intros wrong other Hw Ho Hrefuse Hnone. split.
    + rewrite (@login_known compare sign _ _ _ _ He Hw G). cbn [usr_password].
      now rewrite (Hrefuse h Hh).
    + unfold login. cbn [cr_email cr_password].
      apply truthy_str_Some in Ho, Hw. rewrite Ho, Hw. cbn [negb orb].
      now rewrite Hnone.
Qed.

Lemma register_then_login_witness :
  let hash := fun q => Some (String.append "#" q) in
  let compare := fun q h => Some (String.eqb h (String.append "#" q)) in
  let sign := fun u => Some (pu_email u) in
  let r := register hash (adminUsers0 0)
             (mkCredentials (Some "ana@example.com") (Some "secret1")
                (Some "Ana")) 5 in
  ((forall q h, hash q = Some h -> compare q h = Some true)
   /\ status (fst r) = 200)
  /\ status (login compare sign (snd r)
               (mkCredentials (Some "ana@example.com") (Some "secret1") None))
     = 200.
Proof.
  intros hash compare sign r.
  assert (Hc : forall q h, hash q = Some h -> compare q h = Some true).
  { intros q h [= <-]. unfold compare. now rewrite String.eqb_refl. }
  split; [split; [exact Hc | reflexivity]|].
  destruct (@register_then_login hash compare sign (adminUsers0 0)
              "ana@example.com" "secret1" "Ana" 5 Hc eq_refl) as [H _].
  fold r in H. now rewrite (H "ana@example.com" eq_refl).
Defined.

(** X21.  Two registrations of one email that overlap, both having
    passed the checks before either stores its user, are both answered
    200; the users then hold one account under the email, that of the
    registration that finished last, and a login with the password of
    the other is refused when [bcrypt.compare] refuses it with the stored
    hash.  Had the second registration begun after the first finished, it
    would have been answered 400 with "User already exists". *)
Theorem overlapping_registrations adminUsers b1 b2 e p1 n1 p2 n2 h1 h2 t1 t2 :
  register_begin adminUsers b1 = inr (e, p1, n1) ->
  register_begin adminUsers b2 = inr (e, p2, n2) ->
  let r1 := register_finish adminUsers (e, p1, n1) (Some h1) t1 in
  let r2 := register_finish (snd r1) (e, p2, n2) (Some h2) t2 in
  status (fst r1) = 200 /\ status (fst r2) = 200
  /\ JsMap.get (snd r2) e = Some (mkUser e h2 n2 "admin" t2)
  /\ mapKeys (snd r2) = mapKeys adminUsers ++ [e]
  /\ (forall compare sign,
        compare p1 h2 = Some false ->
        login compare sign (snd r2) (mkCredentials (Some e) (Some p1) None)
        = failure 401 "Invalid credentials")
  /\ register_begin (snd r1) b2 = inl (failure 400 "User already exists").
Proof.
  intros B1 B2 r1 r2.
  apply register_begin_inr in B1 as (Hb1 & He & Hp1 & Hn1 & G & Hl1).
  apply register_begin_inr in B2 as (Hb2 & _ & Hp2 & Hn2 & _ & Hl2).
  subst r2 r1. cbn [register_finish fst snd status].
  assert (Hk : mapKeys (JsMap.set adminUsers e (mkUser e h1 n1 "admin" t1))
               = mapKeys adminUsers ++ [e]).
  { rewrite mapKeys_set. destruct (existsb _ _) eqn:E; [|reflexivity].
    apply existsb_eqb_In, get_In_mapKeys in E. congruence. }
  split; [reflexivity|]. split; [reflexivity|].
  split; [apply JsMapFacts.get_set_same|]. split.
  - rewrite mapKeys_set, Hk.
    destruct (existsb _ _) eqn:E; [reflexivity|].
    assert (E' : existsb (String.eqb e) (mapKeys adminUsers ++ [e]) = true).
    { apply existsb_eqb_In, in_or_app. right. now left. }
    congruence.
  - split.
    + intros compare sign Hc.
      rewrite (@login_known compare sign _ _ _ _ He Hp1
                 (JsMapFacts.get_set_same _ _ _)).
      cbn [usr_password]. now rewrite Hc.
    + rewrite Hb2. unfold register_begin. cbn [cr_email cr_password cr_name].
      apply truthy_str_Some in He, Hp2, Hn2. rewrite He, Hp2, Hn2.
      cbn [negb orb]. now rewrite JsMapFacts.get_set_same.
Qed.

Lemma overlapping_registrations_witness :
  let b1 := mkCredentials (Some "ana@example.com") (Some "secret1")
              (Some "Ana") in
  let b2 := mkCredentials (Some "ana@example.com") (Some "another2")
              (Some "Eve") in
  let r1 := register_finish (adminUsers0 0)
              ("ana@example.com", "secret1", "Ana") (Some "#secret1") 5 in
  let r2 := register_finish (snd r1)
              ("ana@example.com", "another2", "Eve") (Some "#another2") 6 in
  (register_begin (adminUsers0 0) b1
   = inr ("ana@example.com", "secret1", "Ana")
   /\ register_begin (adminUsers0 0) b2
      = inr ("ana@example.com", "another2", "Eve"))
  /\ status (fst r1) = 200 /\ status (fst r2) = 200
  /\ mapKeys (snd r2) = ["admin@parking.com"; "ana@example.com"].
Proof.
  intros b1 b2 r1 r2. split; [split; reflexivity|].
  destruct (@overlapping_registrations (adminUsers0 0) b1 b2
              "ana@example.com" "secret1" "Ana" "another2" "Eve"
              "#secret1" "#another2" 5 6 eq_refl eq_refl)
    as (H1 & H2 & _ & H4 & _).
  split; [exact H1|]. split; [exact H2|]. exact H4.
Defined.

(** ** The token of a request *)

Lemma append_snoc cur c w :
  String.append (String.append cur (String c "")) w
  = String.append cur (String c w).
Proof. induction cur as [|d cur IH]; simpl; [reflexivity | now rewrite IH]. Qed.

Lemma append_empty cur : String.append cur "" = cur.
Proof. induction cur as [|d cur IH]; simpl; [reflexivity | now rewrite IH]. Qed.

Lemma splitFrom_word w : forall cur rest,
  spaceless w = true ->
  splitFrom cur (String.append w (String space rest)) =
  String.append cur w :: splitFrom "" rest.
Proof.
  induction w as [|c w IH]; intros cur rest Hw; simpl.
  - rewrite ?Ascii.eqb_refl. now rewrite append_empty.
  - simpl in Hw. apply andb_true_iff in Hw as [Hc Hw].
    apply negb_true_iff in Hc. rewrite Hc, IH by exact Hw.
    now rewrite append_snoc.
Qed.

Lemma splitFrom_last w : forall cur,
  spaceless w = true -> splitFrom cur w = [String.append cur w].
Proof.
  induction w as [|c w IH]; intros cur Hw; simpl.
  - now rewrite append_empty.
  - simpl in Hw. apply andb_true_iff in Hw as [Hc Hw].
    apply negb_true_iff in Hc. rewrite Hc, IH by exact Hw.
    now rewrite append_snoc.
Qed.

(** X22.  [authenticateToken] answers 401 with "Access token required"
    when the request has no authorization header, or a header that is
    one word; for a header made of a word, a space and a token, it hands
    the token to [jwt.verify] whatever the word is, answers 403 with
    "Invalid or expired token" when the verification fails and lets the
    request through with the decoded user when it succeeds.  An empty
    header counts as the empty token, not as a missing one. *)
Theorem token_of_header verify scheme token :
  spaceless scheme = true -> spaceless token = true -> scheme <> "" ->
  authenticateToken verify (Some (String.append scheme (String space token)))
  = match verify token with
    | Some user => inr user
    | None => inl (failure 403 "Invalid or expired token")
    end
  /\ authenticateToken verify (Some scheme)
     = inl (failure 401 "Access token required")
  /\ authenticateToken verify None
     = inl (failure 401 "Access token required")
  /\ authenticateToken verify (Some "")
     = match verify "" with
       | Some user => inr user
       | None => inl (failure 403 "Invalid or expired token")
       end.
Proof.
  intros Hs Ht Hne. unfold authenticateToken, tokenOf, split_space.
  assert (E1 : String.eqb (String.append scheme (String space token)) ""
               = false) by (destruct scheme; [congruence | reflexivity]).
  assert (E2 : String.eqb scheme "" = false)
    by (destruct scheme; [congruence | reflexivity]).
  rewrite E1, E2, splitFrom_word by exact Hs.
  rewrite (splitFrom_last token "" Ht), (splitFrom_last scheme "" Hs).
  repeat split.
Qed.

Lemma token_of_header_witness :
  let verify := fun t => if String.eqb t "good"
                         then Some (mkPublicUser "admin@parking.com" "Admin"
                                      "admin")
                         else None in
  (spaceless "Bearer" = true /\ spaceless "good" = true /\ "Bearer" <> "")
  /\ authenticateToken verify (Some "Bearer good")
     = inr (mkPublicUser "admin@parking.com" "Admin" "admin")
  /\ authenticateToken verify (Some "Bearer")
     = inl (failure 401 "Access token required").
Proof.
  intros verify. split; [repeat split; discriminate|].
  destruct (@token_of_header verify "Bearer" "good" eq_refl eq_refl
              ltac:(discriminate)) as (H1 & H2 & _).
  split; [exact H1 | exact H2].
Defined.

(** ** The health of the service *)

(** X23.  After any requests served from the start, [GET /api/health]
    answers with status 200 and "OK", with the number of the devices that
    reported as [connectedDevices] and the length of the history, which
    is within the bound, as [totalHistoryLogs]; these are [totalDevices]
    and [totalHistoryRecords] of the dashboard, and the request changes
    neither store. *)
Theorem health_counts clk tzOffset cap wib calls now :
  0 <= cap ->
  let w := run clk tzOffset cap wib calls in
  let r := get_health clk w in
  let s := systemStats now (parkingData w) (slotHistory w) in
  status (fst r) = 200
  /\ field (json (fst r)) "status" = Some (FStr "OK")
  /\ field (json (fst r)) "connectedDevices"
     = Some (FNum (Z.of_nat (length (deviceOrder calls))))
  /\ field (json (fst r)) "connectedDevices" = Some (FNum (totalDevices s))
  /\ field (json (fst r)) "totalHistoryLogs"
     = Some (FNum (totalHistoryRecords s))
  /\ 0 <= totalHistoryRecords s <= cap
  /\ same_stores w (snd r).
Proof.
  intros Hc w r s.
  destruct (store_keys clk tzOffset cap wib calls) as (Hk & _ & _).
  fold w in Hk.
  assert (Hd : JsMap.size (parkingData w)
               = Z.of_nat (length (deviceOrder calls))).
  { unfold JsMap.size. rewrite <- Hk. unfold mapKeys.
    now rewrite length_map. }
  assert (Hb : Z.of_nat (length (slotHistory w)) <= cap).
  { apply (@run_ind clk tzOffset cap wib
             (fun w => Z.of_nat (length (slotHistory w)) <= cap));
      [exact Hc|].
    intros w0 c H.
    apply (@step_inv clk tzOffset cap wib
             (fun h => Z.of_nat (length h) <= cap)); auto.
    intros h e Hh _. now apply trim_length. }
  subst r s. unfold get_health. rewrite !bind_run.
  cbn [fst snd new_Date get_parkingData get_history parkingData slotHistory
       ret status json systemStats totalDevices totalHistoryRecords].
  rewrite <- Hd. repeat split; try reflexivity; try lia.
Qed.

Lemma health_counts_witness :
  let calls := [PostStatus (simpleReport "D1" [0; 1]);
                PostStatus (simpleReport "D2" [1]);
                PostStatus (simpleReport "D1" [1; 1])] in
  0 <= cap_server_js
  /\ field (json (fst (get_health clock_1s
                         (run clock_1s utc cap_server_js false calls))))
       "connectedDevices" = Some (FNum 2).
Proof.
  intros calls. split; [discriminate|].
  exact (proj1 (proj2 (proj2 (@health_counts clock_1s utc cap_server_js false
                                calls 0 ltac:(discriminate))))).
Defined.

(** ** The busiest and the quietest hour *)

Lemma busiest_scan l : forall acc,
  (forall m, acc = Some m -> 0 < hd_totalActivity m) ->
  let top := fold_left
               (fun max hour =>
                  if or_num (option_map hd_totalActivity max) 0
                     <? hd_totalActivity hour
                  then Some hour else max) l acc in
  (forall m, top = Some m -> 0 < hd_totalActivity m)
  /\ (top = None -> acc = None /\ Forall (fun x => hd_totalActivity x <= 0) l)
  /\ (forall m, top = Some m ->
        (acc = Some m \/ In m l)
        /\ (forall a, acc = Some a -> hd_totalActivity a <= hd_totalActivity m)
        /\ Forall (fun x => hd_totalActivity x <= hd_totalActivity m) l).
Proof.
  induction l as [|x l IH]; intros acc Hacc; cbn [fold_left].
  - split; [exact Hacc|]. split; [intros ->; split; [reflexivity|constructor]|].
    intros m ->. split; [now left|]. split; [|constructor].
    intros a [= ->]. lia.
  - set (acc' := if or_num (option_map hd_totalActivity acc) 0
                    <? hd_totalActivity x then Some x else acc).
    assert (Hor : or_num (option_map hd_totalActivity acc) 0
                  = match acc with Some a => hd_totalActivity a | None => 0 end).
    { destruct acc as [a|]; [|reflexivity]. simpl.
      destruct (Z.eqb_spec (hd_totalActivity a) 0); congruence. }
    assert (Hacc' : forall m, acc' = Some m -> 0 < hd_totalActivity m).
    { intros m. unfold acc'. rewrite Hor.
      destruct (Z.ltb_spec (match acc with Some a => hd_totalActivity a
                                          | None => 0 end)
                  (hd_totalActivity x)) as [Hlt|Hge].
      - intros [= <-]. destruct acc as [a|]; [|exact Hlt].
        specialize (Hacc a eq_refl). lia.
      - apply Hacc. }
    destruct (IH acc' Hacc') as (H1 & H2 & H3). cbv zeta in H1, H2, H3.
    split; [exact H1|]. split.
    + intros Hn. destruct (H2 Hn) as [Ha Hl]. unfold acc' in Ha.
      rewrite Hor in Ha.
      destruct (Z.ltb_spec (match acc with Some a => hd_totalActivity a
                                          | None => 0 end)
                  (hd_totalActivity x)) as [Hlt|Hge]; [discriminate|].
      subst acc. split; [reflexivity|]. constructor; [exact Hge | exact Hl].
    + intros m Hm. destruct (H3 m Hm) as (Hin & Hle & Hall).
      unfold acc' in Hin, Hle. rewrite Hor in Hin, Hle.
      destruct (Z.ltb_spec (match acc with Some a => hd_totalActivity a
                                          | None => 0 end)
                  (hd_totalActivity x)) as [Hlt|Hge].
      * specialize (Hle x eq_refl). split.
        { right. destruct Hin as [[= <-]|Hin]; [now left | now right]. }
        split; [|constructor; auto].
        intros a ->. lia.
      * split; [destruct Hin as [Hin|Hin]; [now left | now right; right]|].
        split; [exact Hle|]. constructor; [|exact Hall].
        destruct acc as [a|].
        -- specialize (Hle a eq_refl). lia.
        -- destruct Hin as [Hin|Hin]; [discriminate|].
           specialize (H1 m Hm). lia.
Qed.

(** X24.  [busiestHour] of the hourly analytics is [null] exactly when no
    hour has a positive activity; otherwise it is an hour of the list
    with a positive activity that no hour exceeds. *)
Theorem busiest_hour_is_maximum hourlyData :
  (busiestHour hourlyData = None <->
   Forall (fun x => hd_totalActivity x <= 0) hourlyData)
  /\ (forall m, busiestHour hourlyData = Some m ->
        In m hourlyData /\ 0 < hd_totalActivity m
        /\ Forall (fun x => hd_totalActivity x <= hd_totalActivity m)
             hourlyData).
Proof.
  destruct (@busiest_scan hourlyData None ltac:(discriminate))
    as (H1 & H2 & H3).
  cbv zeta in H1, H2, H3. fold (busiestHour hourlyData) in H1, H2, H3.
  split; [split|].
  - intros Hn. now apply H2.
  - intros Hall. destruct (busiestHour hourlyData) as [m|] eqn:E;
      [|reflexivity].
    destruct (H3 m eq_refl) as ([Hin|Hin] & _ & _); [discriminate|].
    rewrite Forall_forall in Hall. specialize (Hall m Hin).
    specialize (H1 m eq_refl). lia.
  - intros m Hm. destruct (H3 m Hm) as ([Hin|Hin] & _ & Hall);
      [discriminate|]. repeat split; auto.
Qed.

Section QuietFacts.

Let pick (min : option HourDetail) (hour : HourDetail) : option HourDetail :=
  match option_map hd_totalActivity min with
  | Some n =>
      if n =? 0 then Some hour
      else if hd_totalActivity hour <? n then Some hour else min
  | None => Some hour
  end.

Lemma quiet_from l : forall acc m,
  fold_left pick l acc = Some m -> acc = Some m \/ In m l.
Proof.
  induction l as [|x l IH]; intros acc m; cbn [fold_left]; [now left|].
  intros H. apply IH in H as [H|H]; [|now right; right].
  unfold pick in H. destruct acc as [a|]; cbn [option_map] in H.
  - destruct (hd_totalActivity a =? 0);
      [injection H as <-; right; now left|].
    destruct (hd_totalActivity x <? hd_totalActivity a);
      [injection H as <-; right; now left | now left].
  - injection H as <-. right. now left.
Qed.

(** An hour without activity replaces whatever was picked before it. *)
Lemma quiet_reset l z :
  Forall (fun x => 0 <= hd_totalActivity x) l ->
  hd_totalActivity z = 0 ->
  fold_left pick (l ++ [z]) None = Some z.
Proof.
  intros Hl Hz. rewrite fold_left_app. cbn [fold_left].
  destruct (fold_left pick l None) as [a|] eqn:E; [|reflexivity].
  apply quiet_from in E as [E|E]; [discriminate|].
  rewrite Forall_forall in Hl. specialize (Hl a E).
  unfold pick. cbn [option_map]. rewrite Hz.
  destruct (Z.eqb_spec (hd_totalActivity a) 0); [reflexivity|].
  destruct (Z.ltb_spec 0 (hd_totalActivity a)); [reflexivity | lia].
Qed.

(** Among hours with activity, the first of the least activity is
    picked. *)
Lemma quiet_positive s : forall a,
  0 < hd_totalActivity a ->
  Forall (fun x => 0 < hd_totalActivity x) s ->
  exists m,
    fold_left pick s (Some a) = Some m
    /\ (m = a \/ In m s)
    /\ hd_totalActivity m <= hd_totalActivity a
    /\ Forall (fun x => hd_totalActivity m <= hd_totalActivity x) s.
Proof.
  induction s as [|x s IH]; intros a Ha Hs; cbn [fold_left].
  - exists a. repeat split; auto. lia.
  - apply Forall_cons_iff in Hs as [Hx Hs].
    unfold pick at 2. cbn [option_map].
    destruct (Z.eqb_spec (hd_totalActivity a) 0); [lia|].
    destruct (Z.ltb_spec (hd_totalActivity x) (hd_totalActivity a)).
    + destruct (IH x Hx Hs) as (m & E & Hin & Hle & Hall).
      exists m. split; [exact E|].
      split; [right; destruct Hin as [->|Hin]; [now left | now right]|].
      split; [lia|]. constructor; auto.
    + destruct (IH a Ha Hs) as (m & E & Hin & Hle & Hall).
      exists m. split; [exact E|].
      split; [destruct Hin as [->|Hin]; [now left | right; now right]|].
      split; [lia|]. constructor; [lia | auto].
Qed.

Lemma quietestHour_fold l : quietestHour l = fold_left pick l None.
Proof. reflexivity. Qed.

End QuietFacts.

(** X25.  [quietestHour] of the hourly analytics, on hours that all have
    activity, is the first hour of the least activity.  But an hour
    without activity makes the reduction forget what it picked: on a
    list with such an hour the result is that hour when it is the last
    one, and otherwise the quietest of the hours that follow the last
    hour without activity, whatever the earlier hours were. *)
Theorem quietest_hour_after_last_idle l z s :
  Forall (fun x => 0 <= hd_totalActivity x) l ->
  hd_totalActivity z = 0 ->
  Forall (fun x => 0 < hd_totalActivity x) s ->
  quietestHour (l ++ z :: s)
  = match s with [] => Some z | _ :: _ => quietestHour s end
  /\ (s <> [] ->
      exists m, quietestHour s = Some m /\ In m s
                /\ Forall (fun x => hd_totalActivity m <= hd_totalActivity x)
                     s).
Proof.
  intros Hl Hz Hs. split.
  - rewrite !quietestHour_fold.
    replace (l ++ z :: s) with ((l ++ [z]) ++ s)
      by (rewrite <- app_assoc; reflexivity).
    rewrite fold_left_app, (@quiet_reset l z Hl Hz).
    destruct s as [|x s]; [reflexivity|].
    cbn [fold_left option_map]. now rewrite Hz.
  - intros Hne. destruct s as [|x s]; [congruence|].
    apply Forall_cons_iff in Hs as [Hx Hs].
    rewrite quietestHour_fold. cbn [fold_left option_map].
    destruct (@quiet_positive s x Hx Hs) as (m & E & Hin & Hle & Hall).
    exists m. split; [exact E|]. split.
    + destruct Hin as [->|Hin]; [now left | now right].
    + constructor; auto.
Qed.

Lemma quietest_hour_after_last_idle_witness :
  let idle := mkHourDetail 8 0 0 0 0 in
  let busy := mkHourDetail 9 3 2 1 5 in
  (Forall (fun x => 0 <= hd_totalActivity x) []
   /\ hd_totalActivity idle = 0
   /\ Forall (fun x => 0 < hd_totalActivity x) [busy])
  /\ quietestHour [idle; busy] = Some busy.
Proof.
  intros idle busy.
  assert (H1 : Forall (fun x => 0 <= hd_totalActivity x) (@nil HourDetail))
    by constructor.
  assert (H3 : Forall (fun x => 0 < hd_totalActivity x) [busy])
    by (constructor; [reflexivity | constructor]).
  split; [repeat split; assumption|].
  exact (proj1 (@quietest_hour_after_last_idle [] idle [busy] H1 eq_refl H3)).
Defined.
